(** * albion-discord-bot: alias generation, fuzzy item matching, price
    history and price embed

    A shallow embedding of [src/scripts/common_names.py] (identifier parsing
    and alias generation) and, from [src/cogs/fetchprice.py], of
    [FetchPrice.item_match] (ranking of catalog items against a query), of
    the series that [FetchPrice.grabHistory] plots, and of the fields of
    the embed that [FetchPrice._createEmbed] builds for [prices], followed
    by the properties proved about them.

    Conventions of the embedding:
    - a Python [str] is a [string]; a character is a code point below 256,
      classified the way Python classifies Latin-1 code points;
    - a value read by [json.load] is a [value]; a Python [dict] with string
      keys is a [gmap string value];
    - a call that can raise returns a [result]; [try]/[except] is a function
      on results;
    - a Python number used as a distance is the rational it denotes;
    - a [gmap] does not keep the order in which the keys of a dict were
      inserted: what depends on that order is stated for lists only. *)

From Stdlib Require Import Ascii QArith Qcanon Sorted.
From stdpp Require Import gmap strings list fin_maps pretty numbers.

#[local] Set Warnings "-register-all".
#[local] Open Scope Z_scope.

(** ** Python run time: exceptions, JSON values, [str] methods *)

Module Py.

Inductive exn := KeyError | TypeError | IndexError | AttributeError | ValueError.

Inductive result (A : Type) :=
  | Ok (a : A)
  | Raise (e : exn).
Arguments Ok {A} a.
Arguments Raise {A} e.

#[global] Instance result_ret : MRet result := λ A a, Ok a.
#[global] Instance result_bind : MBind result := λ A B f m,
  match m with Ok a => f a | Raise e => Raise e end.

#[global] Instance exn_eq_dec : EqDecision exn.
Proof. solve_decision. Defined.

(** [try: body except E: handler] where the handler yields a value. *)
Definition try_except {A} (E : exn) (body : result A) (handler : A) : result A :=
  match body with
  | Ok a => Ok a
  | Raise e => if decide (e = E) then Ok handler else Raise e
  end.

(** [try: body except: handler] (a bare except catches everything). *)
Definition try_bare {A} (body : result A) (handler : A) : A :=
  match body with Ok a => a | Raise _ => handler end.

(** What [json.load] produces; JSON numbers are kept to the integers. *)
Inductive value :=
  | VNull
  | VBool (b : bool)
  | VNum (z : Z)
  | VStr (s : string)
  | VList (l : list value)
  | VDict (m : gmap string value).

(** [for x in l: acc = f acc x], stopping at the first exception. *)
Fixpoint for_each {A S} (f : S → A → result S) (l : list A) (acc : S) : result S :=
  match l with
  | [] => Ok acc
  | x :: l' => acc' ← f acc x; for_each f l' acc'
  end.

(** A list comprehension [[f x for x in l]]. *)
Fixpoint comprehension {A B} (f : A → result B) (l : list A) : result (list B) :=
  match l with
  | [] => Ok []
  | x :: l' => y ← f x; ys ← comprehension f l'; Ok (y :: ys)
  end.

(** [l[k]] on a list, negative indices counting from the end. *)
Definition index {A} (l : list A) (k : Z) : result A :=
  let n := Z.of_nat (length l) in
  let k' := if k <? 0 then k + n else k in
  if (0 <=? k') && (k' <? n) then
    match l !! Z.to_nat k' with Some x => Ok x | None => Raise IndexError end
  else Raise IndexError.

(** [d[k]] on a dict. *)
Definition getitem (d : gmap string value) (k : string) : result value :=
  match d !! k with Some v => Ok v | None => Raise KeyError end.

(** The characters of a string, each a string of length one. *)
Fixpoint chars (s : string) : list value :=
  match s with
  | EmptyString => []
  | String c s' => VStr (String c "") :: chars s'
  end.

(** [v[k]] on an arbitrary value: dicts are looked up by key, lists and
    strings take integer indices only ([bool] is an [int] in Python), and
    nothing else can be subscripted. A non-string key is never in a dict
    loaded from JSON. *)
Definition subscript (v k : value) : result value :=
  match v, k with
  | VDict m, VStr key => getitem m key
  | VDict _, (VList _ | VDict _) => Raise TypeError
  | VDict _, _ => Raise KeyError
  | VList l, VNum z => index l z
  | VList l, VBool b => index l (if b then 1 else 0)
  | VStr s, VNum z => index (chars s) z
  | VStr s, VBool b => index (chars s) (if b then 1 else 0)
  | _, _ => Raise TypeError
  end.

(** [iter(v)]: what a [for] loop over [v] visits. The keys of a dict come
    in the order of the [gmap], which is the order of Python up to a
    rearrangement: what depends on that order is stated for lists only. *)
Definition iter (v : value) : result (list value) :=
  match v with
  | VDict m => Ok (VStr <$> (map_to_list m).*1)
  | VList l => Ok l
  | VStr s => Ok (chars s)
  | _ => Raise TypeError
  end.

(** *** Characters *)

Definition ord (c : ascii) : N := N_of_ascii c.

Definition between (lo hi : N) (c : ascii) : bool :=
  ((lo <=? ord c) && (ord c <=? hi))%N.

Definition is_code (n : N) (c : ascii) : bool := (ord c =? n)%N.

(** [str.isdecimal], which is what [\d] matches. *)
Definition isdecimal (c : ascii) : bool := between 48 57 c.

Definition isalpha (c : ascii) : bool :=
  between 65 90 c || between 97 122 c
  || is_code 170 c || is_code 181 c || is_code 186 c
  || between 192 214 c || between 216 246 c || between 248 255 c.

Definition isnumeric (c : ascii) : bool :=
  isdecimal c || is_code 178 c || is_code 179 c || is_code 185 c
  || between 188 190 c.

(** What [\w] matches: alphanumerics and the underscore. *)
Definition isword (c : ascii) : bool :=
  isalpha c || isnumeric c || is_code 95 c.

Definition isspace (c : ascii) : bool :=
  between 9 13 c || between 28 32 c || is_code 133 c || is_code 160 c.

Definition lower_char (c : ascii) : ascii :=
  if between 65 90 c || (between 192 222 c && negb (is_code 215 c))
  then ascii_of_N (ord c + 32) else c.

(** *** [str] methods *)

Fixpoint lower (s : string) : string :=
  match s with
  | EmptyString => EmptyString
  | String c s' => String (lower_char c) (lower s')
  end.

(** [v.lower()] on a JSON value. *)
Definition str_lower (v : value) : result string :=
  match v with VStr s => Ok (lower s) | _ => Raise AttributeError end.

(** [s.split()]: the maximal runs of non-whitespace characters. [cur] is
    the word being read. *)
Fixpoint split_from (cur : string) (s : string) : list string :=
  match s with
  | EmptyString =>
      match cur with EmptyString => [] | _ => [cur] end
  | String c s' =>
      if isspace c then
        match cur with
        | EmptyString => split_from "" s'
        | _ => cur :: split_from "" s'
        end
      else split_from (cur +:+ String c "") s'
  end.

Definition split (s : string) : list string := split_from "" s.

(** [v.split()] on a JSON value. *)
Definition str_split (v : value) : result (list string) :=
  match v with VStr s => Ok (split s) | _ => Raise AttributeError end.

(** [sep.join(l)] *)
Fixpoint join (sep : string) (l : list string) : string :=
  match l with
  | [] => ""
  | [x] => x
  | x :: l' => x +:+ sep +:+ join sep l'
  end.

(** [str(n)] for an [int], as an f-string formats it. *)
Definition str_of_int (n : Z) : string := pretty n.

(** *** [int(s)] on a string *)

Fixpoint lstrip (s : string) : string :=
  match s with
  | String c s' => if isspace c then lstrip s' else s
  | EmptyString => EmptyString
  end.

Definition strip (s : string) : string :=
  String.rev (lstrip (String.rev (lstrip s))).

Definition digit (c : ascii) : Z := Z.of_N (ord c) - 48.

(** Decimal digits, single underscores allowed between digits; [acc] is
    the value of the digits read so far. *)
Fixpoint digits (acc : Z) (s : string) : option Z :=
  match s with
  | EmptyString => Some acc
  | String c s' =>
      if isdecimal c then digits (10 * acc + digit c) s'
      else if is_code 95 c then
        match s' with
        | String d s'' =>
            if isdecimal d then digits (10 * acc + digit d) s'' else None
        | EmptyString => None
        end
      else None
  end.

Definition unsigned (s : string) : option Z :=
  match s with
  | String d s' => if isdecimal d then digits (digit d) s' else None
  | EmptyString => None
  end.

Definition int (s : string) : result Z :=
  let t := strip s in
  let parsed :=
    match t with
    | String "+" r => unsigned r
    | String "-" r => Z.opp <$> unsigned r
    | _ => unsigned t
    end in
  match parsed with Some n => Ok n | None => Raise ValueError end.

End Py.

(** ** [src/scripts/common_names.py] *)

Module CommonNames.
Import Py.

(** [ItemName = namedtuple("ItemName", "tier, name, enchant")] *)
Record ItemName := mkItemName { tier : Z; name : string; enchant : Z }.

Definition TIER_LONG_NAMES : gset string :=
  list_to_set ["Journeyman's"; "Adept's"; "Expert's"; "Master's";
               "Grandmaster's"; "Elder's"].

Definition ENC_LONG_NAMES : gset string :=
  list_to_set ["Uncommon"; "Rare"; "Exceptional"; "Cured"].

Definition RESOURCE_NAMES : gset string :=
  list_to_set ["Birch"; "Pine"; "Cedar"; "Bloodoak"; "Ashenbark"; "Whitewood";
               "Copper"; "Tin"; "Iron"; "Titatnium"; "Runite"; "Meteorite";
               "Adamantium"; "Rugged"; "Thin"; "Medium"; "Heavy"; "Robust";
               "Thick"; "Resilient"; "Bronze"; "Stiff"; "Thick"; "Worked";
               "Cured"; "Hardened"; "Reinforced"; "Fortified"; "Simple";
               "Neat"; "Fine"; "Ornate"; "Lavish"; "Opulent"; "Baroque"].

(** *** [TIER_REGEX = r"(?:T(\d))_(\w+)(?:@(\d))?"] *)

(** The longest run of word characters at the head of [s], and the rest:
    what the greedy [\w+] takes on its first attempt. *)
Fixpoint word_run (s : string) : string * string :=
  match s with
  | String c s' =>
      if isword c then let '(w, r) := word_run s' in (String c w, r)
      else ("", s)
  | EmptyString => ("", "")
  end.

(** A match of [TIER_REGEX] anchored at the head of [s]: the three groups
    and the length of the match. The first attempt of the greedy [\w+]
    always succeeds, because the optional [(?:@(\d))?] that follows it may
    match the empty string; a group that does not take part is reported by
    [re.findall] as the empty string. *)
Definition TIER_REGEX_match (s : string) : option (string * string * string * nat) :=
  match s with
  | String "T" (String d (String "_" r)) =>
      if isdecimal d then
        match word_run r with
        | (EmptyString, _) => None
        | (w, String "@" (String e _)) =>
            if isdecimal e
            then Some (String d "", w, String e "", (5 + String.length w)%nat)
            else Some (String d "", w, "", (3 + String.length w)%nat)
        | (w, _) => Some (String d "", w, "", (3 + String.length w)%nat)
        end
      else None
  | _ => None
  end.

(** [re.findall(TIER_REGEX, s)]: the matches from left to right, each
    search starting where the previous match ended. [skip] counts the
    characters of the current match that are still to be passed. *)
Fixpoint findall_from (skip : nat) (s : string) {struct s}
    : list (string * string * string) :=
  match s with
  | EmptyString => []
  | String _ s' =>
      match skip with
      | S k => findall_from k s'
      | O =>
          match TIER_REGEX_match s with
          | Some (g, len) => g :: findall_from (len - 1) s'
          | None => findall_from 0 s'
          end
      end
  end.

Definition findall_TIER_REGEX (s : string) : list (string * string * string) :=
  findall_from 0 s.

(** *** The functions of the module *)

Definition _tryInt (number : string) (default : Z) : result Z :=
  try_except ValueError (int number) default.

Definition _convertItem (name : string) : result ItemName :=
  let matches := findall_TIER_REGEX name in
  if (0 <? length matches)%nat then
    '(tier, n, enchant) ← index matches 0;
    t ← _tryInt tier 1;
    e ← _tryInt enchant 0;
    Ok (mkItemName t n e)
  else Ok (mkItemName 1 name 0).

(** [f"T{name.tier}.{name.enchant}"] and [f"T{name.tier}"] *)
Definition short_dotted (name : ItemName) : string :=
  "T" +:+ str_of_int (tier name) +:+ "." +:+ str_of_int (enchant name).

Definition short_bare (name : ItemName) : string :=
  "T" +:+ str_of_int (tier name).

(** [item["CommonNames"].append(s)] *)
Definition append_common (item : gmap string value) (s : string)
    : result (gmap string value) :=
  v ← getitem item "CommonNames";
  match v with
  | VList l => Ok (<["CommonNames" := VList (l ++ [VStr s])]> item)
  | _ => Raise AttributeError
  end.

Definition _addTierNickname (name : ItemName) (item : gmap string value)
    : result (gmap string value) :=
  item ← append_common item (short_dotted name +:+ " " +:+ CommonNames.name name);
  if enchant name =? 0
  then append_common item (short_bare name +:+ " " +:+ CommonNames.name name)
  else Ok item.

(** [item["LocalizedNames"]["EN-US"].split()] *)
Definition long_name_fields (item : gmap string value) : result (list string) :=
  names ← getitem item "LocalizedNames";
  longName ← subscript names (VStr "EN-US");
  str_split longName.

(** A [TypeError] can only come from subscripting [item["LocalizedNames"]],
    before anything is appended, so the handler resumes with the item as it
    was passed in. *)
Definition _replaceLongTierName (name : ItemName) (item : gmap string value)
    : result (gmap string value) :=
  try_except TypeError
    (fields ← long_name_fields item;
     first ← index fields 0;
     if bool_decide (first ∈ TIER_LONG_NAMES) then
       item ← append_common item (join " " (short_dotted name :: drop 1 fields));
       if enchant name =? 0
       then append_common item (join " " (short_bare name :: drop 1 fields))
       else Ok item
     else Ok item)
    item.

Definition _replaceLongEnchantName (name : ItemName) (item : gmap string value)
    : result (gmap string value) :=
  try_except TypeError
    (fields ← long_name_fields item;
     first ← index fields 0;
     if bool_decide (first ∈ ENC_LONG_NAMES) then
       item ← append_common item (join " " (short_dotted name :: drop 1 fields));
       second ← index fields 1;
       item ← (if bool_decide (second ∈ RESOURCE_NAMES)
               then append_common item (join " " (short_dotted name :: drop 2 fields))
               else Ok item);
       if enchant name =? 0 then
         item ← append_common item (join " " (short_bare name :: drop 1 fields));
         second ← index fields 1;
         if bool_decide (second ∈ RESOURCE_NAMES)
         then append_common item (join " " (short_bare name :: drop 2 fields))
         else Ok item
       else Ok item
     else Ok item)
    item.

(** [_convertItem(item["UniqueName"])]: [re.findall] takes a string only. *)
Definition convert_unique_name (item : gmap string value) : result ItemName :=
  uid ← getitem item "UniqueName";
  match uid with
  | VStr s => _convertItem s
  | _ => Raise TypeError
  end.

(** The body of the loop of [main], on one item of [rawData]. *)
Definition main_body (item : gmap string value) : result (gmap string value) :=
  let item := <["CommonNames" := VList []]> item in
  name ← convert_unique_name item;
  item ← _addTierNickname name item;
  item ← _replaceLongTierName name item;
  _replaceLongEnchantName name item.

(** [main], from the fetched [rawData] to the list that is dumped to
    [items.json]; an exception in the loop leaves nothing written. *)
Definition main (rawData : list (gmap string value))
    : result (list (gmap string value)) :=
  comprehension main_body rawData.

(** An identifier has the pattern [T<tier>_<NAME>] when a [T], a decimal
    digit, an underscore and a word character occur in a row in it. *)
Definition has_tier_pattern (s : string) : Prop :=
  ∃ pre d w post,
    s = pre +:+ String "T" (String d (String "_" (String w post)))
    ∧ isdecimal d = true ∧ isword w = true.

End CommonNames.

(** ** [FetchPrice.item_match] of [src/cogs/fetchprice.py] *)

Module FetchPrice.
Import Py.

Section item_match.

(** [dist w1 w2] is the value of
    [1 - difflib.SequenceMatcher(None, w1, w2).ratio()]. *)
Context (dist : string → string → Qc).

(** An entry [[jDist, i]] of [jDists]. *)
Definition entry : Type := Qc * nat.

(** The first [try] of the loop: the distance to the item ID. *)
Definition unique_name_step (w1 : string) (i : nat)
    (indivData : gmap string value) (jDists : list entry) : list entry :=
  try_bare
    (u ← getitem indivData "UniqueName";
     w2 ← str_lower u;
     Ok (jDists ++ [(dist w1 w2, i)]))
    (jDists ++ [(1%Qc, i)]).

(** [min(l)]: the first of the smallest elements. *)
Definition minimum (l : list Qc) : result Qc :=
  match l with
  | [] => Raise ValueError
  | x :: l' => Ok (foldl (λ m y, if decide (y < m)%Qc then y else m) x l')
  end.

(** The second [try]: the closest of the localized names. *)
Definition localized_names_step (w1 : string) (i : nat)
    (indivData : gmap string value) (jDists : list entry) : list entry :=
  try_bare
    (names ← getitem indivData "LocalizedNames";
     keys ← iter names;
     localDists ← for_each
       (λ localDists name,
          v ← subscript names name;
          w2 ← str_lower v;
          Ok (localDists ++ [dist w1 w2]))
       keys [];
     jDist ← minimum localDists;
     Ok (jDists ++ [(jDist, i)]))
    (jDists ++ [(1%Qc, i)]).

(** The loop over the common names, outside any [try]. *)
Definition common_names_step (w1 : string) (i : nat)
    (indivData : gmap string value) (jDists : list entry) : result (list entry) :=
  cnames ← getitem indivData "CommonNames";
  cnames ← iter cnames;
  for_each
    (λ jDists cname,
       w2 ← str_lower cname;
       Ok (jDists ++ [(dist w1 w2, i)]))
    cnames jDists.

(** [for (i, indivData) in enumerate(data)], from index [i] on. *)
Fixpoint scan (w1 : string) (i : nat) (data : list (gmap string value))
    (jDists : list entry) : result (list entry) :=
  match data with
  | [] => Ok jDists
  | indivData :: data' =>
      let jDists := unique_name_step w1 i indivData jDists in
      let jDists := localized_names_step w1 i indivData jDists in
      jDists ← common_names_step w1 i indivData jDists;
      scan w1 (S i) data' jDists
  end.

(** [a < b] on two-element lists [[jDist, i]]: the first components that
    differ decide. *)
Definition entry_lt (a b : entry) : bool :=
  if decide (a.1 = b.1) then (a.2 <? b.2)%nat else bool_decide (a.1 < b.1)%Qc.

(** [sorted(l)] is stable and compares with [<] only. *)
Fixpoint insort (x : entry) (l : list entry) : list entry :=
  match l with
  | [] => [x]
  | y :: l' => if entry_lt y x then y :: insort x l' else x :: y :: l'
  end.

Definition sorted (l : list entry) : list entry := foldr insort [] l.

(** [data[jDist[1]]["LocalizedNames"]["EN-US"]] *)
Definition entry_name (data : list (gmap string value)) (jDist : entry)
    : result value :=
  item ← index data (Z.of_nat jDist.2);
  names ← getitem item "LocalizedNames";
  subscript names (VStr "EN-US").

(** [data[jDist[1]]["UniqueName"]] *)
Definition entry_id (data : list (gmap string value)) (jDist : entry)
    : result value :=
  item ← index data (Z.of_nat jDist.2);
  getitem item "UniqueName".

(** [item_match], with [self.itemData] passed as [data]. *)
Definition item_match (data : list (gmap string value)) (inputWord : string)
    : result (list value * list value) :=
  jDists ← scan (lower inputWord) 0 data [];
  let jDists := sorted jDists in
  itemNames ← comprehension (entry_name data) (take 4 jDists);
  itemIDs ← comprehension (entry_id data) (take 4 jDists);
  Ok (itemNames, itemIDs).

End item_match.

(** A stand-in for [dist] to run the matcher with; the properties below
    hold for every [dist]. Equal strings are at distance 0, strings of
    equal length at 1/2, all others at 1. *)
Definition length_dist (w1 w2 : string) : Qc :=
  if decide (w1 = w2) then 0%Qc
  else if decide (String.length w1 = String.length w2) then Q2Qc (1 # 2)
  else 1%Qc.

End FetchPrice.

(** ** [FetchPrice.grabHistory] of [src/cogs/fetchprice.py]: the outlier
    filter *)

Module History.
Import Py.

Section reject_outliers.

(** The numbers of Python and what [reject_outliers] computes with them
    are left open: [median] is [statistics.median], [abs_diff i m] is
    [abs(i - m)], [truediv i mdev] is [i / mdev], [truthy mdev] is the
    truth value of [mdev], [lt_10 val] is [val < 10] and [zero] is the
    [int] 0. What raises in Python raises here. *)
Context {num : Type}.
Context (median : list num → result num).
Context (abs_diff : num → num → result num).
Context (truediv : num → num → result num).
Context (truthy : num → bool).
Context (lt_10 : num → bool).
Context (zero : num).

(** [enumerate(l)], counting from [i]. *)
Fixpoint enumerate_from {A} (i : nat) (l : list A) : list (nat * A) :=
  match l with
  | [] => []
  | x :: l' => (i, x) :: enumerate_from (S i) l'
  end.

(** [[i for (i, val) in pairs if val < m]] with [m = 10]. *)
Fixpoint kept_indices (pairs : list (nat * num)) : list nat :=
  match pairs with
  | [] => []
  | (i, val) :: pairs' =>
      if lt_10 val then i :: kept_indices pairs' else kept_indices pairs'
  end.

(** [[l[i] for i in indices]] *)
Definition pick {A} (l : list A) (indices : list nat) : result (list A) :=
  comprehension (λ i, index l (Z.of_nat i)) indices.

Definition reject_outliers (data : list num) : result (list num * list nat) :=
  d ← comprehension (λ i, m ← median data; abs_diff i m) data;
  mdev ← median d;
  s ← comprehension (λ i, if truthy mdev then truediv i mdev else Ok zero) d;
  let indices := kept_indices (enumerate_from 0 s) in
  newData ← pick data indices;
  Ok (newData, indices).

(** One pass of the loop "Reject outliers from prices data as well as
    their corresponding timestamps": the three lists of a city after the
    [try] block, whose bare [except] keeps what was assigned before the
    exception. *)
Definition reject_city {T C} (prices : list num) (timestamps : list T)
    (itemCounts : list C) : list num * list T * list C :=
  match reject_outliers prices with
  | Raise _ => (prices, timestamps, itemCounts)
  | Ok (newData, indices) =>
      match pick timestamps indices with
      | Raise _ => (newData, timestamps, itemCounts)
      | Ok timestamps' =>
          match pick itemCounts indices with
          | Raise _ => (newData, timestamps', itemCounts)
          | Ok itemCounts' => (newData, timestamps', itemCounts')
          end
      end
  end.

End reject_outliers.

End History.

(** ** [FetchPrice.grabHistory] of [src/cogs/fetchprice.py]: the series
    that are plotted *)

Module Series.
Import Py History.

(** [v == n] for an [int] literal [n]; a [bool] is an [int] in Python,
    so [True == 1] and [False == 0] hold. *)
Definition eq_int (v : value) (n : Z) : bool :=
  match v with
  | VNum z => bool_decide (z = n)
  | VBool b => bool_decide ((if b then 1 else 0) = n)
  | _ => false
  end.

(** [v == s] for a [str] literal [s]. *)
Definition eq_str (v : value) (s : string) : bool :=
  match v with
  | VStr t => bool_decide (t = s)
  | _ => false
  end.

(** The three lists of lists of [grabHistory], one inner list for each
    city; [T] is what a timestamp is, a JSON value at first and a
    [datetime] once parsed. *)
Record series (T : Type) := mkSeries {
  prices_minAll : list (list value);
  timestampsAll : list (list T);
  itemCountsAll : list (list value)
}.
Arguments mkSeries {T} _ _ _.
Arguments prices_minAll {T} _.
Arguments timestampsAll {T} _.
Arguments itemCountsAll {T} _.

Definition empty_series : series value :=
  mkSeries [[]; []; []; []; []; []; []; []; []; []]
           [[]; []; []; []; []; []; []; []; []; []]
           [[]; []; []; []; []; []; []; []; []; []].

(** The names tested by the [if]/[elif] chain on [price["location"]], in
    the order of the chain; the branch of the name at position [i] extends
    the lists at index [i]. *)
Definition LOCATIONS : list string :=
  ["Arthurs Rest"; "Black Market"; "Bridgewatch"; "Caerleon";
   "Fort Sterling"; "Lymhurst"; "Martlock"; "Merlyns Rest";
   "Morganas Rest"; "Thetford"].

(** The chain from the test on [names] at index [i] on: the index of the
    first branch whose test holds, if any. Every test evaluates
    [price["location"]]. *)
Fixpoint location_branch (i : nat) (names : list string) (price : value)
    : result (option nat) :=
  match names with
  | [] => Ok None
  | name :: names' =>
      location ← subscript price (VStr "location");
      if eq_str location name then Ok (Some i)
      else location_branch (S i) names' price
  end.

(** [price["data"][field]] *)
Definition data_field (price : value) (field : string) : result value :=
  data ← subscript price (VStr "data");
  subscript data (VStr field).

(** [table[i].extend(arg)]; a dict is walked as [iter] walks it. *)
Definition extend_at (table : list (list value)) (i : nat) (arg : result value)
    : result (list (list value)) :=
  l ← index table (Z.of_nat i);
  v ← arg;
  items ← iter v;
  Ok (<[i := l ++ items]> table).

(** The body of [for price in prices]. *)
Definition bucket (s : series value) (price : value) : result (series value) :=
  quality ← subscript price (VStr "quality");
  if eq_int quality 1 then
    branch ← location_branch 0 LOCATIONS price;
    match branch with
    | Some i =>
        p ← extend_at (prices_minAll s) i (data_field price "prices_avg");
        t ← extend_at (timestampsAll s) i (data_field price "timestamps");
        c ← extend_at (itemCountsAll s) i (data_field price "item_count");
        Ok (mkSeries p t c)
    | None => Ok s
    end
  else Ok s.

Section grabHistory.

(** [strptime v] is [DT.datetime.strptime(v, "%Y-%m-%dT%H:%M:%S")]; the
    arithmetic of [reject_outliers] is that of Python on what the JSON
    numbers of the response are. *)
Context {time : Type}.
Context (strptime : value → result time).
Context (median : list value → result value).
Context (abs_diff : value → value → result value).
Context (truediv : value → value → result value).
Context (truthy : value → bool).
Context (lt_10 : value → bool).

(** The loop "Parse datetime". *)
Definition parse_timestamps (s : series value) : result (series time) :=
  parsed ← comprehension (comprehension strptime) (timestampsAll s);
  Ok (mkSeries (prices_minAll s) parsed (itemCountsAll s)).

(** The body of the loop "Reject outliers from prices data as well as
    their corresponding timestamps", at index [i] where the list [prices]
    is found. The bare [except] keeps the assignments made before the
    exception. *)
Definition reject_at (s : series time) (i : nat) (prices : list value)
    : series time :=
  match reject_outliers median abs_diff truediv truthy lt_10 (VNum 0) prices with
  | Raise _ => s
  | Ok (newData, indices) =>
      let s1 := mkSeries (<[i := newData]> (prices_minAll s))
                         (timestampsAll s) (itemCountsAll s) in
      match timestamps ← index (timestampsAll s1) (Z.of_nat i);
            pick timestamps indices with
      | Raise _ => s1
      | Ok timestamps' =>
          let s2 := mkSeries (prices_minAll s1)
                             (<[i := timestamps']> (timestampsAll s1))
                             (itemCountsAll s1) in
          match itemCounts ← index (itemCountsAll s2) (Z.of_nat i);
                pick itemCounts indices with
          | Raise _ => s2
          | Ok itemCounts' =>
              mkSeries (prices_minAll s2) (timestampsAll s2)
                       (<[i := itemCounts']> (itemCountsAll s2))
          end
      end
  end.

(** [for (i, prices) in enumerate(prices_minAll)], from index [i] on;
    [n] bounds the number of passes left. *)
Fixpoint reject_from (n i : nat) (s : series time) : series time :=
  match n with
  | O => s
  | S n' =>
      match prices_minAll s !! i with
      | Some prices => reject_from n' (S i) (reject_at s i prices)
      | None => s
      end
  end.

Definition reject_all (s : series time) : series time :=
  reject_from (length (prices_minAll s)) 0 s.

(** What [grabHistory] plots, from [prices], the decoded response of the
    history API. *)
Definition grabHistory_series (prices : value) : result (series time) :=
  rows ← iter prices;
  s ← for_each bucket rows empty_series;
  s ← parse_timestamps s;
  Ok (reject_all s).

End grabHistory.

End Series.

(** ** [FetchPrice._createEmbed] of [src/cogs/fetchprice.py]: the fields
    of the embed *)

Module Embed.
Import Py Series.

(** What a call ends with: a value, an exception of [Py.exn], or the
    [UnboundLocalError] of a local variable read before any assignment. *)
Inductive outcome (A : Type) :=
  | Return (a : A)
  | Throw (e : exn)
  | UnboundLocalError.
Arguments Return {A} a.
Arguments Throw {A} e.
Arguments UnboundLocalError {A}.

#[global] Instance outcome_ret : MRet outcome := λ A a, Return a.
#[global] Instance outcome_bind : MBind outcome := λ A B f m,
  match m with
  | Return a => f a
  | Throw e => Throw e
  | UnboundLocalError => UnboundLocalError
  end.

Definition lift {A} (r : result A) : outcome A :=
  match r with Ok a => Return a | Raise e => Throw e end.

(** The string ["\n"]. *)
Definition NL : string := String (ascii_of_nat 10) "".

(** A call [em.add_field(name=..., value=..., inline=...)]. *)
Record embed_field := mkField {
  field_name : string;
  field_value : string;
  inline : bool
}.

(** The five lists filled by the loop over the rows of the response, and
    the local variable [locationString], which is unbound ([None]) until
    a row assigns it. *)
Record columns := mkColumns {
  timeStringAll : list string;
  timeStringAllBuy : list string;
  locationStringAll : list value;
  sellPriceMinStringAll : list value;
  buyPriceMaxStringAll : list value;
  locationString : option value
}.

Definition no_columns : columns := mkColumns [] [] [] [] [] None.

(** The six strings built by the second loop. *)
Record embedStrings := mkEmbedStrings {
  embedLocationString : string;
  embedPriceString : string;
  embedTimeString : string;
  embedPriceStringBuy : string;
  embedTimeStringBuy : string;
  embedLocationStringBuy : string
}.

Definition no_strings : embedStrings := mkEmbedStrings "" "" "" "" "" "".

(** [v + s] for a string [s]. *)
Definition add_str (v : value) (s : string) : result string :=
  match v with
  | VStr t => Ok (t +:+ s)
  | _ => Raise TypeError
  end.

(** The test "Skip if no data for entry"; [and] reads the buy price only
    when the sell price is 0. *)
Definition no_data (indivData : value) : result bool :=
  sell ← subscript indivData (VStr "sell_price_min");
  if eq_int sell 0 then
    buy ← subscript indivData (VStr "buy_price_max");
    Ok (eq_int buy 0)
  else Ok false.

(** The [if]/[elif] chain on [indivData["quality"]] inside the [try]:
    the string it assigns, [None] when no branch is taken. *)
Definition quality_label (indivData : value) : result (option value) :=
  quality ← subscript indivData (VStr "quality");
  if eq_int quality 0 || eq_int quality 1 then
    city ← subscript indivData (VStr "city"); Ok (Some city)
  else if eq_int quality 2 then
    city ← subscript indivData (VStr "city");
    label ← add_str city " (Good)"; Ok (Some (VStr label))
  else if eq_int quality 3 then
    city ← subscript indivData (VStr "city");
    label ← add_str city " (Oustanding)"; Ok (Some (VStr label))
  else if eq_int quality 4 then
    city ← subscript indivData (VStr "city");
    label ← add_str city " (Excellent)"; Ok (Some (VStr label))
  else if eq_int quality 5 then
    city ← subscript indivData (VStr "city");
    label ← add_str city " (Masterpiece)"; Ok (Some (VStr label))
  else Ok None.

(** The field added when the response is the empty list; its name is
    [f"\n{nodataString:-^60}\n"], NO DATA centred among 60 characters. *)
Definition dashes (n : nat) : string := String.concat "" (replicate n "-").

Definition no_data_field : embed_field :=
  mkField (NL +:+ dashes 26 +:+ "NO DATA" +:+ dashes 27 +:+ NL)
          "There are no data for this item." true.

(** The fields added "Only ... if there are prices to show". *)
Definition price_fields (e : embedStrings) : list embed_field :=
  (match embedPriceString e with
   | EmptyString => []
   | _ => [mkField "Locations" (embedLocationString e) true;
           mkField "Min Sell Price" (embedPriceString e) true;
           mkField "Last Updated" (embedTimeString e) true]
   end)
  ++ (match embedPriceStringBuy e with
      | EmptyString => []
      | _ => [mkField "Locations" (embedLocationStringBuy e) true;
              mkField "Max Buy Price" (embedPriceStringBuy e) true;
              mkField "Last Updated" (embedTimeStringBuy e) true]
      end).

Section createEmbed.

(** [strptime v] is [DT.datetime.strptime(v, "%Y-%m-%dT%H:%M:%S")];
    [elapsed i sell t] is [total_seconds(utcnow() - t)] at the reading of
    the clock made for the row of index [i], for its sell date ([true]) or
    its buy date ([false]); [str_round1 x] is [str(round(x, 1))],
    [str_round x] is [str(round(x))], [str v] is what [str] and an
    f-string make of a value, and [getTierEmojis] is the result of
    [emojis.getTierEmojis()]. *)
Context {time : Type}.
Context (strptime : value → result time).
Context (elapsed : nat → bool → time → Qc).
Context (str_round1 : Qc → string).
Context (str_round : Qc → string).
Context (str : value → string).
Context (getTierEmojis : result (list string)).

(** "How long ago is timestamp", as the text listed. *)
Definition ago_text (tdelta : Qc) : string :=
  if decide (Q2Qc 94608000 ≤ tdelta)%Qc then "NIL"
  else if decide (Q2Qc 3600 ≤ tdelta)%Qc then
    str_round1 (tdelta / Q2Qc 3600)%Qc +:+ " hours ago"
  else if decide (Q2Qc 60 ≤ tdelta)%Qc then
    str_round (tdelta / Q2Qc 60)%Qc +:+ " mins ago"
  else str_round tdelta +:+ " sec ago".

(** The text for the date under [key] of the row of index [i]. *)
Definition ago (i : nat) (sell : bool) (indivData : value) (key : string)
    : result string :=
  date ← subscript indivData (VStr key);
  timestamp ← strptime date;
  Ok (ago_text (elapsed i sell timestamp)).

(** The body of [for (i, indivData) in enumerate(data)]. *)
Definition row_pass (i : nat) (st : columns) (indivData : value) : outcome columns :=
  skip ← lift (no_data indivData);
  if skip : bool then Return st else
  timeString ← lift (ago i true indivData "sell_price_min_date");
  timeStringBuy ← lift (ago i false indivData "buy_price_max_date");
  bound ← match quality_label indivData with
          | Ok (Some label) => Return (Some label)
          | Ok None => Return (locationString st)
          | Raise _ =>
              city ← lift (subscript indivData (VStr "city"));
              Return (Some city)
          end;
  label ← match bound with
          | Some label => Return label
          | None => UnboundLocalError
          end;
  sell ← lift (subscript indivData (VStr "sell_price_min"));
  buy ← lift (subscript indivData (VStr "buy_price_max"));
  Return (mkColumns (timeStringAll st ++ [timeString])
                    (timeStringAllBuy st ++ [timeStringBuy])
                    (locationStringAll st ++ [label])
                    (sellPriceMinStringAll st ++ [sell])
                    (buyPriceMaxStringAll st ++ [buy])
                    bound).

Fixpoint rows_from (i : nat) (data : list value) (st : columns)
    : outcome columns :=
  match data with
  | [] => Return st
  | indivData :: data' => st' ← row_pass i st indivData; rows_from (S i) data' st'
  end.

(** The body of [for (i, locationString) in enumerate(locationStringAll)]. *)
Definition line_pass (st : columns) (i : nat) (locationString : value)
    (e : embedStrings) : result embedStrings :=
  sell ← index (sellPriceMinStringAll st) (Z.of_nat i);
  e1 ← (if negb (eq_int sell 0) then
          location ← add_str locationString NL;
          time ← index (timeStringAll st) (Z.of_nat i);
          Ok (mkEmbedStrings
                (embedLocationString e +:+ location)
                (embedPriceString e +:+ (str sell +:+ NL))
                (embedTimeString e +:+ (time +:+ NL))
                (embedPriceStringBuy e) (embedTimeStringBuy e)
                (embedLocationStringBuy e))
        else Ok e);
  buy ← index (buyPriceMaxStringAll st) (Z.of_nat i);
  if negb (eq_int buy 0) then
    location ← add_str locationString NL;
    time ← index (timeStringAllBuy st) (Z.of_nat i);
    Ok (mkEmbedStrings
          (embedLocationString e1) (embedPriceString e1) (embedTimeString e1)
          (embedPriceStringBuy e1 +:+ (str buy +:+ NL))
          (embedTimeStringBuy e1 +:+ (time +:+ NL))
          (embedLocationStringBuy e1 +:+ location))
  else Ok e1.

Fixpoint lines_from (st : columns) (i : nat) (labels : list value)
    (e : embedStrings) : result embedStrings :=
  match labels with
  | [] => Ok e
  | locationString :: labels' =>
      e' ← line_pass st i locationString e; lines_from st (S i) labels' e'
  end.

(** The field "Suggestions:", added when [altNames != []]. *)
Definition suggestions (altNames altIds : list value) : result (list embed_field) :=
  match altNames with
  | [] => Ok []
  | _ =>
      tierEmojis ← getTierEmojis;
      texts ← comprehension
                (λ i, emoji ← index tierEmojis (Z.of_nat i);
                      name ← index altNames (Z.of_nat i);
                      id ← index altIds (Z.of_nat i);
                      Ok (emoji +:+ " " +:+ str name +:+ " (" +:+ str id +:+ ")"))
                (seq 0 (length altNames));
      Ok [mkField "Suggestions:" (join NL texts) false]
  end.

(** The fields of the embed that [_createEmbed] returns, in the order of
    the calls of [add_field]; [data] is the decoded response of the prices
    API. *)
Definition createEmbed_fields (data : value) (altNames altIds : list value)
    : outcome (list embed_field) :=
  fields ← match data with
           | VList [] => Return [no_data_field]
           | _ =>
               rows ← lift (iter data);
               st ← rows_from 0 rows no_columns;
               e ← lift (lines_from st 0 (locationStringAll st) no_strings);
               Return (price_fields e)
           end;
  suggested ← lift (suggestions altNames altIds);
  Return (fields ++ suggested).

(** The part of the command [prices] from the search of the item to the
    embed: [dist] is the distance that [item_match] ranks with, and
    [fetch itemId] is the decoded response of the prices API to the
    request that [_createEmbed] makes for [itemId]. *)
Context (dist : string → string → Qc).
Context (fetch : value → result value).

Definition prices_embed (itemData : list (gmap string value)) (item : string)
    : outcome (list embed_field) :=
  '(itemNames, itemIDs) ← lift (FetchPrice.item_match dist itemData item);
  itemName ← lift (index itemNames 0);
  itemId ← lift (index itemIDs 0);
  data ← lift (fetch itemId);
  createEmbed_fields data (drop 1 itemNames) (drop 1 itemIDs).

End createEmbed.

(** [sub in s] on strings. *)
Fixpoint contains (sub s : string) : bool :=
  String.prefix sub s
  || match s with
     | EmptyString => false
     | String _ s' => contains sub s'
     end.

(** The test of [prices] on [content], the text of the message: whether
    the command is the quick one, which sends no plot. *)
Definition quick (content : string) : bool :=
  let command := split content in
  existsb (λ c, contains "quick" (lower c)) (take 2 command).

End Embed.

Import Py CommonNames FetchPrice History.
Import Series Embed.

(** A boolean reading of [has_tier_pattern], for running it on a string. *)
Definition tier_pattern_at (s : string) : bool :=
  match s with
  | String t (String d (String u (String w _))) =>
      bool_decide (t = "T"%char) && isdecimal d
      && bool_decide (u = "_"%char) && isword w
  | _ => false
  end.

Fixpoint tier_pattern_in (s : string) : bool :=
  match s with
  | EmptyString => false
  | String _ s' => tier_pattern_at s || tier_pattern_in s'
  end.

(** The groups of a match: one decimal digit for the tier, and for the
    enchantment one decimal digit or nothing. *)
Definition groups_ok (g : string * string * string) : Prop :=
  ∃ d n e, g = (String d "", n, e) ∧ isdecimal d = true ∧
    (e = "" ∨ ∃ c, e = String c "" ∧ isdecimal c = true).

(** What the three rules of [main] append for a parsed identifier, read
    off the specification: the shorthand of the identifier, then the
    EN-US name with its leading tier adjective replaced, then the EN-US
    name with its leading enchantment word replaced, with and without
    the resource word that follows. [fields] are the words of the EN-US
    name. *)
Definition shorthand_aliases (name : ItemName) : list string :=
  (short_dotted name +:+ " " +:+ CommonNames.name name)
  :: (if enchant name =? 0
      then [short_bare name +:+ " " +:+ CommonNames.name name] else []).

Definition tier_rule_aliases (name : ItemName) (fields : list string)
    : list string :=
  match fields with
  | first :: rest =>
      if bool_decide (first ∈ TIER_LONG_NAMES) then
        join " " (short_dotted name :: rest)
        :: (if enchant name =? 0
            then [join " " (short_bare name :: rest)] else [])
      else []
  | [] => []
  end.

Definition enchant_variants (short second : string) (rest : list string)
    : list string :=
  join " " (short :: second :: rest)
  :: (if bool_decide (second ∈ RESOURCE_NAMES)
      then [join " " (short :: rest)] else []).

Definition enchant_rule_aliases (name : ItemName) (fields : list string)
    : list string :=
  match fields with
  | first :: second :: rest =>
      if bool_decide (first ∈ ENC_LONG_NAMES) then
        enchant_variants (short_dotted name) second rest
        ++ (if enchant name =? 0
            then enchant_variants (short_bare name) second rest else [])
      else []
  | _ => []
  end.

(** The aliases of an item, or the exception that ends [main]: the word
    list of the EN-US name is indexed without a check, at 0 by both
    substitution rules and at 1 by the enchantment rule. *)
Definition generated_aliases (name : ItemName) (item : gmap string value)
    : result (list string) :=
  match long_name_fields item with
  | Raise TypeError => Ok (shorthand_aliases name)
  | Raise e => Raise e
  | Ok [] => Raise IndexError
  | Ok [first] =>
      if bool_decide (first ∈ ENC_LONG_NAMES) then Raise IndexError
      else Ok (shorthand_aliases name ++ tier_rule_aliases name [first])
  | Ok fields =>
      Ok (shorthand_aliases name ++ tier_rule_aliases name fields
          ++ enchant_rule_aliases name fields)
  end.

(** The flat candidate list as the specification describes it. *)
Section Candidates.

Context (dist : string → string → Qc).

(** The distance to the item ID, 1 without one. *)
Definition id_dist (w1 : string) (item : gmap string value) : Qc :=
  match item !! "UniqueName" with
  | Some (VStr uid) => dist w1 (lower uid)
  | _ => 1%Qc
  end.

(** What the second [try] of the loop computes, or 1 when it raises. *)
Definition name_dist (w1 : string) (item : gmap string value) : Qc :=
  try_bare
    (names ← getitem item "LocalizedNames";
     keys ← iter names;
     localDists ← for_each
       (λ localDists name,
          v ← subscript names name;
          w2 ← str_lower v;
          Ok (localDists ++ [dist w1 w2]))
       keys [];
     minimum localDists)
    1%Qc.

(** The common names of an enriched item. *)
Definition common_names (item : gmap string value) : list string :=
  match item !! "CommonNames" with
  | Some (VList l) =>
      (λ v, match v with VStr s => s | _ => "" end) <$> l
  | _ => []
  end.

(** The candidates of the item at index [i]: one for the ID, one for
    the closest localized name, one for each common name. *)
Definition item_entries (w1 : string) (i : nat) (item : gmap string value)
    : list entry :=
  (id_dist w1 item, i) :: (name_dist w1 item, i)
  :: ((λ cname, (dist w1 (lower cname), i)) <$> common_names item).

Fixpoint flat_entries (w1 : string) (i : nat) (data : list (gmap string value))
    : list entry :=
  match data with
  | [] => []
  | item :: data' => item_entries w1 i item ++ flat_entries w1 (S i) data'
  end.

End Candidates.

(** Ascending by distance, ties by ascending item index. *)
Definition entry_le (a b : entry) : Prop :=
  (a.1 < b.1)%Qc ∨ (a.1 = b.1 ∧ (a.2 ≤ b.2)%nat).

(** An item as [main] leaves it: [CommonNames] is a list of strings. *)
Definition enriched (item : gmap string value) : Prop :=
  ∃ cnames : list string, item !! "CommonNames" = Some (VList (VStr <$> cnames)).

(** An item that [item_match] can show: it has an ID and an EN-US name. *)
Definition displayable (item : gmap string value) : Prop :=
  ∃ names name uid,
    item !! "LocalizedNames" = Some (VDict names)
    ∧ names !! "EN-US" = Some name
    ∧ item !! "UniqueName" = Some uid.

(** A string of word characters only. *)
Fixpoint all_word (s : string) : bool :=
  match s with
  | EmptyString => true
  | String c s' => isword c && all_word s'
  end.

(** The elements of [l] whose companion in [s] is below 10: what the
    outlier filter keeps of a list, given the scaled deviations [s]. *)
Fixpoint keep {num A} (lt_10 : num → bool) (s : list num) (l : list A) : list A :=
  match s, l with
  | val :: s', x :: l' =>
      if lt_10 val then x :: keep lt_10 s' l' else keep lt_10 s' l'
  | _, _ => []
  end.

(** Exact rational arithmetic, to run [reject_outliers] with. *)
Fixpoint Qc_insert (x : Qc) (l : list Qc) : list Qc :=
  match l with
  | [] => [x]
  | y :: l' => if decide (x ≤ y)%Qc then x :: l else y :: Qc_insert x l'
  end.

Definition Qc_median (l : list Qc) : result Qc :=
  let sorted := foldr Qc_insert [] l in
  let n := length l in
  match sorted !! (n / 2)%nat with
  | None => Raise ValueError
  | Some hi =>
      if Nat.even n then
        match sorted !! (n / 2 - 1)%nat with
        | Some lo => Ok ((lo + hi) / Q2Qc 2)%Qc
        | None => Raise ValueError
        end
      else Ok hi
  end.

Definition Qc_abs_diff (i m : Qc) : result Qc :=
  Ok (if decide (i - m < 0)%Qc then m - i else i - m)%Qc.

Definition Qc_truediv (i mdev : Qc) : result Qc := Ok (i / mdev)%Qc.

Definition Qc_truthy (x : Qc) : bool := negb (bool_decide (x = 0%Qc)).

Definition Qc_lt_10 (x : Qc) : bool := bool_decide (x < Q2Qc 10)%Qc.

Definition Qc_reject_outliers : list Qc → result (list Qc * list nat) :=
  reject_outliers Qc_median Qc_abs_diff Qc_truediv Qc_truthy Qc_lt_10 0%Qc.

(** ** Items to run the code on *)

(** A well-formed raw item. *)
Definition adepts_bag : gmap string value :=
  {[ "UniqueName" := VStr "T4_BAG@1";
     "LocalizedNames" := VDict {[ "EN-US" := VStr "Adept's Bag" ]} ]}.

(** The same item as [main] leaves it. *)
Definition enriched_bag : gmap string value :=
  <["CommonNames" := VList [VStr "T4.1 BAG"; VStr "T4.1 Bag"]]> adepts_bag.

(** A second well-formed enriched item. *)
Definition experts_bag : gmap string value :=
  {[ "UniqueName" := VStr "T5_BAG";
     "LocalizedNames" := VDict {[ "EN-US" := VStr "Expert's Bag" ]};
     "CommonNames" := VList [VStr "T5.0 BAG"; VStr "T5 BAG";
                             VStr "T5.0 Bag"; VStr "T5 Bag"] ]}.

(** An enriched item whose [LocalizedNames] is [null]. *)
Definition nameless_item : gmap string value :=
  {[ "UniqueName" := VStr "T4_SKILLBOOK";
     "LocalizedNames" := VNull;
     "CommonNames" := VList [VStr "T4.0 SKILLBOOK"; VStr "T4 SKILLBOOK"] ]}.

(** An enriched item without the EN-US entry, and one without an ID. *)
Definition untranslated_item : gmap string value :=
  {[ "UniqueName" := VStr "T4_BAG";
     "LocalizedNames" := VDict {[ "DE-DE" := VStr "Tasche des Adepten" ]};
     "CommonNames" := VList [VStr "T4.0 BAG"; VStr "T4 BAG"] ]}.

Definition anonymous_item : gmap string value :=
  {[ "LocalizedNames" := VDict {[ "EN-US" := VStr "Adept's Bag" ]};
     "CommonNames" := VList [] ]}.

(** A raw item whose [LocalizedNames] is [null], and one whose EN-US
    name starts with a word that no rule replaces. *)
Definition raw_skillbook : gmap string value :=
  {[ "UniqueName" := VStr "T4_SKILLBOOK"; "LocalizedNames" := VNull ]}.

Definition novices_bag : gmap string value :=
  {[ "UniqueName" := VStr "T2_BAG";
     "LocalizedNames" := VDict {[ "EN-US" := VStr "Novice's Bag" ]} ]}.

(** An item whose EN-US name is the one word ["Rare"]. *)
Definition rare_item : gmap string value :=
  {[ "UniqueName" := VStr "T4_ROCK_LEVEL2@2";
     "LocalizedNames" := VDict {[ "EN-US" := VStr "Rare" ]} ]}.

(** Items without usable localized-name data: no [LocalizedNames] key, a
    map without the EN-US entry, an empty EN-US name, a blank one. *)
Definition no_names_item : gmap string value :=
  {[ "UniqueName" := VStr "T4_BAG" ]}.

Definition no_locale_item : gmap string value :=
  {[ "UniqueName" := VStr "T4_BAG";
     "LocalizedNames" := VDict {[ "DE-DE" := VStr "Tasche des Adepten" ]} ]}.

Definition empty_name_item : gmap string value :=
  {[ "UniqueName" := VStr "T4_BAG";
     "LocalizedNames" := VDict {[ "EN-US" := VStr "" ]} ]}.

Definition blank_name_item : gmap string value :=
  {[ "UniqueName" := VStr "T4_BAG";
     "LocalizedNames" := VDict {[ "EN-US" := VStr "  " ]} ]}.

(** ** The rows of the history API, city by city *)

(** A row that the chain of [grabHistory] files under the city [name]. *)
Definition selected (name : string) (price : value) : bool :=
  match subscript price (VStr "quality"), subscript price (VStr "location") with
  | Ok quality, Ok location => eq_int quality 1 && eq_str location name
  | _, _ => false
  end.

(** The items of [price["data"][field]], none when there is no such
    thing to iterate over. *)
Definition field_items (field : string) (price : value) : list value :=
  match data_field price field ≫= iter with
  | Ok items => items
  | Raise _ => []
  end.

(** The items of a field over the rows of a city, in the order of the
    rows. *)
Definition city_field (field name : string) (rows : list value) : list value :=
  concat (field_items field <$> filter (λ price, selected name price = true) rows).

(** A row that the loop of [grabHistory] passes without exception. *)
Definition row_ok (price : value) : Prop :=
  ∃ quality,
    subscript price (VStr "quality") = Ok quality
    ∧ (eq_int quality 1 = true →
       ∃ location, subscript price (VStr "location") = Ok location)
    ∧ ∀ name, name ∈ LOCATIONS → selected name price = true →
        ∀ field, field ∈ ["prices_avg"; "timestamps"; "item_count"] →
          ∃ items, data_field price field ≫= iter = Ok items.

(** What a row adds to the lists of the city [name]. *)
Definition row_items (field name : string) (price : value) : list value :=
  if selected name price then field_items field price else [].

(** The three lists keep one inner list for each of the ten cities. *)
Definition ten_cities {T} (s : series T) : Prop :=
  length (prices_minAll s) = 10%nat
  ∧ length (timestampsAll s) = 10%nat
  ∧ length (itemCountsAll s) = 10%nat.

(** The three lists of the city at index [k]. *)
Definition city_lists {T} (s : series T) (k : nat)
    : option (list value * list T * list value) :=
  p ← prices_minAll s !! k;
  t ← timestampsAll s !! k;
  c ← itemCountsAll s !! k;
  Some (p, t, c).

(** What the loop "Reject outliers" leaves of the lists of a city. *)
Definition filtered {T C} (median : list value → result value)
    (abs_diff truediv : value → value → result value)
    (truthy lt_10 : value → bool) (city : list value * list T * list C)
    : list value * list T * list C :=
  let '(p, t, c) := city in
  reject_city median abs_diff truediv truthy lt_10 (VNum 0) p t c.

(** A row none of whose three arrays is a JSON object, so that the order
    in which its items are filed is that of the response. *)
Definition is_dict (v : value) : bool :=
  match v with VDict _ => true | _ => false end.

Definition in_sequence (price : value) : bool :=
  forallb (λ field, match data_field price field with
                    | Ok v => negb (is_dict v)
                    | Raise _ => true
                    end)
          ["prices_avg"; "timestamps"; "item_count"].

(** A row whose three arrays have the same length. *)
Definition aligned (price : value) : Prop :=
  length (field_items "timestamps" price) = length (field_items "prices_avg" price)
  ∧ length (field_items "item_count" price) = length (field_items "prices_avg" price).

(** Arithmetic on JSON integers, to run [grabHistory] with. It is exact
    where the result is an integer again, and raises where it is not. *)
Definition as_int (v : value) : result Z :=
  match v with
  | VNum z => Ok z
  | VBool b => Ok (if b then 1 else 0)
  | _ => Raise TypeError
  end.

Definition exact_quotient (a b : Z) : result value :=
  if (b =? 0) || negb (a mod b =? 0) then Raise ValueError
  else Ok (VNum (a / b)).

Fixpoint Z_insert (x : Z) (l : list Z) : list Z :=
  match l with
  | [] => [x]
  | y :: l' => if x <=? y then x :: l else y :: Z_insert x l'
  end.

Definition int_median (l : list value) : result value :=
  zs ← comprehension as_int l;
  let sorted := foldr Z_insert [] zs in
  let n := length zs in
  match sorted !! (n / 2)%nat with
  | None => Raise ValueError
  | Some hi =>
      if Nat.even n then
        match sorted !! (n / 2 - 1)%nat with
        | Some lo => exact_quotient (lo + hi) 2
        | None => Raise ValueError
        end
      else Ok (VNum hi)
  end.

Definition int_abs_diff (i m : value) : result value :=
  a ← as_int i; b ← as_int m; Ok (VNum (Z.abs (a - b))).

Definition int_truediv (i mdev : value) : result value :=
  a ← as_int i; b ← as_int mdev; exact_quotient a b.

Definition int_truthy (v : value) : bool :=
  match as_int v with Ok z => negb (bool_decide (z = 0)) | Raise _ => true end.

Definition int_lt_10 (v : value) : bool :=
  match as_int v with Ok z => bool_decide (z < 10) | Raise _ => false end.

(** A stand-in for [strptime]: the string itself. *)
Definition str_time (v : value) : result string :=
  match v with VStr s => Ok s | _ => Raise TypeError end.

(** ** Responses of the history API to run the code on *)

Definition history_row (location : string) (quality : Z)
    (prices_avg timestamps item_count : list value) : value :=
  VDict {[ "location" := VStr location;
           "quality" := VNum quality;
           "data" := VDict {[ "prices_avg" := VList prices_avg;
                              "timestamps" := VList timestamps;
                              "item_count" := VList item_count ]} ]}.

Definition caerleon_row : value :=
  history_row "Caerleon" 1
    [VNum 100; VNum 102; VNum 5000; VNum 101; VNum 99]
    [VStr "mon"; VStr "tue"; VStr "wed"; VStr "thu"; VStr "fri"]
    [VNum 7; VNum 8; VNum 1; VNum 9; VNum 6].

Definition good_quality_row : value :=
  history_row "Caerleon" 2 [VNum 900] [VStr "mon"] [VNum 2].

Definition thetford_row : value :=
  history_row "Thetford" 1 [VNum 50] [VStr "sat"] [VNum 3].

Definition history_response : value :=
  VList [caerleon_row; good_quality_row; thetford_row].

(** ** The rows of the prices API, as the embed shows them *)

(** [indivData[key]], [None] where there is no such thing. *)
Definition price_of (key : string) (indivData : value) : value :=
  match subscript indivData (VStr key) with
  | Ok v => v
  | Raise _ => VNull
  end.

(** What is put beside the city for a quality. *)
Definition quality_suffix (quality : value) : string :=
  if eq_int quality 2 then " (Good)"
  else if eq_int quality 3 then " (Oustanding)"
  else if eq_int quality 4 then " (Excellent)"
  else if eq_int quality 5 then " (Masterpiece)"
  else "".

(** The location listed for a row: its city and its quality. *)
Definition label_of (indivData : value) : string :=
  match subscript indivData (VStr "city") with
  | Ok (VStr city) =>
      match subscript indivData (VStr "quality") with
      | Ok quality => city +:+ quality_suffix quality
      | Raise _ => city
      end
  | _ => ""
  end.

(** A quality that one of the branches of the chain is for. *)
Definition known_quality (quality : value) : bool :=
  eq_int quality 0 || eq_int quality 1 || eq_int quality 2
  || eq_int quality 3 || eq_int quality 4 || eq_int quality 5.

(** A row that the first loop does not skip. *)
Definition has_data (indivData : value) : bool :=
  match no_data indivData with
  | Ok true => false
  | _ => true
  end.

(** Lines of text, each closed by a newline. *)
Fixpoint lines (l : list string) : string :=
  match l with
  | [] => ""
  | s :: l' => s +:+ NL +:+ lines l'
  end.

(** A row with data, as it is listed. *)
Record listed := mkListed {
  listed_label : string;
  listed_sell : value;
  listed_buy : value;
  listed_time : string;
  listed_timeBuy : string
}.

(** The rows with a sell price, and those with a buy price. *)
Definition with_sell (rows : list listed) : list listed :=
  filter (λ r, eq_int (listed_sell r) 0 = false) rows.

Definition with_buy (rows : list listed) : list listed :=
  filter (λ r, eq_int (listed_buy r) 0 = false) rows.

Section Listed.

Context {time : Type}.
Context (strptime : value → result time).
Context (elapsed : nat → bool → time → Qc).
Context (str_round1 : Qc → string).
Context (str_round : Qc → string).
Context (str : value → string).

(** A row that [_createEmbed] can show: it has both prices, both dates
    can be parsed, its city is a string, and its quality, if it has one,
    is one of 0 to 5. *)
Definition well_formed (indivData : value) : Prop :=
  ∃ sell buy sell_date buy_date city t_sell t_buy,
    subscript indivData (VStr "sell_price_min") = Ok sell
    ∧ subscript indivData (VStr "buy_price_max") = Ok buy
    ∧ subscript indivData (VStr "sell_price_min_date") = Ok sell_date
    ∧ strptime sell_date = Ok t_sell
    ∧ subscript indivData (VStr "buy_price_max_date") = Ok buy_date
    ∧ strptime buy_date = Ok t_buy
    ∧ subscript indivData (VStr "city") = Ok (VStr city)
    ∧ ∀ quality, subscript indivData (VStr "quality") = Ok quality →
        known_quality quality = true.

(** The text for a date of a row, empty where there is none. *)
Definition ago_of (i : nat) (sell : bool) (indivData : value) (key : string)
    : string :=
  match ago strptime elapsed str_round1 str_round i sell indivData key with
  | Ok text => text
  | Raise _ => ""
  end.

Definition listed_row (row : nat * value) : listed :=
  mkListed (label_of row.2)
          (price_of "sell_price_min" row.2)
          (price_of "buy_price_max" row.2)
          (ago_of row.1 true row.2 "sell_price_min_date")
          (ago_of row.1 false row.2 "buy_price_max_date").

(** The rows with data, in the order of the response. *)
Definition listed_rows (i : nat) (data : list value) : list listed :=
  listed_row <$> filter (λ row, has_data row.2 = true) (enumerate_from i data).

(** The fields for the rows with data: on each side, the rows with a
    price on that side, one line for each row in each column. *)
Definition fields_of (rows : list listed) : list embed_field :=
  let sells := with_sell rows in
  let buys := with_buy rows in
  (match sells with
   | [] => []
   | _ => [mkField "Locations" (lines (listed_label <$> sells)) true;
           mkField "Min Sell Price" (lines (str ∘ listed_sell <$> sells)) true;
           mkField "Last Updated" (lines (listed_time <$> sells)) true]
   end)
  ++ (match buys with
      | [] => []
      | _ => [mkField "Locations" (lines (listed_label <$> buys)) true;
              mkField "Max Buy Price" (lines (str ∘ listed_buy <$> buys)) true;
              mkField "Last Updated" (lines (listed_timeBuy <$> buys)) true]
      end).

End Listed.

(** The lists of the first loop with the rows [rows] added to them. *)
Definition add_rows (st : columns) (rows : list listed) : columns :=
  mkColumns (timeStringAll st ++ (listed_time <$> rows))
            (timeStringAllBuy st ++ (listed_timeBuy <$> rows))
            (locationStringAll st ++ (VStr ∘ listed_label <$> rows))
            (sellPriceMinStringAll st ++ (listed_sell <$> rows))
            (buyPriceMaxStringAll st ++ (listed_buy <$> rows))
            (match list.last rows with
             | Some row => Some (VStr (listed_label row))
             | None => locationString st
             end).

(** ** Stand-ins to run [_createEmbed] with *)

(** [round] of Python on a rational: to the nearest integer, a half to
    the even one. *)
Definition round_half_even (x : Qc) : Z :=
  let n := Qnum x in
  let d := Z.pos (Qden x) in
  let f := n / d in
  let r := n mod d in
  if 2 * r <? d then f
  else if d <? 2 * r then f + 1
  else if Z.even f then f else f + 1.

Definition sample_str_round (x : Qc) : string := pretty (round_half_even x).

(** One decimal, for what is not negative. *)
Definition sample_str_round1 (x : Qc) : string :=
  let n := round_half_even (x * Q2Qc 10)%Qc in
  pretty (n / 10) +:+ "." +:+ pretty (n mod 10).

(** [str] on the values that the API puts in a row; a list or a dict is
    abridged. *)
Definition sample_str (v : value) : string :=
  match v with
  | VNull => "None"
  | VBool true => "True"
  | VBool false => "False"
  | VNum z => pretty z
  | VStr s => s
  | _ => "..."
  end.

(** The date that the API gives for a price it never saw is taken to be
    ages ago, every other date an hour and a half ago. *)
Definition sample_elapsed (i : nat) (sell : bool) (t : string) : Qc :=
  if bool_decide (t = "0001-01-01T00:00:00") then Q2Qc 63000000000
  else Q2Qc 5400.

Definition sample_emojis : result (list string) :=
  Ok ["(1)"; "(2)"; "(3)"; "(4)"; "(5)"; "(6)"; "(7)"; "(8)"].

Definition sample_fields : value → list value → list value → outcome (list embed_field) :=
  createEmbed_fields str_time sample_elapsed sample_str_round1
    sample_str_round sample_str sample_emojis.

(** ** Rows of the prices API to run the code on *)

Definition price_row (city : string) (quality sell buy : Z)
    (sell_date buy_date : string) : value :=
  VDict {[ "city" := VStr city;
           "quality" := VNum quality;
           "sell_price_min" := VNum sell;
           "sell_price_min_date" := VStr sell_date;
           "buy_price_max" := VNum buy;
           "buy_price_max_date" := VStr buy_date ]}.

Definition caerleon_good : value :=
  price_row "Caerleon" 2 1200 0 "2020-05-01T10:00:00" "0001-01-01T00:00:00".

Definition martlock_empty : value :=
  price_row "Martlock" 1 0 0 "0001-01-01T00:00:00" "0001-01-01T00:00:00".

Definition lymhurst_normal : value :=
  price_row "Lymhurst" 1 1500 1100 "2020-05-01T10:00:00" "2020-05-01T09:00:00".

Definition thetford_odd : value :=
  price_row "Thetford" 6 900 0 "2020-05-01T10:00:00" "0001-01-01T00:00:00".

(** A string without whitespace. *)
Fixpoint no_space (s : string) : bool :=
  match s with
  | EmptyString => true
  | String c s' => negb (isspace c) && no_space s'
  end.

(** What the loop of [main] raises on a raw item, read off the item:
    nothing ([None]) for an item that it can enrich. *)
Definition raised_on (item : gmap string value) : option exn :=
  match item !! "UniqueName" with
  | None => Some KeyError
  | Some (VStr _) =>
      match item !! "LocalizedNames" with
      | None => Some KeyError
      | Some (VDict names) =>
          match names !! "EN-US" with
          | None => Some KeyError
          | Some (VStr longName) =>
              match split longName with
              | [] => Some IndexError
              | [first] =>
                  if bool_decide (first ∈ ENC_LONG_NAMES)
                  then Some IndexError else None
              | _ => None
              end
          | Some _ => Some AttributeError
          end
      | Some _ => None
      end
  | Some _ => Some TypeError
  end.

(** * Properties *)

(** ** The Python run time *)

Ltac ascii_cases c := destruct c as [[] [] [] [] [] [] [] []].

Section PyFacts.

Lemma index_of_nat {A} (l : list A) (i : nat) :
  index l (Z.of_nat i) =
    match l !! i with Some x => Ok x | None => Raise IndexError end.
Proof.
  unfold index.
  destruct (Z.ltb_spec (Z.of_nat i) 0) as [Hneg|_]; [lia|].
  destruct (l !! i) as [x|] eqn:Hl.
  - apply lookup_lt_Some in Hl as Hlt.
    replace (0 <=? Z.of_nat i) with true by (symmetry; apply Z.leb_le; lia).
    replace (Z.of_nat i <? Z.of_nat (length l)) with true
      by (symmetry; apply Z.ltb_lt; lia).
    simpl. by rewrite Nat2Z.id, Hl.
  - apply lookup_ge_None in Hl.
    replace (Z.of_nat i <? Z.of_nat (length l)) with false
      by (symmetry; apply Z.ltb_ge; lia).
    by rewrite andb_false_r.
Qed.

Lemma index_head {A} (x : A) (l : list A) : index (x :: l) 0 = Ok x.
Proof. apply (index_of_nat (x :: l) 0). Qed.

Lemma index_second {A} (x y : A) (l : list A) : index (x :: y :: l) 1 = Ok y.
Proof. apply (index_of_nat (x :: y :: l) 1). Qed.

Lemma index_nil {A} (k : Z) : index (@nil A) k = Raise IndexError.
Proof.
  unfold index. simpl. by destruct (_ && _).
Qed.

Lemma index_singleton_1 {A} (x : A) : index [x] 1 = Raise IndexError.
Proof. reflexivity. Qed.

(** [int] raises nothing but [ValueError]. *)
Lemma int_raises s e : int s = Raise e → e = ValueError.
Proof. unfold int. destruct (match strip s with "" => _ | _ => _ end); congruence. Qed.

(** [int] of one decimal digit is that digit. *)
Lemma int_decimal d :
  isdecimal d = true → ∃ n, int (String d "") = Ok n ∧ 0 ≤ n ≤ 9.
Proof.
  intros Hd. ascii_cases d; try discriminate Hd;
    (eexists; split; [vm_compute; reflexivity | lia]).
Qed.

Lemma int_empty : int "" = Raise ValueError.
Proof. reflexivity. Qed.

End PyFacts.

(** ** The identifier parser *)

Section ParserFacts.

Lemma word_run_head s w r :
  word_run s = (w, r) → w ≠ "" → ∃ c s', s = String c s' ∧ isword c = true.
Proof.
  destruct s as [|c s']; simpl.
  - intros [= <- <-]. done.
  - destruct (isword c) eqn:Hc.
    + eauto.
    + intros [= <- <-]. done.
Qed.

(** An anchored match starts with the pattern, is not empty, and its
    tier and enchantment groups hold at most one decimal digit. *)
Lemma TIER_REGEX_match_Some s g len :
  TIER_REGEX_match s = Some (g, len) →
  tier_pattern_at s = true ∧ (0 < len)%nat ∧
  ∃ d n e, g = (String d "", n, e) ∧ isdecimal d = true ∧
    (e = "" ∨ ∃ c, e = String c "" ∧ isdecimal c = true).
Proof.
  destruct s as [|t s]; [done|].
  ascii_cases t; try (simpl; discriminate).
  destruct s as [|d s]; [done|].
  destruct s as [|u r]; [done|].
  ascii_cases u; try (simpl; discriminate).
  simpl. destruct (isdecimal d) eqn:Hd; [|done].
  destruct (word_run r) as [w r'] eqn:Hrun.
  destruct w as [|c w]; [done|].
  destruct (word_run_head r _ _ Hrun) as (c' & r0 & -> & Hc'); [done|].
  intros Hm.
  destruct r' as [|a r']; [injection Hm as <- <-; split_and!; eauto 10 with lia|].
  ascii_cases a; try (injection Hm as <- <-; split_and!; eauto 10 with lia).
  destruct r' as [|e r']; [injection Hm as <- <-; split_and!; eauto 10 with lia|].
  destruct (isdecimal e) eqn:He; injection Hm as <- <-; split_and!; eauto 10 with lia.
Qed.

Lemma findall_from_cons k c s :
  findall_from k (String c s) =
    match k with
    | S k' => findall_from k' s
    | O =>
        match TIER_REGEX_match (String c s) with
        | Some (g, len) => g :: findall_from (len - 1) s
        | None => findall_from 0 s
        end
    end.
Proof. reflexivity. Qed.

Lemma findall_from_groups k s : Forall groups_ok (findall_from k s).
Proof.
  revert k. induction s as [|c s IH]; intros k; [constructor|].
  rewrite findall_from_cons. destruct k as [|k]; [|apply IH].
  destruct (TIER_REGEX_match (String c s)) as [[g len]|] eqn:Hm; [|apply IH].
  constructor; [|apply IH].
  by apply TIER_REGEX_match_Some in Hm as (_ & _ & Hg).
Qed.

Lemma findall_from_no_pattern k s :
  tier_pattern_in s = false → findall_from k s = [].
Proof.
  revert k. induction s as [|c s IH]; intros k Hno; [done|].
  change (tier_pattern_at (String c s) || tier_pattern_in s = false) in Hno.
  apply orb_false_elim in Hno as [Hat Hin].
  rewrite findall_from_cons. destruct k as [|k]; [|by apply IH].
  destruct (TIER_REGEX_match (String c s)) as [[g len]|] eqn:Hm; [|by apply IH].
  apply TIER_REGEX_match_Some in Hm as (Hat' & _). congruence.
Qed.

(** The boolean scan decides [has_tier_pattern]. *)
Lemma tier_pattern_in_spec s :
  tier_pattern_in s = true ↔ has_tier_pattern s.
Proof.
  split.
  - induction s as [|c s IH]; [done|].
    change (tier_pattern_at (String c s) || tier_pattern_in s = true → has_tier_pattern (String c s)).
    intros [Hat|Hin]%orb_true_iff.
    + destruct s as [|d [|u [|w post]]]; try done.
      simpl in Hat.
      apply andb_true_iff in Hat as [Hat Hw].
      apply andb_true_iff in Hat as [Hat Hu].
      apply andb_true_iff in Hat as [Ht Hd].
      apply bool_decide_eq_true in Ht as ->, Hu as ->.
      by exists "", d, w, post.
    + destruct (IH Hin) as (pre & d & w & post & -> & Hd & Hw).
      by exists (String c pre), d, w, post.
  - intros (pre & d & w & post & -> & Hd & Hw).
    induction pre as [|c pre IH].
    + simpl. by rewrite Hd, Hw.
    + change (tier_pattern_at (String c (pre +:+ String "T" (String d (String "_" (String w post)))))
              || tier_pattern_in (pre +:+ String "T" (String d (String "_" (String w post)))) = true).
      rewrite IH. apply orb_true_r.
Qed.

Lemma tryInt_decimal d default :
  isdecimal d = true → ∃ n, _tryInt (String d "") default = Ok n ∧ 0 ≤ n ≤ 9.
Proof.
  intros Hd. destruct (int_decimal d Hd) as (n & Hn & Hrange).
  exists n. unfold _tryInt. by rewrite Hn.
Qed.

Lemma tryInt_empty default : _tryInt "" default = Ok default.
Proof. reflexivity. Qed.

(** [_tryInt] always yields a number. *)
Lemma tryInt_total number default : ∃ n, _tryInt number default = Ok n.
Proof.
  unfold _tryInt. destruct (int number) as [n|e] eqn:Hint; [by exists n|].
  apply int_raises in Hint as ->. by exists default.
Qed.

(** The two ways [_convertItem] ends: no match and the defaults, or the
    groups of the first match. *)
Lemma convertItem_cases s :
  (findall_TIER_REGEX s = [] ∧ _convertItem s = Ok (mkItemName 1 s 0))
  ∨ (∃ t n e, _convertItem s = Ok (mkItemName t n e) ∧ 0 ≤ t ≤ 9 ∧ 0 ≤ e ≤ 9).
Proof.
  unfold _convertItem.
  pose proof (findall_from_groups 0 s) as Hall.
  fold (findall_TIER_REGEX s) in Hall.
  destruct (findall_TIER_REGEX s) as [|g matches]; [by left|right].
  inversion Hall as [|? ? (d & n & e & -> & Hd & He) _]; subst.
  cbn [length Nat.ltb Nat.leb]. rewrite index_head. cbn [mbind result_bind].
  destruct (tryInt_decimal d 1 Hd) as (t & -> & Ht).
  destruct He as [->|(c & -> & Hc)].
  - rewrite tryInt_empty. exists t, n, 0. split_and!; [done|lia..].
  - destruct (tryInt_decimal c 0 Hc) as (e & -> & He).
    exists t, n, e. split_and!; [done|lia..].
Qed.

End ParserFacts.

(** C5. For every identifier that lacks the [T<tier>_<NAME>] pattern,
    [_convertItem] returns tier 1, enchantment 0 and the whole identifier as
    the name; and [_convertItem] returns an [ItemName] for every string, it
    never raises. *)
Theorem convertItem_without_pattern (s : string) :
  (¬ has_tier_pattern s → _convertItem s = Ok (mkItemName 1 s 0))
  ∧ ∃ item, _convertItem s = Ok item.
Proof.
  split.
  - intros Hno. unfold _convertItem, findall_TIER_REGEX.
    rewrite findall_from_no_pattern; [done|].
    destruct (tier_pattern_in s) eqn:Hin; [|done].
    by apply tier_pattern_in_spec in Hin.
  - destruct (convertItem_cases s) as [[_ ->]|(t & n & e & -> & _)]; eauto.
Qed.

Lemma convertItem_without_pattern_witness :
  ¬ has_tier_pattern "UNIQUE_HIDEOUT"
  ∧ _convertItem "UNIQUE_HIDEOUT" = Ok (mkItemName 1 "UNIQUE_HIDEOUT" 0).
Proof.
  assert (Hno : ¬ has_tier_pattern "UNIQUE_HIDEOUT").
  { intros H. apply tier_pattern_in_spec in H. vm_compute in H. discriminate. }
  split; [exact Hno|].
  exact (proj1 (convertItem_without_pattern "UNIQUE_HIDEOUT") Hno).
Defined.

(** C9, as the code has it. The identifier parsed for an item has a tier
    between 0 and 9 and an enchantment between 0 and 9, whatever the
    identifier: the pattern takes any one decimal digit for each, and the
    defaults 1 and 0 apply when it is absent. *)
Theorem convertItem_ranges (s : string) :
  ∃ item, _convertItem s = Ok item
    ∧ 0 ≤ tier item ≤ 9 ∧ 0 ≤ enchant item ≤ 9.
Proof.
  destruct (convertItem_cases s) as [[_ ->]|(t & n & e & -> & Ht & He)].
  - eexists. split; [done|]. simpl. lia.
  - eexists. split; [done|]. simpl. lia.
Qed.

(** C9, as the specification has it, fails: tier 9 and tier 0 are parsed
    from identifiers that have the pattern. *)
Lemma convertItem_tier_outside_1_8 :
  ∃ item, _convertItem "T9_POTION" = Ok item ∧ ¬ (1 ≤ tier item ≤ 8).
Proof.
  exists (mkItemName 9 "POTION" 0). split; [reflexivity|]. simpl. lia.
Qed.

(** ** The alias rules *)

Section RuleFacts.

Implicit Types (item : gmap string value) (name : ItemName).

Lemma append_common_insert item l s :
  append_common (<["CommonNames" := VList l]> item) s =
    Ok (<["CommonNames" := VList (l ++ [VStr s])]> item).
Proof.
  unfold append_common, getitem. rewrite lookup_insert_eq. simpl.
  by rewrite insert_insert_eq.
Qed.

Lemma long_name_fields_insert item v :
  long_name_fields (<["CommonNames" := v]> item) = long_name_fields item.
Proof. unfold long_name_fields, getitem. by rewrite lookup_insert_ne. Qed.

Lemma convert_unique_name_insert item v :
  convert_unique_name (<["CommonNames" := v]> item) = convert_unique_name item.
Proof. unfold convert_unique_name, getitem. by rewrite lookup_insert_ne. Qed.

Lemma addTierNickname_insert name item l :
  _addTierNickname name (<["CommonNames" := VList l]> item) =
    Ok (<["CommonNames" := VList (l ++ (VStr <$> shorthand_aliases name))]> item).
Proof.
  unfold _addTierNickname, shorthand_aliases.
  rewrite append_common_insert. cbn [mbind result_bind].
  destruct (enchant name =? 0).
  - rewrite append_common_insert. by rewrite <-(assoc_L (++)).
  - done.
Qed.

Ltac step_rule :=
  cbn [mbind result_bind try_except drop fmap list_fmap app];
  rewrite ?append_common_insert, ?index_head, ?index_second, ?index_nil,
    ?index_singleton_1.

Lemma replaceLongTierName_insert name item l :
  _replaceLongTierName name (<["CommonNames" := VList l]> item) =
    match long_name_fields item with
    | Raise TypeError => Ok (<["CommonNames" := VList l]> item)
    | Raise e => Raise e
    | Ok [] => Raise IndexError
    | Ok fields =>
        Ok (<["CommonNames" :=
               VList (l ++ (VStr <$> tier_rule_aliases name fields))]> item)
    end.
Proof.
  unfold _replaceLongTierName, tier_rule_aliases.
  rewrite long_name_fields_insert.
  destruct (long_name_fields item) as [[|first rest]|[]]; try done.
  repeat step_rule.
  destruct (bool_decide (first ∈ TIER_LONG_NAMES)).
  - repeat step_rule. destruct (enchant name =? 0); repeat step_rule.
    + by rewrite <-(assoc_L (++)).
    + done.
  - repeat step_rule. by rewrite (right_id_L [] (++)).
Qed.

Lemma replaceLongEnchantName_insert name item l :
  _replaceLongEnchantName name (<["CommonNames" := VList l]> item) =
    match long_name_fields item with
    | Raise TypeError => Ok (<["CommonNames" := VList l]> item)
    | Raise e => Raise e
    | Ok [] => Raise IndexError
    | Ok [first] =>
        if bool_decide (first ∈ ENC_LONG_NAMES) then Raise IndexError
        else Ok (<["CommonNames" := VList l]> item)
    | Ok fields =>
        Ok (<["CommonNames" :=
               VList (l ++ (VStr <$> enchant_rule_aliases name fields))]> item)
    end.
Proof.
  unfold _replaceLongEnchantName, enchant_rule_aliases, enchant_variants.
  rewrite long_name_fields_insert.
  destruct (long_name_fields item) as [[|first [|second rest]]|[]]; try done.
  - repeat step_rule.
    destruct (bool_decide (first ∈ ENC_LONG_NAMES)); by repeat step_rule.
  - repeat step_rule.
    destruct (bool_decide (first ∈ ENC_LONG_NAMES)); repeat step_rule;
      [|by rewrite (right_id_L [] (++))].
    destruct (bool_decide (second ∈ RESOURCE_NAMES)), (enchant name =? 0);
      repeat step_rule; by rewrite <-?(assoc_L (++)).
Qed.

(** The loop body of [main] appends exactly [generated_aliases]. *)
Lemma main_body_eq item :
  main_body item =
    name ← convert_unique_name item;
    aliases ← generated_aliases name item;
    Ok (<["CommonNames" := VList (VStr <$> aliases)]> item).
Proof.
  unfold main_body, generated_aliases.
  rewrite convert_unique_name_insert.
  destruct (convert_unique_name item) as [name|e]; [|done].
  cbn [mbind result_bind].
  rewrite addTierNickname_insert. cbn [mbind result_bind app].
  rewrite replaceLongTierName_insert.
  destruct (long_name_fields item) as [[|first [|second rest]]|[]] eqn:Hf;
    try done; cbn [mbind result_bind];
    rewrite replaceLongEnchantName_insert, Hf; try done.
  - destruct (bool_decide (first ∈ ENC_LONG_NAMES)); [done|].
    cbn [mbind result_bind]. by rewrite fmap_app.
  - cbn [mbind result_bind]. by rewrite !fmap_app, <-(assoc_L (++)).
Qed.

End RuleFacts.



(** What the enchantment rule appends for a name of two words or more
    whose first word is an enchantment word: the name with that word
    replaced by the dotted code, the same without the resource word when
    the second word is one, and both again with the bare code when the
    enchantment is 0. *)
Lemma replaceLongEnchantName_two_words (name : ItemName)
    (item : gmap string value) (l : list value) first second rest :
  long_name_fields item = Ok (first :: second :: rest) →
  first ∈ ENC_LONG_NAMES →
  _replaceLongEnchantName name (<["CommonNames" := VList l]> item) =
    Ok (<["CommonNames" := VList (l ++ (VStr <$>
          enchant_variants (short_dotted name) second rest
          ++ (if enchant name =? 0
              then enchant_variants (short_bare name) second rest
              else [])))]> item).
Proof.
  intros Hf Hin. rewrite replaceLongEnchantName_insert, Hf.
  unfold enchant_rule_aliases. by rewrite bool_decide_eq_true_2.
Qed.

(** C7 does not hold of the code on a name of one word: the first word
    of ["Rare"] is an enchantment word, the rule appends ["T4.2"] and then
    reads the second word without a check, and [main] ends with an
    [IndexError] instead of an enriched item. *)
Theorem replaceLongEnchantName_one_word_raises :
  split "Rare" = ["Rare"]
  ∧ bool_decide ("Rare" ∈ ENC_LONG_NAMES) = true
  ∧ _replaceLongEnchantName (mkItemName 4 "ROCK_LEVEL2" 2)
      (<["CommonNames" := VList []]> rare_item) = Raise IndexError
  ∧ main_body rare_item = Raise IndexError
  ∧ main [rare_item] = Raise IndexError.
Proof. by vm_compute. Qed.

(** An item whose [LocalizedNames] is [null] gets the shorthand aliases
    and nothing else: the [TypeError] of subscripting [None] is caught by
    both substitution rules. *)
Lemma main_body_null_names (item : gmap string value) (name : ItemName) :
  item !! "LocalizedNames" = Some VNull →
  convert_unique_name item = Ok name →
  main_body item =
    Ok (<["CommonNames" := VList (VStr <$> shorthand_aliases name)]> item).
Proof.
  intros Hnull Hname. rewrite main_body_eq, Hname. cbn [mbind result_bind].
  unfold generated_aliases, long_name_fields, getitem. by rewrite Hnull.
Qed.

(** C8 does not hold of the code: the substitution rules catch
    [TypeError] only. A missing [LocalizedNames] key or a missing EN-US
    entry raises [KeyError], an empty or blank EN-US name raises
    [IndexError] at [fields[0]], and either ends [main]. *)
Theorem main_raises_without_name :
  _replaceLongTierName (mkItemName 4 "BAG" 0)
      (<["CommonNames" := VList []]> no_locale_item) = Raise KeyError
  ∧ _replaceLongTierName (mkItemName 4 "BAG" 0)
      (<["CommonNames" := VList []]> empty_name_item) = Raise IndexError
  ∧ main_body no_names_item = Raise KeyError
  ∧ main_body no_locale_item = Raise KeyError
  ∧ main_body empty_name_item = Raise IndexError
  ∧ main_body blank_name_item = Raise IndexError
  ∧ main [empty_name_item] = Raise IndexError.
Proof. by vm_compute. Qed.

(** ** Running the enrichment again *)

Section Rerun.

Lemma main_body_insert (item : gmap string value) v :
  main_body (<["CommonNames" := v]> item) = main_body item.
Proof. unfold main_body. by rewrite insert_insert_eq. Qed.

(** An enriched item is the raw item with [CommonNames] set. *)
Lemma main_body_sets_common (item enriched : gmap string value) :
  main_body item = Ok enriched →
  ∃ aliases, enriched = <["CommonNames" := VList (VStr <$> aliases)]> item.
Proof.
  rewrite main_body_eq.
  destruct (convert_unique_name item) as [name|]; [|done].
  cbn [mbind result_bind].
  destruct (generated_aliases name item) as [aliases|]; [|done].
  intros [= <-]. by exists aliases.
Qed.

(** The loop body is idempotent: it resets [CommonNames] before it reads
    anything. *)
Lemma main_body_again (item enriched : gmap string value) :
  main_body item = Ok enriched → main_body enriched = Ok enriched.
Proof.
  intros Hrun. destruct (main_body_sets_common _ _ Hrun) as [aliases ->].
  by rewrite main_body_insert.
Qed.

Lemma main_again (rawData enriched : list (gmap string value)) :
  main rawData = Ok enriched → main enriched = Ok enriched.
Proof.
  unfold main. revert enriched.
  induction rawData as [|item rawData IH]; intros enriched; simpl.
  - by intros [= <-].
  - destruct (main_body item) as [item'|] eqn:Hitem; [|done].
    cbn [mbind result_bind].
    destruct (comprehension main_body rawData) as [rest|]; [|done].
    intros [= <-]. simpl.
    rewrite (main_body_again _ _ Hitem). cbn [mbind result_bind].
    by rewrite (IH rest).
Qed.

End Rerun.

(** C10. Running the enrichment on its own output succeeds and leaves
    every item's [UniqueName] and [LocalizedNames], and every other key
    than [CommonNames], as they were. *)
Theorem main_rerun_keeps_fields (rawData enriched : list (gmap string value)) :
  main rawData = Ok enriched →
  ∃ again, main enriched = Ok again
    ∧ Forall2 (λ before after : gmap string value,
                 after !! "UniqueName" = before !! "UniqueName"
                 ∧ after !! "LocalizedNames" = before !! "LocalizedNames"
                 ∧ ∀ k, k ≠ "CommonNames" → after !! k = before !! k)
        enriched again.
Proof.
  intros Hrun. exists enriched. split; [by eapply main_again|].
  apply Forall2_same_length_lookup_2; [done|].
  intros i before after Hb Ha. by simplify_eq.
Qed.

Lemma main_adepts_bag :
  main [adepts_bag] =
    Ok [enriched_bag].
Proof. vm_compute. reflexivity. Qed.

Lemma main_rerun_keeps_fields_witness :
  ∃ again,
    main [enriched_bag] = Ok again
    ∧ Forall2 (λ before after : gmap string value,
                 after !! "UniqueName" = before !! "UniqueName"
                 ∧ after !! "LocalizedNames" = before !! "LocalizedNames"
                 ∧ ∀ k, k ≠ "CommonNames" → after !! k = before !! k)
        [enriched_bag] again.
Proof. exact (main_rerun_keeps_fields _ _ main_adepts_bag). Defined.

(** ** The candidates of the matcher *)

Section ScanFacts.

Context (dist : string → string → Qc).
Implicit Types (item : gmap string value) (jDists : list entry).

Lemma unique_name_step_eq w1 i item jDists :
  unique_name_step dist w1 i item jDists = jDists ++ [(id_dist dist w1 item, i)].
Proof.
  unfold unique_name_step, id_dist, getitem.
  destruct (item !! "UniqueName") as [[]|]; done.
Qed.

Lemma localized_names_step_eq w1 i item jDists :
  localized_names_step dist w1 i item jDists =
    jDists ++ [(name_dist dist w1 item, i)].
Proof.
  unfold localized_names_step, name_dist.
  destruct (getitem item "LocalizedNames") as [names|]; [|done].
  cbn [mbind result_bind].
  destruct (iter names) as [keys|]; [|done].
  cbn [mbind result_bind].
  destruct (for_each _ keys []) as [localDists|]; [|done].
  cbn [mbind result_bind].
  by destruct (minimum localDists).
Qed.

Lemma common_names_loop w1 i (cnames : list string) jDists :
  for_each
    (λ jDists cname, w2 ← str_lower cname; Ok (jDists ++ [(dist w1 w2, i)]))
    (VStr <$> cnames) jDists =
  Ok (jDists ++ ((λ cname, (dist w1 (lower cname), i)) <$> cnames)).
Proof.
  revert jDists. induction cnames as [|cname cnames IH]; intros jDists.
  - simpl. by rewrite (right_id_L [] (++)).
  - cbn [fmap list_fmap for_each str_lower mbind result_bind].
    change (list_fmap string value VStr cnames) with (VStr <$> cnames).
    rewrite IH. by rewrite <-(assoc_L (++)).
Qed.

Lemma common_names_enriched item (cnames : list string) :
  item !! "CommonNames" = Some (VList (VStr <$> cnames)) →
  common_names item = cnames.
Proof.
  intros Hc. unfold common_names. rewrite Hc, <-list_fmap_compose.
  by rewrite list_fmap_id.
Qed.

Lemma common_names_step_eq w1 i item jDists :
  enriched item →
  common_names_step dist w1 i item jDists =
    Ok (jDists ++ ((λ cname, (dist w1 (lower cname), i)) <$> common_names item)).
Proof.
  intros [cnames Hc]. rewrite (common_names_enriched _ _ Hc).
  unfold common_names_step, getitem. rewrite Hc.
  cbn [mbind result_bind iter]. apply common_names_loop.
Qed.

(** On enriched items the loop returns, with the flat list of the
    specification appended to what it started from. *)
Lemma scan_eq w1 i data jDists :
  Forall enriched data →
  scan dist w1 i data jDists = Ok (jDists ++ flat_entries dist w1 i data).
Proof.
  intros Hdata. revert i jDists.
  induction Hdata as [|item data Hitem _ IH]; intros i jDists.
  - simpl. by rewrite (right_id_L [] (++)).
  - cbn [scan flat_entries].
    rewrite unique_name_step_eq, localized_names_step_eq.
    rewrite common_names_step_eq by done. cbn [mbind result_bind].
    rewrite IH. unfold item_entries.
    by rewrite <-!(assoc_L (++)).
Qed.

Lemma flat_entries_index w1 i data e :
  e ∈ flat_entries dist w1 i data → (i ≤ e.2 < i + length data)%nat.
Proof.
  revert i. induction data as [|item data IH]; intros i.
  - by intros ?%elem_of_nil.
  - cbn [flat_entries length]. rewrite elem_of_app. intros [Hin|Hin].
    + unfold item_entries in Hin.
      rewrite !elem_of_cons, list_elem_of_fmap in Hin.
      destruct Hin as [->|[->|(cname & -> & _)]]; simpl; lia.
    + apply IH in Hin. lia.
Qed.

Lemma item_entries_index w1 i item e :
  e ∈ item_entries dist w1 i item → e.2 = i.
Proof.
  unfold item_entries. rewrite !elem_of_cons, list_elem_of_fmap.
  by intros [->|[->|(cname & -> & _)]].
Qed.

Lemma filter_all {A} (P : A → Prop) `{∀ x, Decision (P x)} (l : list A) :
  (∀ x, x ∈ l → P x) → filter P l = l.
Proof.
  induction l as [|x l IH]; intros Hall; [done|].
  rewrite filter_cons_True by (apply Hall; left).
  f_equal. apply IH. intros y Hy. apply Hall. by right.
Qed.

Lemma filter_none {A} (P : A → Prop) `{∀ x, Decision (P x)} (l : list A) :
  (∀ x, x ∈ l → ¬ P x) → filter P l = [].
Proof.
  induction l as [|x l IH]; intros Hall; [done|].
  rewrite filter_cons_False by (apply Hall; left).
  apply IH. intros y Hy. apply Hall. by right.
Qed.

(** The candidates paired with an index are those of the item there,
    in the order in which they were appended. *)
Lemma flat_entries_filter w1 i k data item :
  data !! k = Some item →
  filter (λ e : entry, e.2 = (i + k)%nat) (flat_entries dist w1 i data) =
    item_entries dist w1 (i + k) item.
Proof.
  revert i k. induction data as [|first data IH]; intros i k; [done|].
  cbn [flat_entries]. rewrite list.filter_app. destruct k as [|k]; simpl.
  - intros [= ->]. rewrite Nat.add_0_r.
    rewrite filter_all by apply item_entries_index.
    rewrite filter_none; [by rewrite (right_id_L [] (++))|].
    intros e He%flat_entries_index. lia.
  - intros Hk.
    rewrite filter_none.
    + replace (i + S k)%nat with (S i + k)%nat by lia. by apply IH.
    + intros e He%item_entries_index. lia.
Qed.

(** [min] of a non-empty list is one of its elements and a lower bound
    of all of them. *)
Lemma minimum_fold (l : list Qc) (x : Qc) :
  let m := foldl (λ m y, if decide (y < m)%Qc then y else m) x l in
  m ∈ x :: l ∧ ∀ y, y ∈ x :: l → (m ≤ y)%Qc.
Proof.
  revert x. induction l as [|z l IH]; intros x; simpl.
  - split; [left|]. intros y ->%list_elem_of_singleton. apply Qcle_refl.
  - destruct (IH (if decide (z < x)%Qc then z else x)) as [Hin Hle].
    simpl in Hin, Hle. split.
    + apply elem_of_cons in Hin as [->|Hin].
      * case_decide; [right; left|left].
      * by do 2 right.
    + intros y Hy.
      assert (Hstep : ((if decide (z < x)%Qc then z else x) ≤ y)%Qc
                      ∨ y ∈ l).
      { apply elem_of_cons in Hy as [->|Hy].
        - left. case_decide; [by apply Qclt_le_weak|apply Qcle_refl].
        - apply elem_of_cons in Hy as [->|Hy]; [|by right].
          left. case_decide; [apply Qcle_refl|by apply Qcnot_lt_le]. }
      destruct Hstep as [Hstep|Hy'].
      * eapply Qcle_trans; [|exact Hstep]. apply Hle. left.
      * apply Hle. by right.
Qed.

Lemma minimum_spec (x : Qc) (l : list Qc) :
  ∃ m, minimum (x :: l) = Ok m ∧ m ∈ x :: l ∧ ∀ y, y ∈ x :: l → (m ≤ y)%Qc.
Proof. eexists. split; [done|]. apply minimum_fold. Qed.

(** The loop over the keys of a dict of strings collects the distance to
    each of its values. *)
Lemma local_dists_loop w1 (m : gmap string value) kvs (acc : list Qc) :
  (∀ k v, (k, v) ∈ kvs → m !! k = Some v ∧ ∃ s, v = VStr s) →
  ∃ ds,
    for_each
      (λ localDists name,
         v ← subscript (VDict m) name;
         w2 ← str_lower v;
         Ok (localDists ++ [dist w1 w2]))
      (VStr <$> kvs.*1) acc = Ok (acc ++ ds)
    ∧ Forall2 (λ kv d, ∃ s, kv.2 = VStr s ∧ d = dist w1 (lower s)) kvs ds.
Proof.
  revert acc. induction kvs as [|[k v] kvs IH]; intros acc Hkvs.
  - exists []. split; [|constructor]. simpl. by rewrite (right_id_L [] (++)).
  - destruct (Hkvs k v) as [Hk [s ->]]; [left|].
    destruct (IH (acc ++ [dist w1 (lower s)])) as (ds & Hloop & Hds).
    { intros k' v' Hin. apply Hkvs. by right. }
    exists (dist w1 (lower s) :: ds). split.
    + cbn [fmap list_fmap fst for_each subscript]. unfold getitem.
      rewrite Hk. cbn [mbind result_bind str_lower].
      rewrite <-(assoc_L (++)) in Hloop. exact Hloop.
    + constructor; [by exists s|done].
Qed.

Lemma name_dist_absent w1 item :
  item !! "LocalizedNames" = None → name_dist dist w1 item = 1%Qc.
Proof. intros Hn. unfold name_dist, getitem. by rewrite Hn. Qed.

Lemma name_dist_null w1 item :
  item !! "LocalizedNames" = Some VNull → name_dist dist w1 item = 1%Qc.
Proof. intros Hn. unfold name_dist, getitem. by rewrite Hn. Qed.

Lemma name_dist_empty w1 item :
  item !! "LocalizedNames" = Some (VDict ∅) → name_dist dist w1 item = 1%Qc.
Proof.
  intros Hn. unfold name_dist, getitem. rewrite Hn.
  cbn [mbind result_bind iter]. by rewrite map_to_list_empty.
Qed.

(** On a non-empty map of strings the candidate is the smallest of the
    distances to its values. *)
Lemma name_dist_dict w1 item (names : gmap string string) :
  item !! "LocalizedNames" = Some (VDict (VStr <$> names)) →
  names ≠ ∅ →
  (∃ k v, names !! k = Some v ∧ name_dist dist w1 item = dist w1 (lower v))
  ∧ ∀ k v, names !! k = Some v →
      (name_dist dist w1 item ≤ dist w1 (lower v))%Qc.
Proof.
  intros Hn Hne. unfold name_dist, getitem. rewrite Hn.
  cbn [mbind result_bind iter].
  set (m := VStr <$> names).
  assert (Hm : ∀ k v, (k, v) ∈ map_to_list m →
                 m !! k = Some v ∧ ∃ s, v = VStr s).
  { intros k v Hin%elem_of_map_to_list. split; [done|].
    unfold m in Hin. rewrite lookup_fmap in Hin.
    destruct (names !! k) as [s|]; [|done]. injection Hin as <-. by exists s. }
  destruct (local_dists_loop w1 m (map_to_list m) [] Hm) as (ds & -> & Hds).
  cbn [mbind result_bind app].
  assert (Hlook : ∀ k s, names !! k = Some s ↔ (k, VStr s) ∈ map_to_list m).
  { intros k s. rewrite elem_of_map_to_list. unfold m. rewrite lookup_fmap.
    destruct (names !! k) as [s'|]; simpl; [|by split].
    split; by intros [= ->]. }
  destruct ds as [|d ds].
  { apply Forall2_nil_inv_r in Hds. apply map_to_list_empty_iff in Hds.
    apply fmap_empty_inv in Hds. done. }
  destruct (minimum_spec d ds) as (d0 & -> & Hin & Hle).
  cbn [try_bare]. split.
  - apply list_elem_of_lookup in Hin as [i Hi].
    destruct (Forall2_lookup_r _ _ _ _ _ Hds Hi) as ([k v] & Hkv & s & Hv & ->).
    simpl in Hv. subst v. exists k, s. split; [|done].
    apply Hlook. by eapply list_elem_of_lookup_2.
  - intros k s Hk. apply Hlook in Hk.
    apply list_elem_of_lookup in Hk as [i Hi].
    destruct (Forall2_lookup_l _ _ _ _ _ Hds Hi) as (d' & Hd' & s' & Hs & ->).
    simpl in Hs. injection Hs as <-.
    apply Hle. by eapply list_elem_of_lookup_2.
Qed.

End ScanFacts.

(** C2. For the item at index [i] of an enriched catalog the loop appends,
    in this order and paired with [i]: one candidate for the lower-cased
    ID, which is at distance 1 when there is no ID; one candidate for the
    localized names, the smallest of the distances to their lower-cased
    values, and 1 when the map is absent, [null] or empty; and one
    candidate for each common name. *)
Theorem scan_entries_of_item (dist : string → string → Qc)
    (data : list (gmap string value)) (inputWord : string)
    (i : nat) (item : gmap string value) (cnames : list string) :
  let w1 := lower inputWord in
  Forall enriched data →
  data !! i = Some item →
  item !! "CommonNames" = Some (VList (VStr <$> cnames)) →
  ∃ jDists d_id d_name,
    scan dist w1 0 data [] = Ok jDists
    ∧ filter (λ e : entry, e.2 = i) jDists =
        (d_id, i) :: (d_name, i)
        :: ((λ cname, (dist w1 (lower cname), i)) <$> cnames)
    ∧ (∀ uid, item !! "UniqueName" = Some (VStr uid) →
         d_id = dist w1 (lower uid))
    ∧ (item !! "UniqueName" = None → d_id = 1%Qc)
    ∧ (∀ names : gmap string string,
         item !! "LocalizedNames" = Some (VDict (VStr <$> names)) →
         names ≠ ∅ →
         (∃ k v, names !! k = Some v ∧ d_name = dist w1 (lower v))
         ∧ ∀ k v, names !! k = Some v → (d_name ≤ dist w1 (lower v))%Qc)
    ∧ (item !! "LocalizedNames" = None
       ∨ item !! "LocalizedNames" = Some VNull
       ∨ item !! "LocalizedNames" = Some (VDict ∅) → d_name = 1%Qc).
Proof.
  intros w1 Hdata Hi Hc.
  exists (flat_entries dist w1 0 data), (id_dist dist w1 item),
    (name_dist dist w1 item).
  split_and!.
  - by rewrite scan_eq.
  - pose proof (flat_entries_filter dist w1 0 i data item Hi) as Hfilter.
    rewrite Nat.add_0_l in Hfilter. rewrite Hfilter.
    unfold item_entries. by rewrite (common_names_enriched item cnames Hc).
  - intros uid Hu. unfold id_dist. by rewrite Hu.
  - intros Hu. unfold id_dist. by rewrite Hu.
  - intros names Hn Hne. by apply name_dist_dict.
  - intros [Hn|[Hn|Hn]];
      auto using name_dist_absent, name_dist_null, name_dist_empty.
Qed.

Lemma scan_entries_of_item_witness :
  ∃ jDists,
    scan length_dist "t4 skillbook" 0 [enriched_bag; nameless_item] [] = Ok jDists
    ∧ filter (λ e : entry, e.2 = 1%nat) jDists =
        [(Q2Qc (1 # 2), 1%nat); (1%Qc, 1%nat); (1%Qc, 1%nat); (0%Qc, 1%nat)].
Proof.
  assert (Hdata : Forall enriched [enriched_bag; nameless_item]).
  { repeat constructor.
    - by exists ["T4.1 BAG"; "T4.1 Bag"].
    - by exists ["T4.0 SKILLBOOK"; "T4 SKILLBOOK"]. }
  destruct (scan_entries_of_item length_dist [enriched_bag; nameless_item]
              "T4 Skillbook" 1 nameless_item
              ["T4.0 SKILLBOOK"; "T4 SKILLBOOK"] Hdata eq_refl eq_refl)
    as (jDists & d_id & d_name & Hscan & Hfilter & Hid & _ & _ & Hnull).
  exists jDists. split; [exact Hscan|].
  rewrite Hfilter, (Hid "T4_SKILLBOOK" eq_refl), Hnull by (right; by left).
  reflexivity.
Defined.

(** ** Ranking *)

Section SortFacts.

Implicit Types (x y : entry) (l : list entry).

Lemma entry_lt_true y x : entry_lt y x = true → entry_le y x.
Proof.
  unfold entry_lt, entry_le. case_decide as Heq.
  - intros Hlt%Nat.ltb_lt. right. split; [done|lia].
  - intros Hlt%bool_decide_eq_true. by left.
Qed.

Lemma entry_lt_false y x : entry_lt y x = false → entry_le x y.
Proof.
  unfold entry_lt, entry_le. case_decide as Heq.
  - intros Hge%Nat.ltb_ge. by right.
  - intros Hnlt%bool_decide_eq_false. left.
    apply Qcnot_lt_le in Hnlt.
    destruct (Qcle_lt_or_eq _ _ Hnlt) as [Hlt|Heq']; [done|].
    by destruct Heq.
Qed.

Lemma entry_le_trans x y z : entry_le x y → entry_le y z → entry_le x z.
Proof.
  unfold entry_le. intros [Hxy|[Hxy Hi]] [Hyz|[Hyz Hj]].
  - left. by eapply Qclt_trans.
  - left. by rewrite <-Hyz.
  - left. by rewrite Hxy.
  - right. split; [congruence|lia].
Qed.

Lemma insort_perm x l : insort x l ≡ₚ x :: l.
Proof.
  induction l as [|y l IH]; simpl; [done|].
  destruct (entry_lt y x); [|done].
  by rewrite IH, Permutation_swap.
Qed.

Lemma insort_sorted x l :
  StronglySorted entry_le l → StronglySorted entry_le (insort x l).
Proof.
  induction 1 as [|y l Hl IH Hy]; simpl.
  - repeat constructor.
  - destruct (entry_lt y x) eqn:Hlt.
    + constructor; [done|].
      rewrite insort_perm. constructor; [by apply entry_lt_true|done].
    + apply entry_lt_false in Hlt.
      constructor; [by constructor|].
      constructor; [done|].
      eapply List.Forall_impl; [|exact Hy].
      intros z Hz. by eapply entry_le_trans.
Qed.

Lemma sorted_perm l : sorted l ≡ₚ l.
Proof.
  induction l as [|x l IH]; [done|].
  unfold sorted in *. simpl. by rewrite insort_perm, IH.
Qed.

Lemma sorted_sorted l : StronglySorted entry_le (sorted l).
Proof.
  induction l as [|x l IH]; [constructor|].
  unfold sorted in *. simpl. by apply insort_sorted.
Qed.

(** A comprehension whose body returns on every element returns the list
    of the results. *)
Lemma comprehension_ok {A B} (f : A → result B) (xs : list A) :
  (∀ a, a ∈ xs → ∃ b, f a = Ok b) →
  ∃ bs, comprehension f xs = Ok bs ∧ Forall2 (λ a b, f a = Ok b) xs bs.
Proof.
  induction xs as [|a xs IH]; intros Hall.
  - exists []. by split; [|constructor].
  - destruct (Hall a) as [b Hb]; [left|].
    destruct IH as (bs & Hbs & Hall2); [intros c Hc; apply Hall; by right|].
    exists (b :: bs). split; [|by constructor].
    simpl. rewrite Hb. cbn [mbind result_bind]. by rewrite Hbs.
Qed.


Lemma entry_id_Ok (data : list (gmap string value)) (e : entry) shown :
  entry_id data e = Ok shown →
  ∃ item, data !! e.2 = Some item ∧ item !! "UniqueName" = Some shown.
Proof.
  unfold entry_id, getitem. rewrite index_of_nat.
  destruct (data !! e.2) as [item|]; [|done]. cbn [mbind result_bind].
  destruct (item !! "UniqueName") as [uid|] eqn:Hu; [|done].
  intros [= <-]. eauto.
Qed.

End SortFacts.




(** C3, as the code has it. On an empty catalog [item_match] returns two
    empty lists; nothing is raised. *)
Theorem item_match_empty_catalog (dist : string → string → Qc)
    (inputWord : string) :
  item_match dist [] inputWord = Ok ([], []).
Proof. reflexivity. Qed.

(** C3, as the specification has it, fails: no query makes [item_match]
    raise on the empty catalog. *)
Lemma item_match_empty_catalog_no_error :
  ¬ (∀ inputWord, ∃ e, item_match length_dist [] inputWord = Raise e).
Proof. intros H. destruct (H "t4 bag") as [e He]. discriminate He. Qed.

(** Whatever the distances are, a catalog of one enriched item whose
    [LocalizedNames] is [null] makes [item_match] raise: the item is in
    every ranking, and its EN-US name is read from [None]. *)
Lemma item_match_nameless_raises (dist : string → string → Qc)
    (item : gmap string value) (inputWord : string) :
  enriched item →
  item !! "LocalizedNames" = Some VNull →
  item_match dist [item] inputWord = Raise TypeError.
Proof.
  intros Hitem Hnull. unfold item_match.
  rewrite scan_eq by (by constructor). cbn [mbind result_bind app].
  set (flat := flat_entries dist (lower inputWord) 0 [item]).
  destruct (sorted flat) as [|e ranked] eqn:Hsorted.
  { pose proof (sorted_perm flat) as Hperm. rewrite Hsorted in Hperm.
    by apply Permutation_nil_l in Hperm. }
  assert (He : e ∈ flat).
  { rewrite <-(sorted_perm flat), Hsorted. left. }
  apply flat_entries_index in He. simpl in He.
  assert (Hname : entry_name [item] e = Raise TypeError).
  { unfold entry_name. replace e.2 with 0%nat by lia.
    rewrite index_of_nat. cbn [lookup list_lookup mbind result_bind].
    unfold getitem. by rewrite Hnull. }
  cbn [take comprehension]. by rewrite Hname.
Qed.

(** C4 does not hold of the code. The loop of [item_match] does give a
    missing field the distance 1, but the names and IDs of the ranked
    entries are read without a check: a [null] [LocalizedNames] raises
    [TypeError], a map without EN-US and an item without an ID raise
    [KeyError]. *)
Theorem item_match_raises_on_missing_fields :
  scan length_dist "t4 skillbook" 0 [nameless_item] []
    = Ok [(Q2Qc (1 # 2), 0%nat); (1%Qc, 0%nat); (1%Qc, 0%nat); (0%Qc, 0%nat)]
  ∧ item_match length_dist [nameless_item] "T4 Skillbook" = Raise TypeError
  ∧ item_match length_dist [untranslated_item] "T4 Bag" = Raise KeyError
  ∧ item_match length_dist [anonymous_item] "T4 Bag" = Raise KeyError.
Proof. by vm_compute. Qed.

(** * Further properties of the alias normalizer *)

Section IdentifierFacts.

Lemma int_decimal_digit d : isdecimal d = true → int (String d "") = Ok (digit d).
Proof. intros Hd. by ascii_cases d; try discriminate Hd. Qed.

Lemma tryInt_digit d default :
  isdecimal d = true → _tryInt (String d "") default = Ok (digit d).
Proof. intros Hd. unfold _tryInt. by rewrite int_decimal_digit. Qed.

Lemma append_cons c (s t : string) : String c s +:+ t = String c (s +:+ t).
Proof. reflexivity. Qed.

Lemma append_empty_r (s : string) : s +:+ "" = s.
Proof. induction s as [|c s IH]; [done|]. by rewrite append_cons, IH. Qed.

(** The greedy [\w+] takes a whole word and stops at what follows it. *)
Lemma word_run_word w rest :
  all_word w = true →
  (rest = "" ∨ ∃ c rest', rest = String c rest' ∧ isword c = false) →
  word_run (w +:+ rest) = (w, rest).
Proof.
  intros Hw Hrest. induction w as [|c w IH].
  - change ("" +:+ rest) with rest.
    destruct Hrest as [->|(c & rest' & -> & Hc)]; [done|]. simpl. by rewrite Hc.
  - simpl in Hw. apply andb_true_iff in Hw as [Hc Hw].
    rewrite append_cons. cbn [word_run]. by rewrite Hc, (IH Hw).
Qed.

End IdentifierFacts.

(** X1. An identifier of the form [T<d>_<NAME>] parses to tier [d], name
    [NAME] and enchantment 0, and [T<d>_<NAME>@<e>] to enchantment [e],
    where [d] and [e] are decimal digits and [NAME] is a non-empty string
    of word characters. *)
Theorem convertItem_identifier (d e : ascii) (w : string) :
  isdecimal d = true → isdecimal e = true →
  w ≠ "" → all_word w = true →
  _convertItem (String "T" (String d (String "_" w)))
    = Ok (mkItemName (digit d) w 0)
  ∧ _convertItem (String "T" (String d (String "_" (w +:+ String "@" (String e "")))))
    = Ok (mkItemName (digit d) w (digit e)).
Proof.
  intros Hd He Hne Hw.
  destruct w as [|c w']; [done|]. split.
  - unfold _convertItem, findall_TIER_REGEX. rewrite findall_from_cons.
    assert (Hm : TIER_REGEX_match (String "T" (String d (String "_" (String c w'))))
                 = Some (String d "", String c w', "",
                         (3 + String.length (String c w'))%nat)).
    { cbn [TIER_REGEX_match]. rewrite Hd.
      rewrite <-(append_empty_r (String c w')) at 1.
      rewrite word_run_word by auto. done. }
    rewrite Hm. cbn [length Nat.ltb Nat.leb]. rewrite index_head.
    cbn [mbind result_bind]. rewrite tryInt_digit by done.
    cbn [mbind result_bind]. by rewrite tryInt_empty.
  - unfold _convertItem, findall_TIER_REGEX. rewrite findall_from_cons.
    assert (Hm : TIER_REGEX_match
                   (String "T" (String d (String "_"
                      (String c w' +:+ String "@" (String e "")))))
                 = Some (String d "", String c w', String e "",
                         (5 + String.length (String c w'))%nat)).
    { cbn [TIER_REGEX_match]. rewrite Hd.
      rewrite word_run_word; [|done|right; by exists "@"%char, (String e "")].
      by rewrite He. }
    rewrite Hm. cbn [length Nat.ltb Nat.leb]. rewrite index_head.
    cbn [mbind result_bind]. rewrite tryInt_digit by done.
    cbn [mbind result_bind]. by rewrite tryInt_digit.
Qed.

Lemma convertItem_identifier_witness :
  _convertItem "T4_2H_BOW" = Ok (mkItemName 4 "2H_BOW" 0)
  ∧ _convertItem "T4_2H_BOW@3" = Ok (mkItemName 4 "2H_BOW" 3).
Proof.
  exact (convertItem_identifier "4" "3" "2H_BOW" eq_refl eq_refl
           ltac:(discriminate) eq_refl).
Defined.

Section FallbackFacts.

Lemma word_run_length s w r :
  word_run s = (w, r) → (String.length w + String.length r = String.length s)%nat.
Proof.
  revert w r. induction s as [|c s IH]; intros w r; cbn [word_run].
  - by intros [= <- <-].
  - destruct (isword c); [|by intros [= <- <-]].
    destruct (word_run s) as [w' r']. specialize (IH w' r' eq_refl).
    intros [= <- <-]. simpl. lia.
Qed.

(** The name of an anchored match is at least three characters shorter
    than the string it is found in. *)
Lemma TIER_REGEX_match_name_length s t n e len :
  TIER_REGEX_match s = Some (t, n, e, len) →
  (String.length n + 3 ≤ String.length s)%nat.
Proof.
  destruct s as [|a s]; [done|].
  ascii_cases a; try (simpl; discriminate).
  destruct s as [|d s]; [done|].
  destruct s as [|u r]; [done|].
  ascii_cases u; try (simpl; discriminate).
  cbn [TIER_REGEX_match]. destruct (isdecimal d); [|done].
  destruct (word_run r) as [w r'] eqn:Hrun.
  apply word_run_length in Hrun.
  destruct w as [|c w]; [done|].
  intros Hm.
  assert (n = String c w) as ->.
  { destruct r' as [|a r']; [by injection Hm|].
    ascii_cases a; try (by injection Hm).
    destruct r' as [|b r']; [by injection Hm|].
    destruct (isdecimal b); by injection Hm. }
  cbn [String.length] in *. lia.
Qed.

Lemma findall_from_name_length k s :
  Forall (λ g : string * string * string,
            (String.length g.1.2 + 3 ≤ String.length s)%nat)
    (findall_from k s).
Proof.
  revert k. induction s as [|c s IH]; intros k; [constructor|].
  assert (Hweak : ∀ k', Forall (λ g : string * string * string,
            (String.length g.1.2 + 3 ≤ String.length (String c s))%nat)
            (findall_from k' s)).
  { intros k'. eapply List.Forall_impl; [|apply IH]. simpl. intros g Hg. lia. }
  rewrite findall_from_cons. destruct k as [|k]; [|apply Hweak].
  destruct (TIER_REGEX_match (String c s)) as [[[[t n] e] len]|] eqn:Hm;
    [|apply Hweak].
  constructor; [|apply Hweak].
  by apply TIER_REGEX_match_name_length in Hm.
Qed.

Lemma tier_pattern_at_match s :
  tier_pattern_at s = true → ∃ m, TIER_REGEX_match s = Some m.
Proof.
  destruct s as [|t [|d [|u [|w post]]]]; try done. simpl tier_pattern_at.
  intros Hat.
  apply andb_true_iff in Hat as [Hat Hw].
  apply andb_true_iff in Hat as [Hat Hu].
  apply andb_true_iff in Hat as [Ht Hd].
  apply bool_decide_eq_true in Ht as ->, Hu as ->.
  cbn [TIER_REGEX_match word_run]. rewrite Hd, Hw.
  destruct (word_run post) as [w' r'].
  destruct r' as [|a r']; [eauto|].
  ascii_cases a; eauto.
  destruct r' as [|b r']; [eauto|].
  destruct (isdecimal b); eauto.
Qed.

Lemma findall_from_pattern s :
  tier_pattern_in s = true → findall_from 0 s ≠ [].
Proof.
  induction s as [|c s IH]; [done|].
  change (tier_pattern_at (String c s) || tier_pattern_in s = true
          → findall_from 0 (String c s) ≠ []).
  intros Hin. rewrite findall_from_cons.
  destruct (TIER_REGEX_match (String c s)) as [[g len]|] eqn:Hm; [done|].
  apply orb_true_iff in Hin as [Hat|Hin]; [|by apply IH].
  apply tier_pattern_at_match in Hat as [m Hm']. congruence.
Qed.

(** The name that [_convertItem] returns is the second group of the first
    match. *)
Lemma convertItem_first_match s t n e matches :
  findall_TIER_REGEX s = (t, n, e) :: matches →
  ∃ t' e', _convertItem s = Ok (mkItemName t' n e').
Proof.
  intros Hfind. unfold _convertItem. rewrite Hfind.
  cbn [length Nat.ltb Nat.leb]. rewrite index_head. cbn [mbind result_bind].
  destruct (tryInt_total t 1) as [t' ->]. cbn [mbind result_bind].
  destruct (tryInt_total e 0) as [e' ->]. eauto.
Qed.

End FallbackFacts.

(** X2. [_convertItem] falls back to the whole identifier as the name
    exactly when the identifier lacks the pattern; when the pattern
    occurs, the name is at least three characters shorter than the
    identifier. *)
Theorem convertItem_fallback_iff (s : string) (item : ItemName) :
  _convertItem s = Ok item →
  (name item = s ↔ ¬ has_tier_pattern s)
  ∧ (has_tier_pattern s → (String.length (name item) + 3 ≤ String.length s)%nat).
Proof.
  intros Hconv.
  destruct (tier_pattern_in s) eqn:Hin.
  - assert (Hpat : has_tier_pattern s) by (by apply tier_pattern_in_spec).
    pose proof (findall_from_pattern s Hin) as Hne.
    pose proof (findall_from_name_length 0 s) as Hlen.
    fold (findall_TIER_REGEX s) in Hne, Hlen.
    destruct (findall_TIER_REGEX s) as [|[[t n] e] matches] eqn:Hfind; [done|].
    destruct (convertItem_first_match s t n e matches Hfind) as (t' & e' & Heq).
    rewrite Heq in Hconv. injection Hconv as <-.
    inversion Hlen as [|? ? Hn _]; subst. cbn [name fst snd] in *.
    split; [|done]. split; [|done].
    intros ->. lia.
  - assert (Hno : ¬ has_tier_pattern s).
    { intros Hpat%tier_pattern_in_spec. congruence. }
    unfold _convertItem, findall_TIER_REGEX in Hconv.
    rewrite findall_from_no_pattern in Hconv by done.
    injection Hconv as <-. by split.
Qed.

Lemma convertItem_fallback_iff_witness :
  has_tier_pattern "T4_BAG@1"
  ∧ (String.length "BAG" + 3 ≤ String.length "T4_BAG@1")%nat.
Proof.
  assert (Hpat : has_tier_pattern "T4_BAG@1").
  { by apply tier_pattern_in_spec. }
  split; [exact Hpat|].
  exact (proj2 (convertItem_fallback_iff "T4_BAG@1" (mkItemName 4 "BAG" 1) eq_refl)
           Hpat).
Defined.

Section SubstitutionFacts.

Implicit Types (item : gmap string value) (name : ItemName).

(** No word is both a tier adjective and an enchantment word. *)
Lemma tier_word_not_enchant_word (w : string) :
  w ∈ TIER_LONG_NAMES → w ∉ ENC_LONG_NAMES.
Proof.
  assert (Hdisj : TIER_LONG_NAMES ∩ ENC_LONG_NAMES = ∅)
    by (refine (bool_decide_unpack _ _); by vm_compute).
  intros Ht He. assert (w ∈ TIER_LONG_NAMES ∩ ENC_LONG_NAMES) as Hin
    by (by apply elem_of_intersection).
  rewrite Hdisj in Hin. by apply not_elem_of_empty in Hin.
Qed.

(** The words of the EN-US name of an item that has one. *)
Lemma long_name_fields_dict item (names : gmap string value) longName :
  item !! "LocalizedNames" = Some (VDict names) →
  names !! "EN-US" = Some (VStr longName) →
  long_name_fields item = Ok (split longName).
Proof.
  intros Hn Hen. unfold long_name_fields, getitem. rewrite Hn.
  cbn [mbind result_bind subscript]. unfold getitem. by rewrite Hen.
Qed.

(** Subscripting anything but a dict with a string is a [TypeError]. *)
Lemma long_name_fields_not_dict item v :
  item !! "LocalizedNames" = Some v →
  (∀ names, v ≠ VDict names) →
  long_name_fields item = Raise TypeError.
Proof.
  intros Hn Hv. unfold long_name_fields, getitem. rewrite Hn.
  cbn [mbind result_bind]. destruct v; try done. by destruct (Hv m).
Qed.

End SubstitutionFacts.



(** X4. A [LocalizedNames] that is not a dict ([null], a string, a list,
    a number) does not stop [main]: both substitution rules catch the
    [TypeError] and the item gets the shorthand aliases only. *)
Theorem main_body_names_not_dict (item : gmap string value) (name : ItemName)
    (v : value) :
  convert_unique_name item = Ok name →
  item !! "LocalizedNames" = Some v →
  (∀ names, v ≠ VDict names) →
  main_body item =
    Ok (<["CommonNames" := VList (VStr <$> shorthand_aliases name)]> item).
Proof.
  intros Hname Hn Hv. rewrite main_body_eq, Hname. cbn [mbind result_bind].
  unfold generated_aliases. by rewrite (long_name_fields_not_dict _ _ Hn Hv).
Qed.

Lemma main_body_names_not_dict_witness :
  main_body raw_skillbook =
    Ok (<["CommonNames" :=
            VList (VStr <$> shorthand_aliases (mkItemName 4 "SKILLBOOK" 0))]>
          raw_skillbook).
Proof.
  exact (main_body_names_not_dict raw_skillbook (mkItemName 4 "SKILLBOOK" 0)
           VNull ltac:(vm_compute; reflexivity) ltac:(vm_compute; reflexivity)
           ltac:(discriminate)).
Defined.

(** X5. For an item whose EN-US name starts with a word that is neither
    a tier adjective nor an enchantment word, the substitution rules add
    nothing: the common names are the shorthand aliases. *)
Theorem main_body_other_first_word (item names : gmap string value)
    (name : ItemName) (longName first : string) (rest : list string) :
  convert_unique_name item = Ok name →
  item !! "LocalizedNames" = Some (VDict names) →
  names !! "EN-US" = Some (VStr longName) →
  split longName = first :: rest →
  first ∉ TIER_LONG_NAMES →
  first ∉ ENC_LONG_NAMES →
  main_body item =
    Ok (<["CommonNames" := VList (VStr <$> shorthand_aliases name)]> item).
Proof.
  intros Hname Hn Hen Hsplit Htier Henc.
  rewrite main_body_eq, Hname. cbn [mbind result_bind].
  unfold generated_aliases.
  rewrite (long_name_fields_dict _ _ _ Hn Hen), Hsplit.
  unfold tier_rule_aliases, enchant_rule_aliases.
  rewrite (bool_decide_eq_false_2 _ Htier), (bool_decide_eq_false_2 _ Henc).
  destruct rest as [|second rest]; cbn [mbind result_bind];
    by rewrite !(right_id_L [] (++)).
Qed.

Lemma main_body_other_first_word_witness :
  main_body novices_bag =
    Ok (<["CommonNames" :=
            VList (VStr <$> shorthand_aliases (mkItemName 2 "BAG" 0))]>
          novices_bag).
Proof.
  exact (main_body_other_first_word novices_bag
           {[ "EN-US" := VStr "Novice's Bag" ]}
           (mkItemName 2 "BAG" 0) "Novice's Bag" "Novice's" ["Bag"]
           ltac:(vm_compute; reflexivity) ltac:(vm_compute; reflexivity)
           ltac:(vm_compute; reflexivity) ltac:(vm_compute; reflexivity)
           ltac:(refine (bool_decide_eq_false_1 _ _); by vm_compute)
           ltac:(refine (bool_decide_eq_false_1 _ _); by vm_compute)).
Defined.

(** ** The loop of [main] *)

Section MainFacts.

Implicit Types (item : gmap string value) (name : ItemName).

Lemma comprehension_Ok_inv {A B} (f : A → result B) (xs : list A) bs :
  comprehension f xs = Ok bs → Forall2 (λ a b, f a = Ok b) xs bs.
Proof.
  revert bs. induction xs as [|a xs IH]; intros bs; simpl.
  - intros [= <-]. constructor.
  - destruct (f a) as [b|] eqn:Hb; [|done]. cbn [mbind result_bind].
    destruct (comprehension f xs) as [bs'|]; [|done].
    intros [= <-]. constructor; [done|by apply IH].
Qed.

(** A comprehension raises the exception of the first element on which
    its body raises. *)
Lemma comprehension_Raise_iff {A B} (f : A → result B) (xs : list A) e :
  comprehension f xs = Raise e ↔
  ∃ i a, xs !! i = Some a ∧ f a = Raise e
    ∧ ∀ j a', (j < i)%nat → xs !! j = Some a' → ∃ b, f a' = Ok b.
Proof.
  induction xs as [|a xs IH].
  - split; [done|]. by intros (i & a & Hi & _).
  - assert (Htail : (∃ i a', (a :: xs) !! S i = Some a' ∧ f a' = Raise e
               ∧ ∀ j a'', (j < S i)%nat → (a :: xs) !! j = Some a'' →
                   ∃ b, f a'' = Ok b)
             ↔ (∃ b, f a = Ok b) ∧ comprehension f xs = Raise e).
    { rewrite IH. split.
      - intros (i & a' & Hi & Hfa & Hbefore). split.
        + apply (Hbefore 0%nat); [lia|done].
        + exists i, a'. split_and!; [done..|].
          intros j a'' Hj Hl. apply (Hbefore (S j)); [lia|done].
      - intros [[b Hb] (i & a' & Hi & Hfa & Hbefore)].
        exists i, a'. split_and!; [done..|].
        intros [|j] a'' Hj Hl.
        + injection Hl as <-. eauto.
        + apply (Hbefore j); [lia|done]. }
    cbn [comprehension]. split.
    + destruct (f a) as [b|e'] eqn:Ha; cbn [mbind result_bind].
      * destruct (comprehension f xs) as [bs|e'] eqn:Hxs; [done|].
        cbn [mbind result_bind]. intros [= ->].
        destruct (proj2 Htail) as (i & a' & H); [by eauto|].
        by exists (S i), a'.
      * intros [= ->]. exists 0%nat, a. split_and!; [done..|]. intros; lia.
    + intros ([|i] & a' & Hi & Hfa & Hbefore).
      * injection Hi as <-. by rewrite Hfa.
      * destruct (proj1 Htail) as [[b Hb] Hxs]; [by exists i, a'|].
        by rewrite Hb, Hxs.
Qed.

Lemma shorthand_aliases_length name :
  (1 ≤ length (shorthand_aliases name) ≤ 2)%nat.
Proof. unfold shorthand_aliases. destruct (enchant name =? 0); simpl; lia. Qed.

(** The substitution rules add at most four aliases: at most two for a
    tier adjective, at most four for an enchantment word, and a first
    word is not both. *)
Lemma rule_aliases_length name fields :
  (length (tier_rule_aliases name fields ++ enchant_rule_aliases name fields)
   ≤ 4)%nat.
Proof.
  rewrite length_app. unfold tier_rule_aliases, enchant_rule_aliases, enchant_variants.
  destruct fields as [|first [|second rest]]; [simpl; lia|..].
  - destruct (bool_decide _), (enchant name =? 0); simpl; lia.
  - destruct (bool_decide (first ∈ TIER_LONG_NAMES)) eqn:Ht,
      (bool_decide (first ∈ ENC_LONG_NAMES)) eqn:He.
    + apply bool_decide_eq_true in Ht, He.
      by destruct (tier_word_not_enchant_word first).
    + destruct (enchant name =? 0); simpl; lia.
    + destruct (bool_decide (second ∈ RESOURCE_NAMES)), (enchant name =? 0);
        simpl; lia.
    + simpl; lia.
Qed.

Lemma generated_aliases_length name item aliases :
  generated_aliases name item = Ok aliases → (1 ≤ length aliases ≤ 6)%nat.
Proof.
  unfold generated_aliases.
  destruct (long_name_fields item) as [fields|e].
  - pose proof (shorthand_aliases_length name) as Hs.
    pose proof (rule_aliases_length name fields) as Hr.
    assert (Hall : ∀ l, l = shorthand_aliases name
                          ++ tier_rule_aliases name fields
                          ++ enchant_rule_aliases name fields →
                        (1 ≤ length l ≤ 6)%nat).
    { intros l ->. rewrite length_app. lia. }
    destruct fields as [|first [|second rest]]; [done| |].
    + destruct (bool_decide (first ∈ ENC_LONG_NAMES)); [done|].
      intros Heq. apply Hall. injection Heq as <-.
      cbn [enchant_rule_aliases]. by rewrite (right_id_L [] (++)).
    + intros Heq. apply Hall. by injection Heq as <-.
  - pose proof (shorthand_aliases_length name) as Hs.
    destruct e; try done. intros Heq. injection Heq as <-. lia.
Qed.

(** What one pass of the loop does to an item. *)
Lemma main_body_Ok item enriched_item :
  main_body item = Ok enriched_item →
  ∃ aliases,
    enriched_item = <["CommonNames" := VList (VStr <$> aliases)]> item
    ∧ (1 ≤ length aliases ≤ 6)%nat.
Proof.
  rewrite main_body_eq.
  destruct (convert_unique_name item) as [name|]; [|done].
  cbn [mbind result_bind].
  destruct (generated_aliases name item) as [aliases|] eqn:Hgen; [|done].
  intros [= <-]. exists aliases. split; [done|].
  by eapply generated_aliases_length.
Qed.

Lemma main_Forall2 (rawData data : list (gmap string value)) :
  main rawData = Ok data →
  Forall2 (λ raw item, ∃ aliases,
             item = <["CommonNames" := VList (VStr <$> aliases)]> raw
             ∧ (1 ≤ length aliases ≤ 6)%nat) rawData data.
Proof.
  intros Hmain%comprehension_Ok_inv.
  eapply list.Forall2_impl; [exact Hmain|]. apply main_body_Ok.
Qed.

End MainFacts.

(** X6. When [main] returns, its output has the items of the raw catalog
    in the same order and number; each differs from its raw item in the
    key [CommonNames] only, which holds a list of one to six strings
    whatever the raw item had under that key. *)
Theorem main_sets_common_names (rawData data : list (gmap string value)) :
  main rawData = Ok data →
  Forall2 (λ raw item : gmap string value,
             (∀ k, k ≠ "CommonNames" → item !! k = raw !! k)
             ∧ ∃ aliases : list string,
                 item !! "CommonNames" = Some (VList (VStr <$> aliases))
                 ∧ (1 ≤ length aliases ≤ 6)%nat) rawData data.
Proof.
  intros Hmain%main_Forall2.
  eapply list.Forall2_impl; [exact Hmain|].
  intros raw item (aliases & -> & Hlen). split.
  - intros k Hk. by rewrite lookup_insert_ne.
  - exists aliases. by rewrite lookup_insert_eq.
Qed.

Lemma main_sets_common_names_witness :
  Forall2 (λ raw item : gmap string value,
             (∀ k, k ≠ "CommonNames" → item !! k = raw !! k)
             ∧ ∃ aliases : list string,
                 item !! "CommonNames" = Some (VList (VStr <$> aliases))
                 ∧ (1 ≤ length aliases ≤ 6)%nat) [adepts_bag] [enriched_bag].
Proof. exact (main_sets_common_names _ _ main_adepts_bag). Defined.

Lemma convertItem_Ok s : ∃ name, _convertItem s = Ok name.
Proof.
  destruct (convertItem_cases s) as [[_ ->]|(t & n & e & -> & _)]; by eexists.
Qed.

(** The loop body raises what [raised_on] says, and returns when it says
    nothing. *)
Lemma main_body_raised_on item :
  match raised_on item with
  | Some e => main_body item = Raise e
  | None => ∃ enriched_item, main_body item = Ok enriched_item
  end.
Proof.
  rewrite main_body_eq. unfold raised_on, convert_unique_name, getitem.
  destruct (item !! "UniqueName") as [[| | |uid| |]|];
    cbn [mbind result_bind]; try done.
  destruct (convertItem_Ok uid) as [name ->]. cbn [mbind result_bind].
  unfold generated_aliases, long_name_fields, getitem.
  destruct (item !! "LocalizedNames") as [[| | | | |names]|];
    cbn [mbind result_bind subscript]; try done; try by eexists.
  unfold getitem.
  destruct (names !! "EN-US") as [[| | |longName| |]|];
    cbn [mbind result_bind str_split]; try done.
  destruct (split longName) as [|first [|second rest]]; [done| |by eexists].
  destruct (bool_decide (first ∈ ENC_LONG_NAMES)); [done|by eexists].
Qed.

(** X7. [main] raises exactly when some raw item cannot be enriched,
    and then with the exception of the first such item: [KeyError]
    without [UniqueName], without [LocalizedNames] or, in a dict of
    names, without the EN-US entry; [TypeError] for a [UniqueName] that
    is not a string; [AttributeError] for an EN-US name that is not a
    string; [IndexError] for an EN-US name without a word, or made of one
    enchantment word. Every other item is enriched, one whose
    [LocalizedNames] is not a dict included. *)
Theorem main_raises_iff (rawData : list (gmap string value)) (e : exn) :
  main rawData = Raise e ↔
  ∃ i item, rawData !! i = Some item ∧ raised_on item = Some e
    ∧ ∀ j earlier, (j < i)%nat → rawData !! j = Some earlier →
        raised_on earlier = None.
Proof.
  unfold main. rewrite comprehension_Raise_iff. split.
  - intros (i & item & Hi & Hraise & Hearlier). exists i, item.
    split_and!; [done| |].
    + pose proof (main_body_raised_on item) as H.
      destruct (raised_on item) as [e'|]; [congruence|].
      destruct H as [? H]. congruence.
    + intros j earlier Hj Hlookup.
      destruct (Hearlier j earlier Hj Hlookup) as [x Hx].
      pose proof (main_body_raised_on earlier) as H.
      destruct (raised_on earlier) as [e'|]; [congruence|done].
  - intros (i & item & Hi & Hraise & Hearlier). exists i, item.
    split_and!; [done| |].
    + pose proof (main_body_raised_on item) as H. by rewrite Hraise in H.
    + intros j earlier Hj Hlookup.
      pose proof (main_body_raised_on earlier) as H.
      by rewrite (Hearlier j earlier Hj Hlookup) in H.
Qed.

(** * Further properties of the matcher *)

Section MatchFacts.

Context (dist : string → string → Qc).
Implicit Types (item : gmap string value) (data : list (gmap string value)).

Lemma item_entries_length w1 i item :
  length (item_entries dist w1 i item) = (2 + length (common_names item))%nat.
Proof. unfold item_entries. simpl. by rewrite length_fmap. Qed.

Lemma flat_entries_length_bounds w1 i data lo hi :
  Forall (λ item, (lo ≤ length (common_names item) ≤ hi)%nat) data →
  ((2 + lo) * length data ≤ length (flat_entries dist w1 i data)
   ≤ (2 + hi) * length data)%nat.
Proof.
  intros Hdata. revert i. induction Hdata as [|item data Hitem _ IH]; intros i.
  - simpl. lia.
  - cbn [flat_entries length]. rewrite length_app, item_entries_length.
    specialize (IH (S i)). lia.
Qed.

Lemma flat_entries_length_ge w1 i data :
  (2 * length data ≤ length (flat_entries dist w1 i data))%nat.
Proof.
  revert i. induction data as [|item data IH]; intros i; [simpl; lia|].
  cbn [flat_entries length]. rewrite length_app, item_entries_length.
  specialize (IH (S i)). lia.
Qed.

(** The items that [main] returns are enriched items. *)
Lemma main_enriched (rawData data : list (gmap string value)) :
  main rawData = Ok data →
  Forall enriched data
  ∧ Forall (λ item, (1 ≤ length (common_names item) ≤ 6)%nat) data.
Proof.
  intros Hmain%main_Forall2.
  induction Hmain as [|raw item rawData data (aliases & -> & Hlen) _ [IH1 IH2]];
    [by split|].
  assert (Hc : (<["CommonNames" := VList (VStr <$> aliases)]> raw : gmap string value)
               !! "CommonNames" = Some (VList (VStr <$> aliases)))
    by apply lookup_insert_eq.
  split; constructor; try done.
  - by exists aliases.
  - by rewrite (common_names_enriched _ _ Hc).
Qed.

Lemma comprehension_length {A B} (f : A → result B) (xs : list A) bs :
  comprehension f xs = Ok bs → length bs = length xs.
Proof.
  intros Hall%comprehension_Ok_inv. symmetry. by eapply Forall2_length.
Qed.

Lemma sorted_length (l : list entry) : length (sorted l) = length l.
Proof. by rewrite sorted_perm. Qed.

End MatchFacts.

(** X8. The loop of [item_match] never raises on a catalog that [main]
    returned: it yields the flat candidate list, in which every item of
    the catalog has between three and eight candidates, those paired with
    its index, and so between [3n] and [8n] candidates for [n] items. *)
Theorem scan_main_output (dist : string → string → Qc)
    (rawData data : list (gmap string value)) (inputWord : string) :
  main rawData = Ok data →
  ∃ jDists,
    scan dist (lower inputWord) 0 data [] = Ok jDists
    ∧ (∀ i, (i < length rawData)%nat →
         (3 ≤ length (filter (λ e : entry, e.2 = i) jDists) ≤ 8)%nat)
    ∧ (3 * length rawData ≤ length jDists ≤ 8 * length rawData)%nat.
Proof.
  intros Hmain.
  destruct (main_enriched _ _ Hmain) as [Henriched Hcount].
  apply comprehension_length in Hmain.
  exists (flat_entries dist (lower inputWord) 0 data). split; [|split].
  - by rewrite scan_eq.
  - intros i Hi.
    destruct (lookup_lt_is_Some_2 data i) as [item Hitem]; [lia|].
    pose proof (flat_entries_filter dist (lower inputWord) 0 i data item Hitem)
      as Hfilter.
    rewrite Nat.add_0_l in Hfilter. rewrite Hfilter, item_entries_length.
    rewrite list.Forall_forall in Hcount.
    pose proof (Hcount item (list_elem_of_lookup_2 _ _ _ Hitem)). simpl in *. lia.
  - pose proof (flat_entries_length_bounds dist (lower inputWord) 0 data 1 6 Hcount).
    rewrite <-Hmain. simpl in *. lia.
Qed.

Lemma scan_main_output_witness :
  ∃ jDists,
    scan length_dist (lower "bag") 0 [enriched_bag] [] = Ok jDists
    ∧ (3 ≤ length (filter (λ e : entry, e.2 = 0%nat) jDists) ≤ 8)%nat.
Proof.
  destruct (scan_main_output length_dist [adepts_bag] [enriched_bag] "bag"
              main_adepts_bag) as (jDists & Hscan & Hitem & _).
  exists jDists. split; [exact Hscan|]. apply Hitem. simpl. lia.
Defined.

(** X9. When [item_match] returns on an enriched catalog, it returns as
    many IDs as names, one for each of the first 4 candidates: 4 of them
    as soon as the catalog has two items, and never fewer than 2 on a
    catalog that is not empty. *)
Theorem item_match_lengths (dist : string → string → Qc)
    (data : list (gmap string value)) (inputWord : string)
    (itemNames itemIDs : list value) :
  Forall enriched data →
  item_match dist data inputWord = Ok (itemNames, itemIDs) →
  length itemNames = length itemIDs
  ∧ length itemNames
    = (4 `min` length (flat_entries dist (lower inputWord) 0 data))%nat
  ∧ (data ≠ [] → (2 ≤ length itemNames ≤ 4)%nat)
  ∧ ((2 ≤ length data)%nat → length itemNames = 4%nat).
Proof.
  intros Henriched. unfold item_match. rewrite scan_eq by done.
  cbn [mbind result_bind app].
  assert (Hpos : data ≠ [] → (1 ≤ length data)%nat)
    by (destruct data; [done|simpl; lia]).
  set (flat := flat_entries dist (lower inputWord) 0 data).
  destruct (comprehension (entry_name data) (take 4 (sorted flat)))
    as [names|] eqn:Hnames; [|done].
  cbn [mbind result_bind].
  destruct (comprehension (entry_id data) (take 4 (sorted flat)))
    as [ids|] eqn:Hids; [|done].
  intros [= <- <-].
  apply comprehension_length in Hnames, Hids.
  rewrite length_take, sorted_length in Hnames, Hids.
  pose proof (flat_entries_length_ge dist (lower inputWord) 0 data) as Hge.
  fold flat in Hge. split_and!; try lia.
  intros Hne%Hpos. lia.
Qed.

Lemma item_match_lengths_witness :
  ∃ itemNames itemIDs,
    item_match length_dist [enriched_bag; experts_bag] "T4.1 Bag"
      = Ok (itemNames, itemIDs)
    ∧ length itemNames = 4%nat ∧ length itemIDs = 4%nat.
Proof.
  assert (Henriched : Forall enriched [enriched_bag; experts_bag]).
  { repeat constructor.
    - by exists ["T4.1 BAG"; "T4.1 Bag"].
    - by exists ["T5.0 BAG"; "T5 BAG"; "T5.0 Bag"; "T5 Bag"]. }
  destruct (item_match length_dist [enriched_bag; experts_bag] "T4.1 Bag")
    as [[itemNames itemIDs]|] eqn:Hmatch; [|by vm_compute in Hmatch].
  destruct (item_match_lengths length_dist _ _ _ _ Henriched Hmatch)
    as (Hsame & _ & _ & Hfour).
  exists itemNames, itemIDs. split; [done|].
  specialize (Hfour ltac:(simpl; lia)). split; congruence.
Defined.

Section ExactMatchFacts.

Context (dist : string → string → Qc).
Implicit Types (item : gmap string value) (data : list (gmap string value)).

Lemma item_entries_in_flat w1 i item data e :
  data !! i = Some item →
  e ∈ item_entries dist w1 i item → e ∈ flat_entries dist w1 0 data.
Proof.
  intros Hi He.
  pose proof (flat_entries_filter dist w1 0 i data item Hi) as Hfilter.
  rewrite Nat.add_0_l in Hfilter. rewrite <-Hfilter in He.
  by apply list_elem_of_filter in He as [_ He].
Qed.

(** On enriched and displayable items [item_match] returns, with the
    names and IDs read for the first 4 ranked candidates. *)
Lemma item_match_shown data inputWord :
  Forall enriched data → Forall displayable data →
  ∃ itemNames itemIDs,
    item_match dist data inputWord = Ok (itemNames, itemIDs)
    ∧ Forall2 (λ e shown, entry_name data e = Ok shown)
        (take 4 (sorted (flat_entries dist (lower inputWord) 0 data))) itemNames
    ∧ Forall2 (λ e shown, entry_id data e = Ok shown)
        (take 4 (sorted (flat_entries dist (lower inputWord) 0 data))) itemIDs.
Proof.
  intros Henriched Hshow.
  set (flat := flat_entries dist (lower inputWord) 0 data).
  assert (Hitem : ∀ e, e ∈ take 4 (sorted flat) →
            ∃ item, data !! e.2 = Some item ∧ displayable item).
  { intros e He%subseteq_take.
    rewrite sorted_perm in He. apply flat_entries_index in He.
    destruct (lookup_lt_is_Some_2 data e.2) as [item Hi]; [lia|].
    rewrite Forall_lookup in Hshow. eauto. }
  destruct (comprehension_ok (entry_name data) (take 4 (sorted flat)))
    as (itemNames & HitemNames & Hnames).
  { intros e (item & Hi & names & name & uid & Hn & Hen & _)%Hitem.
    exists name. unfold entry_name, getitem. rewrite index_of_nat, Hi.
    cbn [mbind result_bind]. rewrite Hn.
    cbn [mbind result_bind subscript]. unfold getitem. by rewrite Hen. }
  destruct (comprehension_ok (entry_id data) (take 4 (sorted flat)))
    as (itemIDs & HitemIDs & Hids).
  { intros e (item & Hi & names & name & uid & _ & _ & Hu)%Hitem.
    exists uid. unfold entry_id, getitem. rewrite index_of_nat, Hi.
    cbn [mbind result_bind]. by rewrite Hu. }
  exists itemNames, itemIDs. split_and!; [|done..].
  unfold item_match. rewrite scan_eq by done.
  cbn [mbind result_bind app]. fold flat.
  rewrite HitemNames. cbn [mbind result_bind]. by rewrite HitemIDs.
Qed.

Context (dist_nonneg : ∀ a b, (0 ≤ dist a b)%Qc).

Lemma one_nonneg : (0 ≤ 1)%Qc.
Proof. done. Qed.

Lemma local_dists_nonneg w1 (names : value) keys (acc l : list Qc) :
  for_each
    (λ localDists name,
       v ← subscript names name;
       w2 ← str_lower v;
       Ok (localDists ++ [dist w1 w2]))
    keys acc = Ok l →
  Forall (λ d, (0 ≤ d)%Qc) acc → Forall (λ d, (0 ≤ d)%Qc) l.
Proof.
  revert acc. induction keys as [|key keys IH]; intros acc; cbn [for_each].
  - by intros [= <-].
  - destruct (subscript names key) as [v|]; [|done]. cbn [mbind result_bind].
    destruct (str_lower v) as [w2|]; [|done]. cbn [mbind result_bind].
    intros Hloop Hacc. apply (IH _ Hloop).
    apply Forall_app. split; [done|]. by repeat constructor.
Qed.

Lemma name_dist_nonneg w1 item : (0 ≤ name_dist dist w1 item)%Qc.
Proof.
  unfold name_dist.
  destruct (getitem item "LocalizedNames") as [names|]; [|exact one_nonneg].
  cbn [mbind result_bind].
  destruct (iter names) as [keys|]; [|exact one_nonneg].
  cbn [mbind result_bind].
  destruct (for_each _ keys []) as [l|] eqn:Hloop; [|exact one_nonneg].
  cbn [mbind result_bind].
  apply local_dists_nonneg in Hloop; [|constructor].
  destruct l as [|d l]; [exact one_nonneg|].
  destruct (minimum_spec d l) as (m & Hm & Hin & _).
  rewrite Hm. cbn [try_bare].
  rewrite list.Forall_forall in Hloop. by apply Hloop.
Qed.

Lemma flat_entries_nonneg w1 i data e :
  e ∈ flat_entries dist w1 i data → (0 ≤ e.1)%Qc.
Proof.
  revert i. induction data as [|item data IH]; intros i.
  - by intros ?%elem_of_nil.
  - cbn [flat_entries]. rewrite elem_of_app. intros [Hin|Hin]; [|by eapply IH].
    unfold item_entries in Hin.
    rewrite !elem_of_cons, list_elem_of_fmap in Hin.
    destruct Hin as [->|[->|(cname & -> & _)]]; cbn [fst].
    + unfold id_dist. destruct (item !! "UniqueName") as [[]|];
        auto using one_nonneg.
    + apply name_dist_nonneg.
    + apply dist_nonneg.
Qed.

(** The best candidate is below every candidate. *)
Lemma sorted_head_le (l : list entry) e ranked x :
  sorted l = e :: ranked → x ∈ l → e = x ∨ entry_le e x.
Proof.
  intros Hsorted Hx. rewrite <-(sorted_perm l), Hsorted in Hx.
  pose proof (sorted_sorted l) as Hs. rewrite Hsorted in Hs.
  apply elem_of_cons in Hx as [->|Hx]; [by left|right].
  inversion Hs as [|? ? _ Hall]; subst.
  rewrite List.Forall_forall in Hall. apply Hall. by apply list_elem_of_In.
Qed.

End ExactMatchFacts.

(** X10. An exact match wins. If identical strings are at distance 0 and
    no distance is negative, and the query equals, case ignored, a common
    name of the item at index [i] of an enriched and displayable
    catalog, then the first ID that [item_match] returns is the ID of an
    item that has a candidate at distance 0: the item at index [i], or one
    before it. *)
Theorem item_match_exact_alias_first (dist : string → string → Qc)
    (data : list (gmap string value)) (inputWord : string)
    (i : nat) (item : gmap string value) (cname : string) :
  (∀ a, dist a a = 0%Qc) →
  (∀ a b, (0 ≤ dist a b)%Qc) →
  Forall enriched data → Forall displayable data →
  data !! i = Some item →
  cname ∈ common_names item →
  lower cname = lower inputWord →
  ∃ itemNames itemIDs (j : nat) best uid,
    item_match dist data inputWord = Ok (itemNames, itemIDs)
    ∧ itemIDs !! 0%nat = Some uid
    ∧ (j ≤ i)%nat
    ∧ data !! j = Some best
    ∧ best !! "UniqueName" = Some uid
    ∧ (0%Qc, j) ∈ flat_entries dist (lower inputWord) 0 data.
Proof.
  intros Hrefl Hnonneg Henriched Hshow Hi Hcname Hlower.
  set (flat := flat_entries dist (lower inputWord) 0 data).
  assert (Hzero : (0%Qc, i) ∈ flat).
  { apply (item_entries_in_flat dist _ i item); [done|].
    unfold item_entries. do 2 right. apply list_elem_of_fmap.
    exists cname. split; [|done]. by rewrite Hlower, Hrefl. }
  destruct (sorted flat) as [|e ranked] eqn:Hsorted.
  { pose proof (sorted_perm flat) as Hperm. rewrite Hsorted in Hperm.
    apply Permutation_nil_l in Hperm. rewrite <-Hperm in Hzero.
    by apply elem_of_nil in Hzero. }
  assert (He : e ∈ flat).
  { rewrite <-(sorted_perm flat), Hsorted. left. }
  assert (Hbest : e.1 = 0%Qc ∧ (e.2 ≤ i)%nat).
  { pose proof (flat_entries_nonneg dist Hnonneg _ _ _ _ He) as Hpos.
    destruct (sorted_head_le flat e ranked _ Hsorted Hzero) as [->|Hle]; [done|].
    destruct Hle as [Hlt|[Heq Hidx]]; [|done].
    simpl in Hlt. by apply Qclt_not_le in Hlt. }
  destruct Hbest as [Hdist Hidx].
  destruct (item_match_shown dist data inputWord Henriched Hshow)
    as (itemNames & itemIDs & Hmatch & _ & Hids).
  fold flat in Hids. rewrite Hsorted in Hids. cbn [take] in Hids.
  inversion Hids as [|? uid ? ids Huid _]; subst.
  apply entry_id_Ok in Huid as (best & Hbest & Huid).
  exists itemNames, (uid :: ids), e.2, best, uid. split_and!; try done.
  destruct e as [d j]. simpl in *. by subst d.
Qed.

Lemma length_dist_refl (a : string) : length_dist a a = 0%Qc.
Proof. unfold length_dist. by case_decide. Qed.

Lemma length_dist_nonneg (a b : string) : (0 ≤ length_dist a b)%Qc.
Proof. unfold length_dist. by repeat case_decide. Qed.

Lemma item_match_exact_alias_first_witness :
  ∃ itemNames itemIDs,
    item_match length_dist [enriched_bag; experts_bag] "t5 bag"
      = Ok (itemNames, itemIDs)
    ∧ itemIDs !! 0%nat = Some (VStr "T5_BAG").
Proof.
  assert (Henriched : Forall enriched [enriched_bag; experts_bag]).
  { repeat constructor.
    - by exists ["T4.1 BAG"; "T4.1 Bag"].
    - by exists ["T5.0 BAG"; "T5 BAG"; "T5.0 Bag"; "T5 Bag"]. }
  assert (Hshow : Forall displayable [enriched_bag; experts_bag]).
  { repeat constructor.
    - by exists {[ "EN-US" := VStr "Adept's Bag" ]}, (VStr "Adept's Bag"),
        (VStr "T4_BAG@1").
    - by exists {[ "EN-US" := VStr "Expert's Bag" ]}, (VStr "Expert's Bag"),
        (VStr "T5_BAG"). }
  destruct (item_match_exact_alias_first length_dist
              [enriched_bag; experts_bag] "t5 bag" 1 experts_bag "T5 BAG"
              length_dist_refl length_dist_nonneg Henriched Hshow eq_refl
              ltac:(vm_compute; set_solver) ltac:(vm_compute; reflexivity))
    as (itemNames & itemIDs & j & best & uid & Hmatch & Hfirst & _).
  exists itemNames, itemIDs. split; [exact Hmatch|].
  vm_compute in Hmatch. injection Hmatch as _ <-. reflexivity.
Defined.

(** * The outlier filter of [grabHistory] *)

Section RejectFacts.

Context {num : Type}.
Context (median : list num → result num).
Context (abs_diff : num → num → result num).
Context (truediv : num → num → result num).
Context (truthy : num → bool).
Context (lt_10 : num → bool).
Context (zero : num).

Lemma comprehension_Forall2 {A B} (f : A → result B) (xs : list A) bs :
  Forall2 (λ a b, f a = Ok b) xs bs → comprehension f xs = Ok bs.
Proof.
  induction 1 as [|a b xs bs Hab _ IH]; [done|].
  simpl. rewrite Hab. cbn [mbind result_bind]. by rewrite IH.
Qed.

Lemma kept_indices_bounds i (s : list num) :
  Forall (λ k, (i ≤ k < i + length s)%nat) (kept_indices lt_10 (enumerate_from i s)).
Proof.
  revert i. induction s as [|val s IH]; intros i; [constructor|].
  cbn [enumerate_from kept_indices length].
  assert (Hrest : Forall (λ k, (i ≤ k < i + S (length s))%nat)
                    (kept_indices lt_10 (enumerate_from (S i) s))).
  { eapply List.Forall_impl; [|apply IH]. simpl. lia. }
  destruct (lt_10 val); [constructor; [lia|done]|done].
Qed.

Lemma kept_indices_increasing i (s : list num) :
  StronglySorted lt (kept_indices lt_10 (enumerate_from i s)).
Proof.
  revert i. induction s as [|val s IH]; intros i; [constructor|].
  cbn [enumerate_from kept_indices].
  destruct (lt_10 val); [|apply IH].
  constructor; [apply IH|].
  eapply List.Forall_impl; [|apply (kept_indices_bounds (S i) s)]. simpl. lia.
Qed.

(** Picking the kept indices out of a list is filtering the list. *)
Lemma pick_kept {A} (pre l : list A) (s : list num) :
  (length s ≤ length l)%nat →
  pick (pre ++ l) (kept_indices lt_10 (enumerate_from (length pre) s))
    = Ok (keep lt_10 s l).
Proof.
  revert pre l. induction s as [|val s IH]; intros pre l Hlen; [done|].
  destruct l as [|x l]; [simpl in Hlen; lia|].
  cbn [enumerate_from kept_indices keep].
  assert (Hrest : pick (pre ++ x :: l)
                    (kept_indices lt_10 (enumerate_from (S (length pre)) s))
                  = Ok (keep lt_10 s l)).
  { specialize (IH (pre ++ [x]) l). rewrite length_app in IH. simpl in IH.
    rewrite Nat.add_1_r, <-(assoc_L (++)) in IH. apply IH. simpl in Hlen. lia. }
  destruct (lt_10 val); [|done].
  unfold pick in *. cbn [comprehension].
  rewrite index_of_nat, lookup_app_r, Nat.sub_diag by lia.
  cbn [lookup list_lookup mbind result_bind]. by rewrite Hrest.
Qed.

Lemma keep_sublist {A} (s : list num) (l : list A) : keep lt_10 s l `sublist_of` l.
Proof.
  revert l. induction s as [|val s IH]; intros l; [apply sublist_nil_l|].
  destruct l as [|x l]; [done|]. cbn [keep].
  destruct (lt_10 val); [by apply sublist_skip|by apply sublist_cons].
Qed.

Lemma keep_zip {A B} (s : list num) (l : list A) (k : list B) :
  keep lt_10 s (zip l k) = zip (keep lt_10 s l) (keep lt_10 s k)
  ∨ length l ≠ length k.
Proof.
  destruct (decide (length l = length k)) as [Hlen|]; [left|by right].
  revert l k Hlen. induction s as [|val s IH]; intros l k Hlen.
  - by destruct l, k.
  - destruct l as [|x l], k as [|y k]; try done.
    cbn [zip zip_with keep]. simpl in Hlen.
    destruct (lt_10 val); simpl; rewrite IH by lia; done.
Qed.

Lemma keep_length {A B} (s : list num) (l : list A) (k : list B) :
  length l = length k → length (keep lt_10 s l) = length (keep lt_10 s k).
Proof.
  revert l k. induction s as [|val s IH]; intros l k Hlen; [done|].
  destruct l as [|x l], k as [|y k]; try done. cbn [keep]. simpl in Hlen.
  destruct (lt_10 val); simpl; rewrite (IH l k) by lia; done.
Qed.

(** What [reject_outliers] returns, in terms of the scaled deviations. *)
Lemma reject_outliers_Ok (data newData : list num) indices :
  reject_outliers median abs_diff truediv truthy lt_10 zero data
    = Ok (newData, indices) →
  ∃ s, length s = length data
    ∧ indices = kept_indices lt_10 (enumerate_from 0 s)
    ∧ newData = keep lt_10 s data.
Proof.
  unfold reject_outliers.
  destruct (comprehension _ data) as [d|] eqn:Hd; [|done].
  cbn [mbind result_bind].
  destruct (median d) as [mdev|]; [|done]. cbn [mbind result_bind].
  destruct (comprehension _ d) as [s|] eqn:Hs; [|done].
  cbn [mbind result_bind].
  apply comprehension_length in Hd, Hs.
  pose proof (pick_kept [] data s ltac:(lia)) as Hpick.
  cbn [app length] in Hpick. rewrite Hpick. cbn [mbind result_bind].
  intros [= <- <-]. exists s. split_and!; [lia|done..].
Qed.

End RejectFacts.

(** X11. When [reject_outliers] returns, the indices it returns are
    strictly increasing positions of [data], [newData] holds the elements
    of [data] at these positions, and so [newData] is [data] with some
    elements left out, the others in their order. *)
Theorem reject_outliers_sublist {num : Type}
    (median : list num → result num) (abs_diff truediv : num → num → result num)
    (truthy lt_10 : num → bool) (zero : num)
    (data newData : list num) (indices : list nat) :
  reject_outliers median abs_diff truediv truthy lt_10 zero data
    = Ok (newData, indices) →
  StronglySorted lt indices
  ∧ Forall2 (λ i x, data !! i = Some x) indices newData
  ∧ newData `sublist_of` data.
Proof.
  intros Hrun.
  pose proof Hrun as (s & Hlen & -> & ->)%reject_outliers_Ok.
  split_and!.
  - apply kept_indices_increasing.
  - pose proof (pick_kept lt_10 [] data s ltac:(lia)) as Hpick.
    cbn [app length] in Hpick. apply comprehension_Ok_inv in Hpick.
    eapply list.Forall2_impl; [exact Hpick|].
    intros i x Hix. cbv beta in Hix. rewrite index_of_nat in Hix.
    destruct (data !! i) as [y|]; [|done]. by injection Hix as ->.
  - apply keep_sublist.
Qed.

Lemma reject_outliers_sublist_witness :
  Qc_reject_outliers
    [Q2Qc 100; Q2Qc 102; Q2Qc 5000; Q2Qc 101; Q2Qc 99]
  = Ok ([Q2Qc 100; Q2Qc 102; Q2Qc 101; Q2Qc 99], [0; 1; 3; 4]%nat)
  ∧ [Q2Qc 100; Q2Qc 102; Q2Qc 101; Q2Qc 99]
    `sublist_of` [Q2Qc 100; Q2Qc 102; Q2Qc 5000; Q2Qc 101; Q2Qc 99].
Proof.
  assert (Hrun : Qc_reject_outliers
            [Q2Qc 100; Q2Qc 102; Q2Qc 5000; Q2Qc 101; Q2Qc 99]
          = Ok ([Q2Qc 100; Q2Qc 102; Q2Qc 101; Q2Qc 99], [0; 1; 3; 4]%nat))
    by (vm_compute; reflexivity).
  split; [exact Hrun|].
  exact (proj2 (proj2 (reject_outliers_sublist _ _ _ _ _ _ _ _ _ Hrun))).
Defined.

(** X12. The loop that filters a city keeps its three lists aligned: if
    timestamps and item counts are as many as the prices before the pass,
    they are after it, and the rows (price, timestamp, item count) after
    the pass are rows from before it, in their order. *)
Theorem reject_city_aligned {num T C : Type}
    (median : list num → result num) (abs_diff truediv : num → num → result num)
    (truthy lt_10 : num → bool) (zero : num)
    (prices : list num) (timestamps : list T) (itemCounts : list C)
    (prices' : list num) (timestamps' : list T) (itemCounts' : list C) :
  length timestamps = length prices →
  length itemCounts = length prices →
  reject_city median abs_diff truediv truthy lt_10 zero
    prices timestamps itemCounts = (prices', timestamps', itemCounts') →
  length timestamps' = length prices'
  ∧ length itemCounts' = length prices'
  ∧ zip prices' (zip timestamps' itemCounts')
    `sublist_of` zip prices (zip timestamps itemCounts).
Proof.
  intros Ht Hc. unfold reject_city.
  destruct (reject_outliers _ _ _ _ _ _ prices) as [[newData indices]|]
    eqn:Hrun.
  - apply reject_outliers_Ok in Hrun as (s & Hlen & -> & ->).
    pose proof (pick_kept lt_10 [] timestamps s ltac:(lia)) as Hpt.
    pose proof (pick_kept lt_10 [] itemCounts s ltac:(lia)) as Hpc.
    cbn [app length] in Hpt, Hpc. rewrite Hpt, Hpc.
    intros [= <- <- <-]. split_and!.
    + by apply keep_length.
    + by apply keep_length.
    + destruct (keep_zip lt_10 s timestamps itemCounts) as [<-|Hne]; [|lia].
      destruct (keep_zip lt_10 s prices (zip timestamps itemCounts))
        as [<-|Hne]; [apply keep_sublist|].
      rewrite length_zip in Hne. lia.
  - intros [= <- <- <-]. done.
Qed.

Lemma reject_city_aligned_witness :
  reject_city Qc_median Qc_abs_diff Qc_truediv Qc_truthy Qc_lt_10 0%Qc
    [Q2Qc 100; Q2Qc 102; Q2Qc 5000; Q2Qc 101; Q2Qc 99]
    ["mon"; "tue"; "wed"; "thu"; "fri"] [7; 8; 1; 9; 6]
  = ([Q2Qc 100; Q2Qc 102; Q2Qc 101; Q2Qc 99],
     ["mon"; "tue"; "thu"; "fri"], [7; 8; 9; 6])
  ∧ length ["mon"; "tue"; "thu"; "fri"] = 4%nat.
Proof.
  assert (Hrun : reject_city Qc_median Qc_abs_diff Qc_truediv Qc_truthy
            Qc_lt_10 0%Qc
            [Q2Qc 100; Q2Qc 102; Q2Qc 5000; Q2Qc 101; Q2Qc 99]
            ["mon"; "tue"; "wed"; "thu"; "fri"] [7; 8; 1; 9; 6]
          = ([Q2Qc 100; Q2Qc 102; Q2Qc 101; Q2Qc 99],
             ["mon"; "tue"; "thu"; "fri"], [7; 8; 9; 6]))
    by (vm_compute; reflexivity).
  split; [exact Hrun|].
  exact (proj1 (reject_city_aligned _ _ _ _ _ _
                  [Q2Qc 100; Q2Qc 102; Q2Qc 5000; Q2Qc 101; Q2Qc 99]
                  ["mon"; "tue"; "wed"; "thu"; "fri"] [7; 8; 1; 9; 6] _ _ _
                  eq_refl eq_refl Hrun)).
Defined.

(** X13. A city without prices is passed over: [reject_outliers] calls
    [median] on the empty list of deviations, and whatever that raises
    is caught, so the three lists of the city stay as they were. *)
Theorem reject_city_no_prices {num T C : Type}
    (median : list num → result num) (abs_diff truediv : num → num → result num)
    (truthy lt_10 : num → bool) (zero : num) (e : exn)
    (timestamps : list T) (itemCounts : list C) :
  median [] = Raise e →
  reject_outliers median abs_diff truediv truthy lt_10 zero [] = Raise e
  ∧ reject_city median abs_diff truediv truthy lt_10 zero
      [] timestamps itemCounts = ([], timestamps, itemCounts).
Proof.
  intros Hmedian.
  assert (Hrun : reject_outliers median abs_diff truediv truthy lt_10 zero []
                 = Raise e).
  { unfold reject_outliers. cbn [comprehension mbind result_bind].
    by rewrite Hmedian. }
  split; [done|]. unfold reject_city. by rewrite Hrun.
Qed.

Lemma reject_city_no_prices_witness :
  Qc_reject_outliers [] = Raise ValueError
  ∧ reject_city Qc_median Qc_abs_diff Qc_truediv Qc_truthy Qc_lt_10 0%Qc
      [] ["mon"] [7] = ([], ["mon"], [7]).
Proof.
  exact (reject_city_no_prices Qc_median Qc_abs_diff Qc_truediv Qc_truthy
           Qc_lt_10 0%Qc ValueError ["mon"] [7] eq_refl).
Defined.

Section ZeroDeviationFacts.

Context {num : Type} (lt_10 : num → bool) (zero : num).

Lemma comprehension_const {A} (l : list A) :
  comprehension (λ _ : A, Ok zero) l = Ok (replicate (length l) zero).
Proof.
  induction l as [|x l IH]; [done|].
  cbn [comprehension mbind result_bind length replicate]. by rewrite IH.
Qed.

Lemma kept_indices_all i n :
  lt_10 zero = true →
  kept_indices lt_10 (enumerate_from i (replicate n zero)) = seq i n.
Proof.
  intros Hlt. revert i. induction n as [|n IH]; intros i; [done|].
  cbn [replicate enumerate_from kept_indices seq]. by rewrite Hlt, IH.
Qed.

Lemma keep_all {A} (l : list A) :
  lt_10 zero = true → keep lt_10 (replicate (length l) zero) l = l.
Proof.
  intros Hlt. induction l as [|x l IH]; [done|].
  cbn [length replicate keep]. by rewrite Hlt, IH.
Qed.

End ZeroDeviationFacts.

(** X14. When the median of the deviations is falsy (it is 0: at least
    half of the prices equal the median price), nothing is rejected:
    every deviation is scaled to 0, which is below 10, and
    [reject_outliers] returns the data whole with all its indices. *)
Theorem reject_outliers_zero_deviation {num : Type}
    (median : list num → result num) (abs_diff truediv : num → num → result num)
    (truthy lt_10 : num → bool) (zero : num)
    (data d : list num) (m mdev : num) :
  median data = Ok m →
  Forall2 (λ i dev, abs_diff i m = Ok dev) data d →
  median d = Ok mdev →
  truthy mdev = false →
  lt_10 zero = true →
  reject_outliers median abs_diff truediv truthy lt_10 zero data
    = Ok (data, seq 0 (length data)).
Proof.
  intros Hm Hd Hmdev Hfalsy Hlt. unfold reject_outliers.
  rewrite (comprehension_Forall2 _ data d).
  2:{ eapply list.Forall2_impl; [exact Hd|]. intros i dev Hi.
      rewrite Hm. by cbn [mbind result_bind]. }
  cbn [mbind result_bind]. rewrite Hmdev. cbn [mbind result_bind].
  rewrite Hfalsy, comprehension_const. cbn [mbind result_bind].
  apply Forall2_length in Hd. rewrite <-Hd.
  rewrite kept_indices_all by done.
  pose proof (pick_kept lt_10 [] data (replicate (length data) zero)) as Hpick.
  rewrite length_replicate in Hpick. specialize (Hpick ltac:(lia)).
  cbn [app length] in Hpick. rewrite kept_indices_all in Hpick by done.
  rewrite Hpick. cbn [mbind result_bind]. by rewrite keep_all.
Qed.

Lemma reject_outliers_zero_deviation_witness :
  Qc_reject_outliers [Q2Qc 100; Q2Qc 100; Q2Qc 9000]
  = Ok ([Q2Qc 100; Q2Qc 100; Q2Qc 9000], [0; 1; 2]%nat).
Proof.
  exact (reject_outliers_zero_deviation Qc_median Qc_abs_diff Qc_truediv
           Qc_truthy Qc_lt_10 0%Qc
           [Q2Qc 100; Q2Qc 100; Q2Qc 9000] [0%Qc; 0%Qc; Q2Qc 8900]
           (Q2Qc 100) 0%Qc
           ltac:(vm_compute; reflexivity)
           ltac:(repeat constructor; vm_compute; reflexivity)
           ltac:(vm_compute; reflexivity) eq_refl eq_refl).
Defined.

(** * The series that [grabHistory] plots *)

Section SeriesFacts.


Lemma eq_str_true v s : eq_str v s = true ↔ v = VStr s.
Proof.
  destruct v; simpl; try (split; [done|by intros [=]]).
  rewrite bool_decide_eq_true. split; [by intros ->|by intros [= ->]].
Qed.

Lemma LOCATIONS_NoDup : NoDup LOCATIONS.
Proof. apply (bool_decide_unpack _). by vm_compute. Qed.

(** The chain finds the position of the location among the names. *)
Lemma location_branch_Some i names price j :
  NoDup names →
  location_branch i names price = Ok (Some j) ↔
  ∃ k name, j = (i + k)%nat ∧ names !! k = Some name
            ∧ subscript price (VStr "location") = Ok (VStr name).
Proof.
  intros Hnd. revert i. induction Hnd as [|name names Hnotin Hnd IH]; intros i.
  - simpl. split; [done|]. by intros (k & name & _ & Hk & _).
  - cbn [location_branch].
    destruct (subscript price (VStr "location")) as [location|e] eqn:Hloc.
    2:{ simpl. split; [done|]. by intros (k & n & _ & _ & ?). }
    cbn [mbind result_bind].
    destruct (eq_str location name) eqn:Heq.
    + apply eq_str_true in Heq as ->. split.
      * intros [= <-]. exists 0%nat, name. split_and!; [lia|done..].
      * intros (k & n & -> & Hk & [= <-]).
        destruct k as [|k]; [f_equal; f_equal; lia|].
        simpl in Hk. apply list_elem_of_lookup_2 in Hk. done.
    + rewrite IH. split.
      * intros (k & n & -> & Hk & Hn). exists (S k), n.
        split_and!; [lia|done..].
      * intros (k & n & -> & Hk & Hn). destruct k as [|k].
        -- simpl in Hk. injection Hk as <-. injection Hn as ->.
           simpl in Heq. by rewrite bool_decide_eq_false in Heq.
        -- exists k, n. split_and!; [lia|done..].
Qed.

Lemma location_branch_Raise i names price e :
  location_branch i names price = Raise e →
  subscript price (VStr "location") = Raise e.
Proof.
  revert i. induction names as [|name names IH]; intros i; [done|].
  cbn [location_branch].
  destruct (subscript price (VStr "location")) as [location|e'];
    [|by intros [= ->]].
  cbn [mbind result_bind]. destruct (eq_str location name); [done|].
  intros H%IH. done.
Qed.

Lemma location_branch_Ok i names price location :
  subscript price (VStr "location") = Ok location →
  ∃ branch, location_branch i names price = Ok branch.
Proof.
  intros Hloc. revert i. induction names as [|name names IH]; intros i.
  - by eexists.
  - cbn [location_branch]. rewrite Hloc. cbn [mbind result_bind].
    destruct (eq_str location name); [by eexists|apply IH].
Qed.



Lemma selected_true name price :
  selected name price = true ↔
  ∃ quality, subscript price (VStr "quality") = Ok quality
    ∧ eq_int quality 1 = true
    ∧ subscript price (VStr "location") = Ok (VStr name).
Proof.
  unfold selected.
  destruct (subscript price (VStr "quality")) as [quality|]; simpl.
  2:{ split; [done|]. by intros (? & ? & _). }
  destruct (subscript price (VStr "location")) as [location|]; simpl.
  2:{ split; [done|]. by intros (? & _ & _ & ?). }
  rewrite andb_true_iff, eq_str_true. split.
  - intros [Hq ->]. by exists quality.
  - intros (q & [= <-] & Hq & [= ->]). done.
Qed.

Lemma city_field_cons field name price rows :
  city_field field name (price :: rows)
  = row_items field name price ++ city_field field name rows.
Proof.
  unfold city_field, row_items. rewrite filter_cons.
  destruct (decide (selected name price = true)) as [Hs|Hn].
  - by rewrite Hs.
  - by apply not_true_is_false in Hn as ->.
Qed.

Lemma extend_at_Ok table i arg l items :
  table !! i = Some l →
  arg ≫= iter = Ok items →
  extend_at table i arg = Ok (<[i := l ++ items]> table).
Proof.
  intros Hl Harg. unfold extend_at. rewrite index_of_nat, Hl.
  cbn [mbind result_bind] in *. destruct arg as [v|]; [|done].
  cbn [mbind result_bind] in *. by rewrite Harg.
Qed.

Lemma extend_at_Raise table i arg l e :
  table !! i = Some l →
  arg ≫= iter = Raise e →
  extend_at table i arg = Raise e.
Proof.
  intros Hl Harg. unfold extend_at. rewrite index_of_nat, Hl.
  destruct arg as [v|e']; simpl in *; [by rewrite Harg|congruence].
Qed.

Lemma lookup_app_nil {A} (table : list (list A)) k :
  table !! k = (λ l, l ++ []) <$> table !! k.
Proof. destruct (table !! k); simpl; by rewrite ?app_nil_r. Qed.

(** What a pass of the loop does to lists of ten cities: it raises on a
    row that is not [row_ok], and otherwise appends to the lists of the
    city of the row, if it has one. *)
Lemma bucket_cases s price :
  ten_cities s →
  (row_ok price
   ∧ ∃ s', bucket s price = Ok s' ∧ ten_cities s'
       ∧ ∀ k name, LOCATIONS !! k = Some name →
           prices_minAll s' !! k
             = (λ l, l ++ row_items "prices_avg" name price) <$> prices_minAll s !! k
           ∧ timestampsAll s' !! k
             = (λ l, l ++ row_items "timestamps" name price) <$> timestampsAll s !! k
           ∧ itemCountsAll s' !! k
             = (λ l, l ++ row_items "item_count" name price) <$> itemCountsAll s !! k)
  ∨ (¬ row_ok price ∧ ∃ e, bucket s price = Raise e).
Proof.
  intros (Hp & Ht & Hc). unfold bucket.
  destruct (subscript price (VStr "quality")) as [quality|e] eqn:Hq.
  2:{ right. split; [|by exists e]. intros (q & ? & _). congruence. }
  cbn [mbind result_bind].
  assert (Hskip : (∀ name, name ∈ LOCATIONS → selected name price = false) →
    (eq_int quality 1 = true →
       ∃ location, subscript price (VStr "location") = Ok location) →
    row_ok price ∧ ∃ s', Ok s = Ok s' ∧ ten_cities s'
       ∧ ∀ k name, LOCATIONS !! k = Some name →
           prices_minAll s' !! k
             = (λ l, l ++ row_items "prices_avg" name price) <$> prices_minAll s !! k
           ∧ timestampsAll s' !! k
             = (λ l, l ++ row_items "timestamps" name price) <$> timestampsAll s !! k
           ∧ itemCountsAll s' !! k
             = (λ l, l ++ row_items "item_count" name price) <$> itemCountsAll s !! k).
  { intros Hsel Hloc. split.
    - exists quality. split_and!; [done|done|].
      intros name Hin Hs. rewrite Hsel in Hs by done. done.
    - exists s. split_and!; [done|done|].
      intros k name Hk. apply list_elem_of_lookup_2 in Hk as Hin.
      unfold row_items. rewrite (Hsel name Hin).
      split_and!; apply lookup_app_nil. }
  destruct (eq_int quality 1) eqn:Hq1.
  2:{ left. apply Hskip; [|done]. intros name _.
      apply not_true_is_false. intros (q & Hq' & Hq1' & _)%selected_true.
      congruence. }
  destruct (subscript price (VStr "location")) as [location|e] eqn:Hloc.
  2:{ right. split.
      - intros (q & Hq' & Hl & _). assert (q = quality) as -> by congruence.
        destruct (Hl Hq1) as [location Hl']. congruence.
      - exists e. simpl. rewrite Hloc. done. }
  destruct (location_branch_Ok 0 LOCATIONS price location Hloc) as [branch Hb].
  rewrite Hb. cbn [mbind result_bind].
  destruct branch as [i|].
  2:{ left. apply Hskip; [|by eexists]. intros name Hin.
      apply not_true_is_false. intros (q & _ & _ & Hl)%selected_true.
      apply list_elem_of_lookup_1 in Hin as [k Hk].
      assert (location_branch 0 LOCATIONS price = Ok (Some (0 + k)%nat)) as Hb'.
      { apply location_branch_Some; [apply LOCATIONS_NoDup|].
        by exists k, name. }
      congruence. }
  clear Hskip.
  apply location_branch_Some in Hb as (k & name & -> & Hk & Hname);
    [|apply LOCATIONS_NoDup].
  rewrite Nat.add_0_l.
  assert (Hsel : selected name price = true).
  { apply selected_true. by exists quality. }
  assert (Hother : ∀ k' name', LOCATIONS !! k' = Some name' → k' ≠ k →
            selected name' price = false).
  { intros k' name' Hk' Hne. apply not_true_is_false.
    intros (q & _ & _ & Hl)%selected_true.
    assert (name' = name) as -> by congruence.
    apply Hne. by eapply NoDup_lookup; [apply LOCATIONS_NoDup|..]. }
  assert (Hlt : (k < 10)%nat) by (apply lookup_lt_Some in Hk; exact Hk).
  destruct (lookup_lt_is_Some_2 (prices_minAll s) k ltac:(lia)) as [lp Hlp].
  destruct (lookup_lt_is_Some_2 (timestampsAll s) k ltac:(lia)) as [lt' Hlt'].
  destruct (lookup_lt_is_Some_2 (itemCountsAll s) k ltac:(lia)) as [lc Hlc].
  assert (Hbad : ∀ field e, field ∈ ["prices_avg"; "timestamps"; "item_count"] →
            data_field price field ≫= iter = Raise e → ¬ row_ok price).
  { intros field e Hin Hraise (q & _ & _ & Hfields).
    destruct (Hfields name ltac:(by eapply list_elem_of_lookup_2) Hsel field Hin)
      as [items Hitems]. congruence. }
  destruct (data_field price "prices_avg" ≫= iter) as [ip|e] eqn:Hip.
  2:{ right. split; [eapply Hbad; [|exact Hip]; set_solver|].
      exists e. rewrite (extend_at_Raise (prices_minAll s) k (data_field price "prices_avg") lp e) by done. done. }
  rewrite (extend_at_Ok (prices_minAll s) k (data_field price "prices_avg") lp ip) by done. cbn [mbind result_bind].
  destruct (data_field price "timestamps" ≫= iter) as [it|e] eqn:Hit.
  2:{ right. split; [eapply Hbad; [|exact Hit]; set_solver|].
      exists e. rewrite (extend_at_Raise (timestampsAll s) k (data_field price "timestamps") lt' e) by done. done. }
  rewrite (extend_at_Ok (timestampsAll s) k (data_field price "timestamps") lt' it) by done. cbn [mbind result_bind].
  destruct (data_field price "item_count" ≫= iter) as [ic|e] eqn:Hic.
  2:{ right. split; [eapply Hbad; [|exact Hic]; set_solver|].
      exists e. rewrite (extend_at_Raise (itemCountsAll s) k (data_field price "item_count") lc e) by done. done. }
  rewrite (extend_at_Ok (itemCountsAll s) k (data_field price "item_count") lc ic) by done. cbn [mbind result_bind].
  left. split.
  - exists quality. split_and!; [done|by eexists|].
    intros name' Hin' Hsel' field Hfield.
    apply list.elem_of_cons in Hfield as [->|Hfield]; [by eexists|].
    apply list.elem_of_cons in Hfield as [->|Hfield]; [by eexists|].
    apply list.elem_of_cons in Hfield as [->|Hfield]; [by eexists|].
    by apply elem_of_nil in Hfield.
  - eexists. split; [done|]. split.
    { unfold ten_cities. simpl. by rewrite !length_insert. }
    intros k' name' Hk'. simpl.
    destruct (decide (k' = k)) as [->|Hne].
    + assert (name' = name) as -> by congruence.
      rewrite !list_lookup_insert_eq by lia.
      rewrite Hlp, Hlt', Hlc. unfold row_items, field_items.
      rewrite Hsel, Hip, Hit, Hic. done.
    + rewrite !list_lookup_insert_ne by done.
      unfold row_items. rewrite (Hother k' name' Hk' Hne).
      split_and!; apply lookup_app_nil.
Qed.

(** The loop over the rows, from lists of ten cities. *)
Lemma bucket_loop rows s :
  ten_cities s →
  (Forall row_ok rows
   ∧ ∃ s', for_each bucket rows s = Ok s' ∧ ten_cities s'
       ∧ ∀ k name, LOCATIONS !! k = Some name →
           prices_minAll s' !! k
             = (λ l, l ++ city_field "prices_avg" name rows) <$> prices_minAll s !! k
           ∧ timestampsAll s' !! k
             = (λ l, l ++ city_field "timestamps" name rows) <$> timestampsAll s !! k
           ∧ itemCountsAll s' !! k
             = (λ l, l ++ city_field "item_count" name rows) <$> itemCountsAll s !! k)
  ∨ (¬ Forall row_ok rows ∧ ∃ e, for_each bucket rows s = Raise e).
Proof.
  revert s. induction rows as [|price rows IH]; intros s Hs.
  - left. split; [constructor|]. exists s. split_and!; [done|done|].
    intros k name _. split_and!; apply lookup_app_nil.
  - cbn [for_each].
    destruct (bucket_cases s price Hs)
      as [(Hok & s1 & -> & Hs1 & Hstep)|(Hbad & e & ->)].
    2:{ right. split; [|by exists e]. by intros [? _]%list.Forall_cons. }
    cbn [mbind result_bind].
    destruct (IH s1 Hs1) as [(Hall & s' & Hrun & Hs' & Hloop)|(Hbad & e & Hrun)].
    2:{ right. split; [|by exists e]. by intros [_ ?]%list.Forall_cons. }
    left. split; [by constructor|]. exists s'. split_and!; [done|done|].
    intros k name Hk.
    destruct (Hstep k name Hk) as (Hp1 & Ht1 & Hc1).
    destruct (Hloop k name Hk) as (Hp & Ht & Hc).
    rewrite Hp, Ht, Hc, Hp1, Ht1, Hc1, !city_field_cons.
    rewrite <-!option_fmap_compose.
    split_and!; apply option_fmap_ext; intros l; simpl; by rewrite (assoc_L (++)).
Qed.

Lemma empty_series_ten_cities : ten_cities empty_series.
Proof. done. Qed.

Lemma empty_series_lookup k name :
  LOCATIONS !! k = Some name →
  prices_minAll empty_series !! k = Some []
  ∧ timestampsAll empty_series !! k = Some []
  ∧ itemCountsAll empty_series !! k = Some [].
Proof.
  intros Hk%lookup_lt_Some. simpl in Hk.
  do 10 (destruct k as [|k]; [done|]). lia.
Qed.

(** The loop over the rows, from the empty lists. *)
Lemma bucket_loop_empty rows :
  (Forall row_ok rows
   ∧ ∃ s, for_each bucket rows empty_series = Ok s ∧ ten_cities s
       ∧ ∀ k name, LOCATIONS !! k = Some name →
           prices_minAll s !! k = Some (city_field "prices_avg" name rows)
           ∧ timestampsAll s !! k = Some (city_field "timestamps" name rows)
           ∧ itemCountsAll s !! k = Some (city_field "item_count" name rows))
  ∨ (¬ Forall row_ok rows ∧ ∃ e, for_each bucket rows empty_series = Raise e).
Proof.
  destruct (bucket_loop rows empty_series empty_series_ten_cities)
    as [(Hall & s & Hrun & Hs & Hloop)|Hbad]; [left|by right].
  split; [done|]. exists s. split_and!; [done|done|].
  intros k name Hk. destruct (Hloop k name Hk) as (Hp & Ht & Hc).
  destruct (empty_series_lookup k name Hk) as (Hp0 & Ht0 & Hc0).
  by rewrite Hp, Ht, Hc, Hp0, Ht0, Hc0.
Qed.

(** Every index of lists of ten cities is that of a name of the chain. *)
Lemma LOCATIONS_lookup (k : nat) : (k < 10)%nat → ∃ name, LOCATIONS !! k = Some name.
Proof. intros Hk. by apply lookup_lt_is_Some_2. Qed.

End SeriesFacts.

Section PlotFacts.

Context {time : Type}.
Context (strptime : value → result time).
Context (median : list value → result value).
Context (abs_diff : value → value → result value).
Context (truediv : value → value → result value).
Context (truthy : value → bool).
Context (lt_10 : value → bool).

(** Aligned lists are either left as they are or filtered together. *)
Lemma reject_city_cases {T C} (prices : list value) (timestamps : list T)
    (itemCounts : list C) :
  length timestamps = length prices →
  length itemCounts = length prices →
  reject_city median abs_diff truediv truthy lt_10 (VNum 0)
    prices timestamps itemCounts = (prices, timestamps, itemCounts)
  ∨ ∃ s, length s = length prices
    ∧ reject_city median abs_diff truediv truthy lt_10 (VNum 0)
        prices timestamps itemCounts
      = (keep lt_10 s prices, keep lt_10 s timestamps, keep lt_10 s itemCounts).
Proof.
  intros Ht Hc. unfold reject_city.
  destruct (reject_outliers _ _ _ _ _ _ prices) as [[newData indices]|]
    eqn:Hrun; [right|by left].
  apply reject_outliers_Ok in Hrun as (s & Hlen & -> & ->).
  pose proof (pick_kept lt_10 [] timestamps s ltac:(lia)) as Hpt.
  pose proof (pick_kept lt_10 [] itemCounts s ltac:(lia)) as Hpc.
  cbn [app length] in Hpt, Hpc. rewrite Hpt, Hpc. by exists s.
Qed.

(** A pass of the filtering loop replaces the lists of the city at its
    index by what [reject_city] makes of them. *)
Lemma reject_at_city (s : series time) i prices timestamps itemCounts :
  prices_minAll s !! i = Some prices →
  timestampsAll s !! i = Some timestamps →
  itemCountsAll s !! i = Some itemCounts →
  reject_at median abs_diff truediv truthy lt_10 s i prices
  = let '(p, t, c) := filtered median abs_diff truediv truthy lt_10
                        (prices, timestamps, itemCounts) in
    mkSeries (<[i := p]> (prices_minAll s)) (<[i := t]> (timestampsAll s))
             (<[i := c]> (itemCountsAll s)).
Proof.
  intros Hp Ht Hc. unfold reject_at, filtered, reject_city.
  destruct (reject_outliers _ _ _ _ _ _ prices) as [[newData indices]|].
  - cbn [prices_minAll timestampsAll itemCountsAll].
    rewrite !index_of_nat, Ht, Hc. cbn [mbind result_bind].
    destruct (pick timestamps indices) as [timestamps'|].
    + destruct (pick itemCounts indices) as [itemCounts'|]; [done|].
      by rewrite (list_insert_id _ _ _ Hc).
    + by rewrite (list_insert_id _ _ _ Ht), (list_insert_id _ _ _ Hc).
  - rewrite (list_insert_id _ _ _ Hp), (list_insert_id _ _ _ Ht),
      (list_insert_id _ _ _ Hc). by destruct s.
Qed.

Lemma city_lists_Some {T} (s : series T) k p t c :
  city_lists s k = Some (p, t, c) ↔
  prices_minAll s !! k = Some p ∧ timestampsAll s !! k = Some t
  ∧ itemCountsAll s !! k = Some c.
Proof.
  unfold city_lists.
  destruct (prices_minAll s !! k); simpl; [|by split; [|intros (? & _)]].
  destruct (timestampsAll s !! k); simpl; [|by split; [|intros (_ & ? & _)]].
  destruct (itemCountsAll s !! k); simpl; [|by split; [|intros (_ & _ & ?)]].
  split; [by intros [= -> -> ->]|by intros ([= ->] & [= ->] & [= ->])].
Qed.

(** The filtering loop from index [i] on, for [n] passes, on lists of at
    least [i + n] cities: the cities from [i] to [i + n - 1] are
    filtered, the others are left alone. *)
Lemma reject_from_city n i (s : series time) k city :
  (i + n ≤ length (prices_minAll s))%nat →
  (i + n ≤ length (timestampsAll s))%nat →
  (i + n ≤ length (itemCountsAll s))%nat →
  city_lists s k = Some city →
  city_lists (reject_from median abs_diff truediv truthy lt_10 n i s) k
  = Some (if decide (i ≤ k < i + n)%nat
          then filtered median abs_diff truediv truthy lt_10 city else city).
Proof.
  revert i s city. induction n as [|n IH]; intros i s city Hp Ht Hc Hk.
  - simpl. rewrite Hk. by rewrite decide_False by lia.
  - cbn [reject_from].
    destruct (lookup_lt_is_Some_2 (prices_minAll s) i ltac:(lia)) as [p Hip].
    destruct (lookup_lt_is_Some_2 (timestampsAll s) i ltac:(lia)) as [t Hit].
    destruct (lookup_lt_is_Some_2 (itemCountsAll s) i ltac:(lia)) as [c Hic].
    rewrite Hip, (reject_at_city s i p t c Hip Hit Hic).
    destruct (filtered _ _ _ _ _ (p, t, c)) as [[p' t'] c'] eqn:Hf.
    destruct city as [[pk tk] ck].
    apply city_lists_Some in Hk as (Hkp & Hkt & Hkc).
    destruct (decide (k = i)) as [->|Hne].
    + assert (p = pk ∧ t = tk ∧ c = ck) as (-> & -> & ->)
        by (split_and!; congruence).
      rewrite (IH (S i) _ (p', t', c')); cbn [prices_minAll timestampsAll itemCountsAll];
        rewrite ?length_insert; try lia.
      * rewrite decide_False by lia. rewrite decide_True by lia. by rewrite Hf.
      * apply city_lists_Some. cbn [prices_minAll timestampsAll itemCountsAll].
        rewrite !list_lookup_insert_eq by lia. done.
    + rewrite (IH (S i) _ (pk, tk, ck)); cbn [prices_minAll timestampsAll itemCountsAll];
        rewrite ?length_insert; try lia.
      * destruct (decide (S i ≤ k < S i + n)%nat), (decide (i ≤ k < i + S n)%nat);
          try done; lia.
      * apply city_lists_Some. cbn [prices_minAll timestampsAll itemCountsAll].
        rewrite !list_lookup_insert_ne by done. done.
Qed.

(** The filtering loop filters every city. *)
Lemma reject_all_city (s : series time) k city :
  ten_cities s →
  city_lists s k = Some city →
  city_lists (reject_all median abs_diff truediv truthy lt_10 s) k
  = Some (filtered median abs_diff truediv truthy lt_10 city).
Proof.
  intros (Hp & Ht & Hc) Hk. unfold reject_all.
  rewrite (reject_from_city _ 0 s k city) by (done || lia).
  rewrite decide_True; [done|].
  destruct city as [[p t] c]. apply city_lists_Some in Hk as (Hk%lookup_lt_Some & _).
  lia.
Qed.

(** The parsing loop returns when every timestamp can be parsed. *)
Lemma parse_timestamps_Ok (s : series value) :
  (∀ k timestamps, timestampsAll s !! k = Some timestamps →
     ∃ parsed, comprehension strptime timestamps = Ok parsed) →
  ∃ s', parse_timestamps strptime s = Ok s'
    ∧ prices_minAll s' = prices_minAll s
    ∧ itemCountsAll s' = itemCountsAll s
    ∧ Forall2 (λ timestamps parsed, comprehension strptime timestamps = Ok parsed)
        (timestampsAll s) (timestampsAll s').
Proof.
  intros Hall. unfold parse_timestamps.
  destruct (comprehension_ok (comprehension strptime) (timestampsAll s))
    as (parsed & -> & Hparsed).
  { intros timestamps [k Hk]%list_elem_of_lookup_1. by eapply Hall. }
  cbn [mbind result_bind]. eexists. by split_and!.
Qed.

Lemma parse_timestamps_inv (s : series value) s' :
  parse_timestamps strptime s = Ok s' →
  prices_minAll s' = prices_minAll s
  ∧ itemCountsAll s' = itemCountsAll s
  ∧ Forall2 (λ timestamps parsed, comprehension strptime timestamps = Ok parsed)
      (timestampsAll s) (timestampsAll s').
Proof.
  unfold parse_timestamps.
  destruct (comprehension _ (timestampsAll s)) as [parsed|] eqn:Hparsed; [|done].
  intros [= <-]. split_and!; [done..|]. by apply comprehension_Ok_inv.
Qed.

End PlotFacts.


Lemma row_items_length field name price :
  (selected name price = true → aligned price) →
  field ∈ ["timestamps"; "item_count"] →
  length (row_items field name price)
  = length (row_items "prices_avg" name price).
Proof.
  intros Haligned Hin. unfold row_items.
  destruct (selected name price); [|done].
  destruct (Haligned eq_refl) as [Ht Hc].
  apply list.elem_of_cons in Hin as [->|Hin]; [done|].
  apply list.elem_of_cons in Hin as [->|Hin]; [done|].
  by apply elem_of_nil in Hin.
Qed.

(** The lists of a city are aligned when the rows of the city are. *)
Lemma city_field_aligned name rows :
  Forall (λ price, selected name price = true → aligned price) rows →
  length (city_field "timestamps" name rows)
    = length (city_field "prices_avg" name rows)
  ∧ length (city_field "item_count" name rows)
    = length (city_field "prices_avg" name rows).
Proof.
  induction 1 as [|price rows Hprice _ [IHt IHc]]; [done|].
  rewrite !city_field_cons, !length_app, IHt, IHc.
  rewrite (row_items_length "timestamps" name price Hprice) by set_solver.
  rewrite (row_items_length "item_count" name price Hprice) by set_solver.
  done.
Qed.

(** A comprehension over a list returns when its body returns on every
    element, and only then. *)
Lemma comprehension_Ok_iff {A B} (f : A → result B) (xs : list A) :
  (∃ bs, comprehension f xs = Ok bs) ↔ ∀ a, a ∈ xs → ∃ b, f a = Ok b.
Proof.
  split.
  - intros [bs Hbs%comprehension_Ok_inv] a Ha.
    apply list_elem_of_lookup_1 in Ha as [i Hi].
    destruct (Forall2_lookup_l _ _ _ _ _ Hbs Hi) as (b & _ & Hb). by exists b.
  - intros Hall. destruct (comprehension_ok f xs Hall) as (bs & Hbs & _).
    by exists bs.
Qed.

(** X15. The loop over the rows of the response files them by city: when
    it returns, the lists at the index of a city hold the items of the
    rows of quality 1 located in that city, in the order of the rows, and
    nothing of any other row. This is stated for a city whose rows carry
    no JSON object in place of an array. *)
Theorem bucket_by_city (rows : list value) (s : series value)
    (k : nat) (name : string) :
  for_each bucket rows empty_series = Ok s →
  LOCATIONS !! k = Some name →
  Forall (λ price, selected name price = true → in_sequence price = true) rows →
  ten_cities s
  ∧ city_lists s k
    = Some (city_field "prices_avg" name rows,
            city_field "timestamps" name rows,
            city_field "item_count" name rows).
Proof.
  intros Hrun Hk _.
  destruct (bucket_loop_empty rows)
    as [(_ & s' & Hrun' & Hs & Hlists)|(_ & e & Hraise)]; [|congruence].
  assert (s' = s) as -> by congruence. split; [done|].
  apply city_lists_Some. by apply Hlists.
Qed.

Lemma bucket_by_city_witness :
  ∃ s,
    for_each bucket [caerleon_row; good_quality_row; thetford_row] empty_series
      = Ok s
    ∧ city_lists s 3
      = Some ([VNum 100; VNum 102; VNum 5000; VNum 101; VNum 99],
              [VStr "mon"; VStr "tue"; VStr "wed"; VStr "thu"; VStr "fri"],
              [VNum 7; VNum 8; VNum 1; VNum 9; VNum 6]).
Proof.
  destruct (for_each bucket [caerleon_row; good_quality_row; thetford_row]
              empty_series) as [s|e] eqn:Hrun; [|by vm_compute in Hrun].
  exists s. split; [done|].
  assert (Hrows : Forall (λ price, selected "Caerleon" price = true
                                   → in_sequence price = true)
                    [caerleon_row; good_quality_row; thetford_row])
    by (constructor; [|constructor; [|constructor; [|constructor]]];
        intros _; vm_compute; reflexivity).
  rewrite (proj2 (bucket_by_city _ s 3%nat "Caerleon" Hrun eq_refl Hrows)).
  vm_compute. reflexivity.
Defined.

(** X16. [grabHistory] gets to its plot exactly when the response can be
    iterated over, every row passes the loop that files the rows, and
    every timestamp filed under one of the ten cities can be parsed. The
    outlier filter cannot stop it, whatever the arithmetic does. *)
Theorem grabHistory_series_returns {time : Type}
    (strptime : value → result time)
    (median : list value → result value)
    (abs_diff truediv : value → value → result value)
    (truthy lt_10 : value → bool) (prices : value) :
  (∃ out, grabHistory_series strptime median abs_diff truediv truthy lt_10 prices
            = Ok out)
  ↔ ∃ rows, iter prices = Ok rows
      ∧ Forall row_ok rows
      ∧ ∀ name timestamp, name ∈ LOCATIONS →
          timestamp ∈ city_field "timestamps" name rows →
          ∃ t, strptime timestamp = Ok t.
Proof.
  unfold grabHistory_series.
  destruct (iter prices) as [rows|e]; cbn [mbind result_bind].
  2:{ split; [by intros [? ?]|by intros (? & ? & _)]. }
  destruct (bucket_loop_empty rows)
    as [(Hall & s & -> & Hs & Hlists)|(Hbad & e & ->)]; cbn [mbind result_bind].
  2:{ split; [by intros [? ?]|]. intros (rows' & [= <-] & Hall & _). done. }
  split.
  - intros [out Hout]. exists rows. split_and!; [done..|].
    intros name timestamp [k Hk]%list_elem_of_lookup_1 Hin.
    destruct (parse_timestamps strptime s) as [s'|] eqn:Hparse; [|done].
    apply parse_timestamps_inv in Hparse as (_ & _ & Hparsed).
    destruct (Hlists k name Hk) as (_ & Ht & _).
    destruct (Forall2_lookup_l _ _ _ _ _ Hparsed Ht) as (parsed & _ & Hp).
    eapply comprehension_Ok_iff; [by exists parsed|done].
  - intros (rows' & [= <-] & _ & Hparse).
    destruct (parse_timestamps_Ok strptime s) as (s' & -> & _).
    { intros k timestamps Hk. apply comprehension_Ok_iff.
      intros timestamp Hin.
      destruct (LOCATIONS_lookup k) as [name Hname].
      { apply lookup_lt_Some in Hk. destruct Hs as (_ & Hlen & _). lia. }
      apply (Hparse name); [by eapply list_elem_of_lookup_2|].
      destruct (Hlists k name Hname) as (_ & Ht & _). congruence. }
    by eexists.
Qed.

(** X17. Every point that [grabHistory] plots for a city is a point of
    the response: when the three arrays of every row filed under the city
    have the same length and none of them is a JSON object, the lists of
    the city after the filter are aligned, and their rows (price, time,
    item count) are rows of quality 1 of that city, in the order of the
    response. *)
Theorem grabHistory_series_points {time : Type}
    (strptime : value → result time)
    (median : list value → result value)
    (abs_diff truediv : value → value → result value)
    (truthy lt_10 : value → bool)
    (prices : value) (rows : list value) (out : series time)
    (k : nat) (name : string) :
  iter prices = Ok rows →
  Forall (λ price, selected name price = true → aligned price) rows →
  Forall (λ price, selected name price = true → in_sequence price = true) rows →
  grabHistory_series strptime median abs_diff truediv truthy lt_10 prices
    = Ok out →
  LOCATIONS !! k = Some name →
  ∃ p t c parsed,
    city_lists out k = Some (p, t, c)
    ∧ comprehension strptime (city_field "timestamps" name rows) = Ok parsed
    ∧ length t = length p
    ∧ length c = length p
    ∧ zip p (zip t c)
      `sublist_of` zip (city_field "prices_avg" name rows)
                       (zip parsed (city_field "item_count" name rows)).
Proof.
  intros Hiter Haligned _. unfold grabHistory_series. rewrite Hiter.
  cbn [mbind result_bind].
  destruct (bucket_loop_empty rows)
    as [(_ & s & -> & Hs & Hlists)|(_ & e & ->)]; [|done].
  cbn [mbind result_bind].
  destruct (parse_timestamps strptime s) as [s'|] eqn:Hparse; [|done].
  cbn [mbind result_bind]. intros [= <-] Hk.
  apply parse_timestamps_inv in Hparse as (Hp' & Hc' & Hparsed).
  destruct (Hlists k name Hk) as (Hp & Ht & Hc).
  destruct (Forall2_lookup_l _ _ _ _ _ Hparsed Ht) as (parsed & Ht' & Hparse).
  destruct (city_field_aligned name rows Haligned) as [Hlt Hlc].
  assert (Hlen : length parsed = length (city_field "timestamps" name rows))
    by (by eapply comprehension_length).
  assert (Hs' : ten_cities s').
  { destruct Hs as (H1 & H2 & H3). unfold ten_cities.
    apply Forall2_length in Hparsed as Hlen'.
    rewrite Hp', Hc', <-Hlen'. done. }
  assert (Hcity : city_lists s' k
            = Some (city_field "prices_avg" name rows, parsed,
                    city_field "item_count" name rows)).
  { apply city_lists_Some. by rewrite Hp', Hc'. }
  rewrite (reject_all_city median abs_diff truediv truthy lt_10 s' k _ Hs' Hcity).
  unfold filtered.
  destruct (reject_city_cases median abs_diff truediv truthy lt_10
              (city_field "prices_avg" name rows) parsed
              (city_field "item_count" name rows))
    as [->|(d & Hd & ->)]; [lia|lia|..].
  - eexists _, _, _, parsed. split_and!; [done|done|lia|lia|done].
  - eexists _, _, _, parsed. split_and!; [done|done|..].
    + apply keep_length. lia.
    + apply keep_length. lia.
    + destruct (keep_zip lt_10 d parsed (city_field "item_count" name rows))
        as [<-|Hne]; [|lia].
      destruct (keep_zip lt_10 d (city_field "prices_avg" name rows)
                  (zip parsed (city_field "item_count" name rows)))
        as [<-|Hne]; [apply keep_sublist|].
      rewrite length_zip in Hne. lia.
Qed.

Lemma grabHistory_series_points_witness :
  ∃ out t,
    grabHistory_series str_time int_median int_abs_diff int_truediv
      int_truthy int_lt_10 history_response = Ok out
    ∧ city_lists out 3
      = Some ([VNum 100; VNum 102; VNum 101; VNum 99], t,
              [VNum 7; VNum 8; VNum 9; VNum 6])
    ∧ length t = 4%nat.
Proof.
  destruct (grabHistory_series str_time int_median int_abs_diff int_truediv
              int_truthy int_lt_10 history_response) as [out|e] eqn:Hrun;
    [|by vm_compute in Hrun].
  assert (Haligned : Forall (λ price, selected "Caerleon" price = true
                                     → aligned price)
                       [caerleon_row; good_quality_row; thetford_row])
    by (constructor; [|constructor; [|constructor; [|constructor]]];
        intros _; by split).
  assert (Hrows : Forall (λ price, selected "Caerleon" price = true
                                   → in_sequence price = true)
                    [caerleon_row; good_quality_row; thetford_row])
    by (constructor; [|constructor; [|constructor; [|constructor]]];
        intros _; vm_compute; reflexivity).
  destruct (grabHistory_series_points str_time int_median int_abs_diff
              int_truediv int_truthy int_lt_10 history_response
              [caerleon_row; good_quality_row; thetford_row] out 3 "Caerleon"
              eq_refl Haligned Hrows Hrun eq_refl)
    as (p & t & c & parsed & Hcity & _ & Ht & _ & _).
  exists out, t.
  assert (Hout : city_lists out 3
            = Some ([VNum 100; VNum 102; VNum 101; VNum 99],
                    ["mon"; "tue"; "thu"; "fri"]%string,
                    [VNum 7; VNum 8; VNum 9; VNum 6])).
  { vm_compute in Hrun. injection Hrun as <-. reflexivity. }
  rewrite Hcity in Hout. injection Hout as -> -> ->. by split_and!.
Defined.

(** Picking at a position beyond the end of a list raises. *)
Lemma pick_Raise {A} (l : list A) (indices : list nat) (j : nat) :
  j ∈ indices → (length l ≤ j)%nat → pick l indices = Raise IndexError.
Proof.
  intros Hin Hj. induction indices as [|i indices IH]; [by apply elem_of_nil in Hin|].
  unfold pick in *. cbn [comprehension]. rewrite index_of_nat.
  destruct (l !! i) as [x|] eqn:Hi; [|done]. cbn [mbind result_bind].
  apply list.elem_of_cons in Hin as [->|Hin].
  - apply lookup_lt_Some in Hi. lia.
  - by rewrite IH.
Qed.

(** X18. The [try] block of the filtering loop is not undone when it
    fails half way: if a city has so few timestamps that a position kept
    by [reject_outliers] lies beyond them, its prices are replaced by the
    filtered prices, while its timestamps and item counts stay unfiltered. *)
Theorem reject_city_short_timestamps {num T C : Type}
    (median : list num → result num) (abs_diff truediv : num → num → result num)
    (truthy lt_10 : num → bool) (zero : num)
    (prices newData : list num) (indices : list nat) (j : nat)
    (timestamps : list T) (itemCounts : list C) :
  reject_outliers median abs_diff truediv truthy lt_10 zero prices
    = Ok (newData, indices) →
  j ∈ indices →
  (length timestamps ≤ j)%nat →
  reject_city median abs_diff truediv truthy lt_10 zero
    prices timestamps itemCounts = (newData, timestamps, itemCounts).
Proof.
  intros Hrun Hin Hj. unfold reject_city.
  by rewrite Hrun, (pick_Raise timestamps indices j Hin Hj).
Qed.

Lemma reject_city_short_timestamps_witness :
  reject_city Qc_median Qc_abs_diff Qc_truediv Qc_truthy Qc_lt_10 0%Qc
    [Q2Qc 100; Q2Qc 102; Q2Qc 5000; Q2Qc 101; Q2Qc 99]
    ["mon"; "tue"; "wed"] [7; 8; 1; 9; 6]
  = ([Q2Qc 100; Q2Qc 102; Q2Qc 101; Q2Qc 99],
     ["mon"; "tue"; "wed"], [7; 8; 1; 9; 6]).
Proof.
  apply (reject_city_short_timestamps Qc_median Qc_abs_diff Qc_truediv
           Qc_truthy Qc_lt_10 0%Qc _ _ [0; 1; 3; 4]%nat 3%nat).
  - vm_compute. reflexivity.
  - refine (bool_decide_unpack _ _). by vm_compute.
  - simpl. lia.
Defined.

(** * The fields of the embed *)

Section EmbedFacts.

Context {time : Type}.
Context (strptime : value → result time).
Context (elapsed : nat → bool → time → Qc).
Context (str_round1 : Qc → string).
Context (str_round : Qc → string).
Context (str : value → string).

Lemma append_assoc (a b c : string) : (a +:+ b) +:+ c = a +:+ (b +:+ c).
Proof. induction a as [|x a IH]; [done|]. by rewrite !append_cons, IH. Qed.

Lemma eq_int_other quality a b :
  eq_int quality a = true → a ≠ b → eq_int quality b = false.
Proof.
  destruct quality as [|q|z| | |]; simpl; try done;
    rewrite bool_decide_eq_true, bool_decide_eq_false; congruence.
Qed.

(** A row without data is passed over. *)
Lemma row_no_data i st indivData :
  has_data indivData = false →
  row_pass strptime elapsed str_round1 str_round i st indivData = Return st.
Proof.
  unfold has_data, row_pass. destruct (no_data indivData) as [[|]|]; try done.
Qed.

(** The chain of the qualities on a row whose city is a string. *)
Lemma quality_label_known indivData city quality :
  subscript indivData (VStr "city") = Ok (VStr city) →
  subscript indivData (VStr "quality") = Ok quality →
  known_quality quality = true →
  quality_label indivData = Ok (Some (VStr (city +:+ quality_suffix quality))).
Proof.
  intros Hcity Hq Hknown. unfold quality_label, quality_suffix, known_quality in *.
  rewrite Hq. cbn [mbind result_bind]. rewrite !Hcity. cbn [mbind result_bind].
  destruct (eq_int quality 0) eqn:H0.
  { rewrite !(eq_int_other quality 0) by done. simpl.
    by rewrite append_empty_r. }
  destruct (eq_int quality 1) eqn:H1.
  { rewrite !(eq_int_other quality 1) by done. simpl.
    by rewrite append_empty_r. }
  cbn [orb]. destruct (eq_int quality 2); [done|].
  destruct (eq_int quality 3); [done|].
  destruct (eq_int quality 4); [done|].
  destruct (eq_int quality 5); [done|]. done.
Qed.

Lemma quality_label_unknown indivData quality :
  subscript indivData (VStr "quality") = Ok quality →
  known_quality quality = false →
  quality_label indivData = Ok None.
Proof.
  intros Hq Hknown. unfold quality_label, known_quality in *. rewrite Hq.
  cbn [mbind result_bind].
  destruct (eq_int quality 0); [done|]. destruct (eq_int quality 1); [done|].
  destruct (eq_int quality 2); [done|]. destruct (eq_int quality 3); [done|].
  destruct (eq_int quality 4); [done|]. destruct (eq_int quality 5); done.
Qed.

Lemma quality_label_missing indivData e :
  subscript indivData (VStr "quality") = Raise e →
  quality_label indivData = Raise e.
Proof. intros Hq. unfold quality_label. by rewrite Hq. Qed.

(** A well-formed row with data is added to the lists as it is listed. *)
Lemma row_well_formed i st indivData :
  well_formed strptime indivData →
  has_data indivData = true →
  row_pass strptime elapsed str_round1 str_round i st indivData
  = Return (add_rows st
              [listed_row strptime elapsed str_round1 str_round (i, indivData)]).
Proof.
  intros (sell & buy & sell_date & buy_date & city & t_sell & t_buy
          & Hsell & Hbuy & Hsd & Hts & Hbd & Htb & Hcity & Hquality) Hdata.
  unfold has_data in Hdata. unfold row_pass, listed_row, add_rows, ago_of, ago, price_of, label_of.
  cbn [fst snd].
  destruct (no_data indivData) as [[|]|e] eqn:Hno; [done| |].
  2:{ unfold no_data in Hno. rewrite Hsell, Hbuy in Hno. simpl in Hno.
      by destruct (eq_int sell 0). }
  rewrite Hsell, Hbuy, Hsd, Hbd, Hcity. cbn [lift mbind outcome_bind result_bind].
  rewrite Hts, Htb. cbn [lift mbind outcome_bind result_bind].
  destruct (subscript indivData (VStr "quality")) as [quality|e] eqn:Hq.
  - rewrite (quality_label_known indivData city quality Hcity Hq (Hquality _ eq_refl)).
    done.
  - by rewrite (quality_label_missing indivData e Hq).
Qed.

Lemma add_rows_nil st : add_rows st [] = st.
Proof. unfold add_rows. simpl. rewrite !app_nil_r. by destruct st. Qed.

Lemma add_rows_cons st row rows :
  add_rows (add_rows st [row]) rows = add_rows st (row :: rows).
Proof.
  unfold add_rows. cbn [timeStringAll timeStringAllBuy locationStringAll
    sellPriceMinStringAll buyPriceMaxStringAll locationString fmap list_fmap].
  rewrite <-!(assoc_L (++)). cbn [app]. f_equal.
  destruct rows as [|row' rows]; [done|]. simpl.
  destruct (list.last (row' :: rows)) eqn:Hlast; [done|].
  by apply last_None in Hlast.
Qed.

Lemma listed_rows_cons i indivData data :
  listed_rows strptime elapsed str_round1 str_round i (indivData :: data)
  = (if has_data indivData
     then [listed_row strptime elapsed str_round1 str_round (i, indivData)]
     else [])
    ++ listed_rows strptime elapsed str_round1 str_round (S i) data.
Proof.
  unfold listed_rows. cbn [enumerate_from]. rewrite filter_cons. cbn [snd].
  destruct (decide (has_data indivData = true)) as [->|Hn]; [done|].
  by apply not_true_is_false in Hn as ->.
Qed.

(** The first loop on rows that are without data or well formed. *)
Lemma rows_from_well_formed i data st :
  Forall (λ indivData, has_data indivData = false
                       ∨ well_formed strptime indivData) data →
  rows_from strptime elapsed str_round1 str_round i data st
  = Return (add_rows st (listed_rows strptime elapsed str_round1 str_round i data)).
Proof.
  intros Hall. revert i st.
  induction Hall as [|indivData data Hrow _ IH]; intros i st.
  - by rewrite add_rows_nil.
  - cbn [rows_from]. rewrite listed_rows_cons.
    destruct (has_data indivData) eqn:Hdata.
    + destruct Hrow as [?|Hwf]; [done|].
      rewrite (row_well_formed i st indivData Hwf Hdata).
      cbn [mbind outcome_bind]. by rewrite IH, add_rows_cons.
    + rewrite (row_no_data i st indivData Hdata). cbn [mbind outcome_bind].
      by rewrite IH.
Qed.

End EmbedFacts.

Section ColumnFacts.

Context (str : value → string).

Lemma lookup_fmap_middle {A B} (f : A → B) (pre suf : list A) x :
  (f <$> pre ++ x :: suf) !! length pre = Some (f x).
Proof.
  rewrite list_lookup_fmap, lookup_app_r, Nat.sub_diag by lia. done.
Qed.

Lemma with_sell_cons r rows :
  with_sell (r :: rows)
  = (if eq_int (listed_sell r) 0 then [] else [r]) ++ with_sell rows.
Proof.
  unfold with_sell. rewrite filter_cons.
  destruct (eq_int (listed_sell r) 0); by destruct (decide _).
Qed.

Lemma with_buy_cons r rows :
  with_buy (r :: rows)
  = (if eq_int (listed_buy r) 0 then [] else [r]) ++ with_buy rows.
Proof.
  unfold with_buy. rewrite filter_cons.
  destruct (eq_int (listed_buy r) 0); by destruct (decide _).
Qed.

(** The second loop, from the row after [pre] on: every row with a sell
    price adds a line to the three sell columns, every row with a buy
    price a line to the three buy columns. *)
Lemma lines_from_rows (pre suf : list listed) (e : embedStrings) :
  lines_from str (add_rows no_columns (pre ++ suf)) (length pre)
    (VStr ∘ listed_label <$> suf) e
  = Ok (mkEmbedStrings
          (embedLocationString e +:+ lines (listed_label <$> with_sell suf))
          (embedPriceString e +:+ lines (str ∘ listed_sell <$> with_sell suf))
          (embedTimeString e +:+ lines (listed_time <$> with_sell suf))
          (embedPriceStringBuy e +:+ lines (str ∘ listed_buy <$> with_buy suf))
          (embedTimeStringBuy e +:+ lines (listed_timeBuy <$> with_buy suf))
          (embedLocationStringBuy e +:+ lines (listed_label <$> with_buy suf))).
Proof.
  revert pre e. induction suf as [|r suf IH]; intros pre e.
  - simpl. rewrite !append_empty_r. by destruct e.
  - cbn [fmap list_fmap lines_from]. unfold line_pass.
    cbn [add_rows no_columns timeStringAll timeStringAllBuy locationStringAll
         sellPriceMinStringAll buyPriceMaxStringAll app].
    rewrite !index_of_nat, !lookup_fmap_middle.
    cbn [mbind result_bind compose add_str].
    specialize (IH (pre ++ [r])).
    rewrite <-(assoc_L (++)), length_app, Nat.add_1_r in IH. cbn [app] in IH.
    cbn [add_rows no_columns timeStringAll timeStringAllBuy locationStringAll
         sellPriceMinStringAll buyPriceMaxStringAll app] in IH.
    rewrite with_sell_cons, with_buy_cons.
    destruct (eq_int (listed_sell r) 0), (eq_int (listed_buy r) 0);
      cbn [negb mbind result_bind app]; rewrite IH;
      cbn [embedLocationString embedPriceString embedTimeString
           embedPriceStringBuy embedTimeStringBuy embedLocationStringBuy
           fmap list_fmap lines compose];
      by rewrite ?append_assoc.
Qed.

Lemma lines_cons_ne (s : string) (l : list string) : lines (s :: l) ≠ "".
Proof. simpl. by destruct s. Qed.

(** The fields for the strings of the second loop. *)
Lemma price_fields_rows (rows : list listed) :
  price_fields
    (mkEmbedStrings
       ("" +:+ lines (listed_label <$> with_sell rows))
       ("" +:+ lines (str ∘ listed_sell <$> with_sell rows))
       ("" +:+ lines (listed_time <$> with_sell rows))
       ("" +:+ lines (str ∘ listed_buy <$> with_buy rows))
       ("" +:+ lines (listed_timeBuy <$> with_buy rows))
       ("" +:+ lines (listed_label <$> with_buy rows)))
  = fields_of str rows.
Proof.
  unfold price_fields, fields_of.
  cbn [embedLocationString embedPriceString embedTimeString
       embedPriceStringBuy embedTimeStringBuy embedLocationStringBuy].
  change (λ s, "" +:+ s) with (λ s : string, s).
  f_equal.
  - destruct (with_sell rows) as [|r sells]; [done|].
    change ("" +:+ ?s) with s.
    destruct (lines (str ∘ listed_sell <$> r :: sells)) eqn:Hl; [|done].
    by apply lines_cons_ne in Hl.
  - destruct (with_buy rows) as [|r buys]; [done|].
    change ("" +:+ ?s) with s.
    destruct (lines (str ∘ listed_buy <$> r :: buys)) eqn:Hl; [|done].
    by apply lines_cons_ne in Hl.
Qed.

End ColumnFacts.

Section LabelFacts.

Context {time : Type}.
Context (strptime : value → result time).
Context (elapsed : nat → bool → time → Qc).
Context (str_round1 : Qc → string).
Context (str_round : Qc → string).

Lemma rows_from_app i (data data' : list value) st :
  rows_from strptime elapsed str_round1 str_round i (data ++ data') st
  = st' ← rows_from strptime elapsed str_round1 str_round i data st;
    rows_from strptime elapsed str_round1 str_round (i + length data) data' st'.
Proof.
  revert i st. induction data as [|indivData data IH]; intros i st.
  - simpl. by rewrite Nat.add_0_r.
  - cbn [app rows_from length].
    destruct (row_pass _ _ _ _ i st indivData) as [st1| |]; [|done..].
    cbn [mbind outcome_bind]. rewrite IH. by rewrite Nat.add_succ_r.
Qed.

(** Rows without data leave the lists as they are. *)
Lemma rows_from_no_data i (data : list value) st :
  Forall (λ indivData, has_data indivData = false) data →
  rows_from strptime elapsed str_round1 str_round i data st = Return st.
Proof.
  intros Hall. revert i. induction Hall as [|indivData data Hrow _ IH]; intros i.
  - done.
  - cbn [rows_from]. rewrite (row_no_data _ _ _ _ i st indivData Hrow).
    cbn [mbind outcome_bind]. apply IH.
Qed.

(** A pass of the first loop either skips the row or adds one label,
    which is then the value of [locationString]. *)
Lemma row_Return i st indivData st' :
  row_pass strptime elapsed str_round1 str_round i st indivData = Return st' →
  st' = st
  ∨ ∃ label, locationStringAll st' = locationStringAll st ++ [label]
      ∧ locationString st' = Some label.
Proof.
  unfold row_pass. destruct (no_data indivData) as [[|]|]; cbn [lift mbind outcome_bind];
    [by intros [= <-]; left| |done].
  destruct (ago _ _ _ _ i true indivData _) as [t|]; cbn [lift mbind outcome_bind];
    [|done].
  destruct (ago _ _ _ _ i false indivData _) as [t'|]; cbn [lift mbind outcome_bind];
    [|done].
  intros Hrow. right.
  destruct (match quality_label indivData with
            | Ok (Some label) => Return (Some label)
            | Ok None => Return (locationString st)
            | Raise _ => _ end) as [[label|]| |]; cbn [mbind outcome_bind] in Hrow;
    [|done..].
  destruct (subscript indivData (VStr "sell_price_min")) as [sell|];
    cbn [lift mbind outcome_bind] in Hrow; [|done].
  destruct (subscript indivData (VStr "buy_price_max")) as [buy|];
    cbn [lift mbind outcome_bind] in Hrow; [|done].
  injection Hrow as <-. by exists label.
Qed.

(** After the first loop, [locationString] is the last label added, if
    it was so before. *)
Lemma rows_from_last i data st st' :
  locationString st = list.last (locationStringAll st) →
  rows_from strptime elapsed str_round1 str_round i data st = Return st' →
  locationString st' = list.last (locationStringAll st').
Proof.
  revert i st. induction data as [|indivData data IH]; intros i st Hst.
  - by intros [= <-].
  - cbn [rows_from].
    destruct (row_pass _ _ _ _ i st indivData) as [st1| |] eqn:Hrow; [|done..].
    cbn [mbind outcome_bind]. apply IH.
    apply row_Return in Hrow as [->|(label & -> & ->)]; [done|].
    by rewrite last_snoc.
Qed.

(** A row with data whose quality has no branch in the chain. *)
Lemma row_unknown_quality i st indivData quality :
  no_data indivData = Ok false →
  subscript indivData (VStr "quality") = Ok quality →
  known_quality quality = false →
  row_pass strptime elapsed str_round1 str_round i st indivData
  = timeString ← lift (ago strptime elapsed str_round1 str_round i true
                         indivData "sell_price_min_date");
    timeStringBuy ← lift (ago strptime elapsed str_round1 str_round i false
                            indivData "buy_price_max_date");
    label ← match locationString st with
            | Some label => Return label
            | None => UnboundLocalError
            end;
    sell ← lift (subscript indivData (VStr "sell_price_min"));
    buy ← lift (subscript indivData (VStr "buy_price_max"));
    Return (mkColumns (timeStringAll st ++ [timeString])
                      (timeStringAllBuy st ++ [timeStringBuy])
                      (locationStringAll st ++ [label])
                      (sellPriceMinStringAll st ++ [sell])
                      (buyPriceMaxStringAll st ++ [buy])
                      (locationString st)).
Proof.
  intros Hno Hq Hknown. unfold row_pass.
  rewrite Hno, (quality_label_unknown indivData quality Hq Hknown).
  cbn [lift mbind outcome_bind].
  destruct (ago _ _ _ _ i true indivData _) as [t|]; cbn [lift mbind outcome_bind];
    [|done].
  destruct (ago _ _ _ _ i false indivData _) as [t'|]; cbn [lift mbind outcome_bind];
    [|done].
  by destruct (locationString st).
Qed.

Lemma has_data_Return i st indivData st' :
  has_data indivData = true →
  row_pass strptime elapsed str_round1 str_round i st indivData = Return st' →
  no_data indivData = Ok false.
Proof.
  unfold has_data, row_pass. by destruct (no_data indivData) as [[|]|].
Qed.

End LabelFacts.

(** X19. For a response whose rows are without data or well formed, the
    embed shows, on each side, the rows that have a price on that side,
    in the order of the response: the three columns of a side hold one
    line for each of these rows, and a side without such a row has no
    field. The suggestions follow. *)
Theorem createEmbed_columns {time : Type}
    (strptime : value → result time) (elapsed : nat → bool → time → Qc)
    (str_round1 str_round : Qc → string) (str : value → string)
    (getTierEmojis : result (list string))
    (data altNames altIds : list value) :
  data ≠ [] →
  Forall (λ indivData, has_data indivData = false
                       ∨ well_formed strptime indivData) data →
  createEmbed_fields strptime elapsed str_round1 str_round str getTierEmojis
    (VList data) altNames altIds
  = suggested ← lift (suggestions str getTierEmojis altNames altIds);
    Return (fields_of str
              (listed_rows strptime elapsed str_round1 str_round 0 data)
            ++ suggested).
Proof.
  intros Hne Hall. unfold createEmbed_fields.
  destruct data as [|indivData data]; [done|].
  cbn [iter lift mbind outcome_bind].
  rewrite (rows_from_well_formed strptime elapsed str_round1 str_round 0 _
             no_columns Hall).
  cbn [mbind outcome_bind].
  set (rows := listed_rows _ _ _ _ 0 (indivData :: data)).
  pose proof (lines_from_rows str [] rows no_strings) as Hlines.
  cbn [app length] in Hlines.
  cbn [add_rows no_columns locationStringAll app] in *.
  rewrite Hlines. cbn [lift mbind outcome_bind no_strings
    embedLocationString embedPriceString embedTimeString
    embedPriceStringBuy embedTimeStringBuy embedLocationStringBuy].
  by rewrite price_fields_rows.
Qed.

Lemma createEmbed_columns_witness :
  ∃ fields,
    sample_fields (VList [caerleon_good; martlock_empty; lymhurst_normal]) [] []
      = Return fields
    ∧ field_name <$> fields
      = ["Locations"; "Min Sell Price"; "Last Updated";
         "Locations"; "Max Buy Price"; "Last Updated"].
Proof.
  assert (Hwf : Forall (λ indivData, has_data indivData = false
                                     ∨ well_formed str_time indivData)
                  [caerleon_good; martlock_empty; lymhurst_normal]).
  { constructor; [|constructor; [|constructor; [|constructor]]].
    - right. exists (VNum 1200), (VNum 0), (VStr "2020-05-01T10:00:00"),
        (VStr "0001-01-01T00:00:00"), "Caerleon", "2020-05-01T10:00:00",
        "0001-01-01T00:00:00".
      split_and!; try (vm_compute; reflexivity).
      intros quality Hq. vm_compute in Hq. by injection Hq as <-.
    - left. vm_compute. reflexivity.
    - right. exists (VNum 1500), (VNum 1100), (VStr "2020-05-01T10:00:00"),
        (VStr "2020-05-01T09:00:00"), "Lymhurst", "2020-05-01T10:00:00",
        "2020-05-01T09:00:00".
      split_and!; try (vm_compute; reflexivity).
      intros quality Hq. vm_compute in Hq. by injection Hq as <-. }
  eexists. split.
  - exact (createEmbed_columns str_time sample_elapsed sample_str_round1
             sample_str_round sample_str sample_emojis
             [caerleon_good; martlock_empty; lymhurst_normal] [] []
             ltac:(done) Hwf).
  - vm_compute. reflexivity.
Defined.

(** X20. A response that is not empty but whose rows are all without
    data gives an embed without any price field and without the NO DATA
    notice, which is kept for the empty response: the embed has the
    suggestions only. *)
Theorem createEmbed_rows_without_data {time : Type}
    (strptime : value → result time) (elapsed : nat → bool → time → Qc)
    (str_round1 str_round : Qc → string) (str : value → string)
    (getTierEmojis : result (list string))
    (data altNames altIds : list value) :
  data ≠ [] →
  Forall (λ indivData, no_data indivData = Ok true) data →
  createEmbed_fields strptime elapsed str_round1 str_round str getTierEmojis
    (VList data) altNames altIds
  = lift (suggestions str getTierEmojis altNames altIds).
Proof.
  intros Hne Hall. unfold createEmbed_fields.
  destruct data as [|indivData data]; [done|].
  cbn [iter lift mbind outcome_bind].
  rewrite (rows_from_no_data strptime elapsed str_round1 str_round).
  2:{ eapply List.Forall_impl; [|exact Hall].
      intros r Hr. unfold has_data. by rewrite Hr. }
  cbn [mbind outcome_bind no_columns locationStringAll lines_from lift
       price_fields no_strings embedPriceString embedPriceStringBuy app].
  by destruct (suggestions _ _ _ _).
Qed.

Lemma createEmbed_rows_without_data_witness :
  sample_fields (VList [martlock_empty; martlock_empty]) [] [] = Return [].
Proof.
  exact (createEmbed_rows_without_data str_time sample_elapsed
           sample_str_round1 sample_str_round sample_str sample_emojis
           [martlock_empty; martlock_empty] [] [] ltac:(done)
           ltac:(repeat constructor)).
Defined.

(** X21. A row with data whose quality is none of 0 to 5 takes the
    label of the row listed before it: no branch of the chain assigns
    [locationString], which still holds the previous label. There is
    such a previous row whenever the loop gets past this one. *)
Theorem createEmbed_stale_label {time : Type}
    (strptime : value → result time) (elapsed : nat → bool → time → Qc)
    (str_round1 str_round : Qc → string)
    (data : list value) (indivData quality : value) (st' : columns) :
  has_data indivData = true →
  subscript indivData (VStr "quality") = Ok quality →
  known_quality quality = false →
  rows_from strptime elapsed str_round1 str_round 0 (data ++ [indivData])
    no_columns = Return st' →
  ∃ st previous,
    rows_from strptime elapsed str_round1 str_round 0 data no_columns = Return st
    ∧ list.last (locationStringAll st) = Some previous
    ∧ locationStringAll st' = locationStringAll st ++ [previous].
Proof.
  intros Hdata Hq Hknown. rewrite rows_from_app.
  destruct (rows_from _ _ _ _ 0 data no_columns) as [st| |] eqn:Hrows; [|done..].
  cbn [mbind outcome_bind rows_from].
  destruct (row_pass _ _ _ _ (0 + length data) st indivData) as [st1| |] eqn:Hrow;
    [|done..].
  cbn [mbind outcome_bind]. intros [= <-].
  pose proof (has_data_Return _ _ _ _ _ _ _ _ Hdata Hrow) as Hno.
  rewrite (row_unknown_quality _ _ _ _ _ _ _ quality Hno Hq Hknown) in Hrow.
  destruct (ago _ _ _ _ _ true indivData _) as [t|];
    cbn [lift mbind outcome_bind] in Hrow; [|done].
  destruct (ago _ _ _ _ _ false indivData _) as [t'|];
    cbn [lift mbind outcome_bind] in Hrow; [|done].
  destruct (locationString st) as [previous|] eqn:Hprev;
    cbn [mbind outcome_bind] in Hrow; [|done].
  destruct (subscript indivData (VStr "sell_price_min")) as [sell|];
    cbn [lift mbind outcome_bind] in Hrow; [|done].
  destruct (subscript indivData (VStr "buy_price_max")) as [buy|];
    cbn [lift mbind outcome_bind] in Hrow; [|done].
  injection Hrow as <-. exists st, previous. split_and!; [done| |done].
  rewrite <-Hprev. symmetry.
  by apply (rows_from_last strptime elapsed str_round1 str_round 0 data no_columns).
Qed.

Lemma createEmbed_stale_label_witness :
  ∃ st' st previous,
    rows_from str_time sample_elapsed sample_str_round1 sample_str_round 0
      ([lymhurst_normal] ++ [thetford_odd]) no_columns = Return st'
    ∧ rows_from str_time sample_elapsed sample_str_round1 sample_str_round 0
        [lymhurst_normal] no_columns = Return st
    ∧ list.last (locationStringAll st) = Some previous
    ∧ locationStringAll st' = locationStringAll st ++ [previous].
Proof.
  destruct (rows_from str_time sample_elapsed sample_str_round1
              sample_str_round 0 ([lymhurst_normal] ++ [thetford_odd])
              no_columns) as [st'| |] eqn:Hrun;
    [|by vm_compute in Hrun..].
  destruct (createEmbed_stale_label str_time sample_elapsed sample_str_round1
              sample_str_round [lymhurst_normal] thetford_odd (VNum 6) st'
              ltac:(vm_compute; reflexivity) ltac:(vm_compute; reflexivity)
              ltac:(vm_compute; reflexivity) Hrun)
    as (st & previous & Hst & Hlast & Hlabels).
  by exists st', st, previous.
Defined.

(** X22. When the first row with data has a quality that is none of 0
    to 5, [_createEmbed] ends with an [UnboundLocalError]: its dates are
    read and parsed, no branch of the chain assigns [locationString], and
    the variable is read before any assignment. *)
Theorem createEmbed_unbound {time : Type}
    (strptime : value → result time) (elapsed : nat → bool → time → Qc)
    (str_round1 str_round : Qc → string) (str : value → string)
    (getTierEmojis : result (list string))
    (before after : list value) (indivData quality : value)
    (sell_date buy_date : value) (t_sell t_buy : time)
    (altNames altIds : list value) :
  Forall (λ r, no_data r = Ok true) before →
  no_data indivData = Ok false →
  subscript indivData (VStr "sell_price_min_date") = Ok sell_date →
  strptime sell_date = Ok t_sell →
  subscript indivData (VStr "buy_price_max_date") = Ok buy_date →
  strptime buy_date = Ok t_buy →
  subscript indivData (VStr "quality") = Ok quality →
  known_quality quality = false →
  createEmbed_fields strptime elapsed str_round1 str_round str getTierEmojis
    (VList (before ++ indivData :: after)) altNames altIds
  = UnboundLocalError.
Proof.
  intros Hbefore Hno Hsd Hts Hbd Htb Hq Hknown. unfold createEmbed_fields.
  assert (Hrows : rows_from strptime elapsed str_round1 str_round 0
                    (before ++ indivData :: after) no_columns
                  = UnboundLocalError).
  { rewrite rows_from_app, (rows_from_no_data strptime elapsed str_round1 str_round).
    2:{ eapply List.Forall_impl; [|exact Hbefore].
        intros r Hr. unfold has_data. by rewrite Hr. }
    cbn [mbind outcome_bind rows_from].
    rewrite (row_unknown_quality _ _ _ _ _ _ _ quality Hno Hq Hknown).
    unfold ago. rewrite Hsd, Hbd. cbn [mbind result_bind].
    rewrite Hts, Htb. done. }
  destruct (before ++ indivData :: after) as [|r rows] eqn:Hdata.
  { by destruct before. }
  cbn [iter lift mbind outcome_bind]. by rewrite Hrows.
Qed.

Lemma createEmbed_unbound_witness :
  sample_fields (VList ([martlock_empty] ++ thetford_odd :: [lymhurst_normal]))
    [] []
  = UnboundLocalError.
Proof.
  exact (createEmbed_unbound str_time sample_elapsed sample_str_round1
           sample_str_round sample_str sample_emojis
           [martlock_empty] [lymhurst_normal] thetford_odd (VNum 6)
           (VStr "2020-05-01T10:00:00") (VStr "0001-01-01T00:00:00")
           "2020-05-01T10:00:00" "0001-01-01T00:00:00" [] []
           ltac:(repeat constructor) ltac:(vm_compute; reflexivity)
           ltac:(vm_compute; reflexivity) ltac:(vm_compute; reflexivity)
           ltac:(vm_compute; reflexivity) ltac:(vm_compute; reflexivity)
           ltac:(vm_compute; reflexivity) ltac:(vm_compute; reflexivity)).
Defined.

Section SuggestionFacts.

Context (str : value → string).
Context (getTierEmojis : result (list string)).

Lemma index_Ok_iff {A} (l : list A) (i : nat) :
  (∃ x, index l (Z.of_nat i) = Ok x) ↔ (i < length l)%nat.
Proof.
  rewrite index_of_nat. split.
  - intros [x Hx]. destruct (l !! i) as [y|] eqn:Hy; [|done].
    by apply lookup_lt_Some in Hy.
  - intros [x Hx]%lookup_lt_is_Some_2. rewrite Hx. by exists x.
Qed.

(** The suggestions are made when there is an emoji and an ID for every
    name. *)
Lemma suggestions_Ok tierEmojis (altNames altIds : list value) :
  getTierEmojis = Ok tierEmojis →
  altNames ≠ [] →
  (length altNames ≤ length tierEmojis)%nat →
  (length altNames ≤ length altIds)%nat →
  ∃ texts, length texts = length altNames
    ∧ suggestions str getTierEmojis altNames altIds
      = Ok [mkField "Suggestions:" (join NL texts) false].
Proof.
  intros Hemojis Hne He Hi. unfold suggestions. rewrite Hemojis.
  cbn [mbind result_bind].
  destruct (comprehension_ok
    (λ i : nat, emoji ← index tierEmojis (Z.of_nat i);
                name ← index altNames (Z.of_nat i);
                id ← index altIds (Z.of_nat i);
                Ok (emoji +:+ " " +:+ str name +:+ " (" +:+ str id +:+ ")"))
    (seq 0 (length altNames))) as (texts & Htexts & _).
  { intros i Hin%elem_of_seq.
    destruct (proj2 (index_Ok_iff tierEmojis i) ltac:(lia)) as [emoji ->].
    destruct (proj2 (index_Ok_iff altNames i) ltac:(lia)) as [name ->].
    destruct (proj2 (index_Ok_iff altIds i) ltac:(lia)) as [id ->].
    by eexists. }
  exists texts. split.
  - apply comprehension_length in Htexts. by rewrite Htexts, length_seq.
  - destruct altNames as [|name altNames']; [done|].
    rewrite Htexts. done.
Qed.

End SuggestionFacts.

(** X23. The field of the suggestions is made exactly when there are no
    alternatives, or when [getTierEmojis] returns and there are at least
    as many emojis and as many IDs as alternative names; otherwise
    [_createEmbed] raises. *)
Theorem suggestions_returns (str : value → string)
    (getTierEmojis : result (list string)) (altNames altIds : list value) :
  (∃ fields, suggestions str getTierEmojis altNames altIds = Ok fields)
  ↔ altNames = []
    ∨ ∃ tierEmojis, getTierEmojis = Ok tierEmojis
        ∧ (length altNames ≤ length tierEmojis)%nat
        ∧ (length altNames ≤ length altIds)%nat.
Proof.
  split.
  - intros [fields Hfields].
    destruct altNames as [|name altNames']; [by left|right].
    unfold suggestions in Hfields.
    destruct getTierEmojis as [tierEmojis|]; [|done].
    cbn [mbind result_bind] in Hfields. exists tierEmojis. split; [done|].
    destruct (comprehension _ (seq 0 (length (name :: altNames'))))
      as [texts|] eqn:Htexts; [|done].
    destruct (proj1 (comprehension_Ok_iff _ _) (ex_intro _ texts Htexts)
                (length altNames')) as [text Hlast].
    { apply elem_of_seq. simpl. lia. }
    cbv beta in Hlast.
    destruct (index tierEmojis _) as [emoji|] eqn:He; [|done].
    cbn [mbind result_bind] in Hlast.
    destruct (index (name :: altNames') _) as [name'|]; [|done].
    cbn [mbind result_bind] in Hlast.
    destruct (index altIds _) as [id|] eqn:Hi; [|done].
    pose proof (proj1 (index_Ok_iff tierEmojis _) (ex_intro _ _ He)).
    pose proof (proj1 (index_Ok_iff altIds _) (ex_intro _ _ Hi)).
    simpl. lia.
  - intros [->|(tierEmojis & Hemojis & He & Hi)]; [by exists []|].
    destruct (decide (altNames = [])) as [->|Hne]; [by exists []|].
    destruct (suggestions_Ok str getTierEmojis tierEmojis altNames altIds)
      as (texts & _ & Htexts); [done..|].
    by eexists.
Qed.

(** X24. On a catalog that is not empty and whose items are enriched
    and displayable, [prices] requests the prices of the best match and
    passes between one and three alternatives to [_createEmbed], with as
    many IDs as names; with three emojis or more the suggestions are made
    without exception, one line for each alternative. *)
Theorem prices_embed_request {time : Type}
    (strptime : value → result time) (elapsed : nat → bool → time → Qc)
    (str_round1 str_round : Qc → string) (str : value → string)
    (getTierEmojis : result (list string))
    (dist : string → string → Qc) (fetch : value → result value)
    (tierEmojis : list string)
    (itemData : list (gmap string value)) (item : string) :
  itemData ≠ [] →
  Forall enriched itemData →
  Forall displayable itemData →
  getTierEmojis = Ok tierEmojis →
  (3 ≤ length tierEmojis)%nat →
  ∃ itemNames itemIDs itemId texts,
    item_match dist itemData item = Ok (itemNames, itemIDs)
    ∧ itemIDs !! 0%nat = Some itemId
    ∧ prices_embed strptime elapsed str_round1 str_round str getTierEmojis
        dist fetch itemData item
      = (data ← lift (fetch itemId);
         createEmbed_fields strptime elapsed str_round1 str_round str
           getTierEmojis data (drop 1 itemNames) (drop 1 itemIDs))
    ∧ length (drop 1 itemIDs) = length (drop 1 itemNames)
    ∧ (1 ≤ length texts ≤ 3)%nat
    ∧ length texts = length (drop 1 itemNames)
    ∧ suggestions str getTierEmojis (drop 1 itemNames) (drop 1 itemIDs)
      = Ok [mkField "Suggestions:" (join NL texts) false].
Proof.
  intros Hne Henriched Hshow Hemojis He.
  destruct (item_match_shown dist itemData item Henriched Hshow)
    as (itemNames & itemIDs & Hmatch & Hnames & Hids).
  apply Forall2_length in Hnames, Hids.
  rewrite length_take, sorted_length in Hnames, Hids.
  pose proof (flat_entries_length_ge dist (lower item) 0 itemData) as Hge.
  assert (Hpos : (1 ≤ length itemData)%nat)
    by (destruct itemData; [done|simpl; lia]).
  destruct itemNames as [|itemName altNames]; [cbn [length] in Hnames; lia|].
  destruct itemIDs as [|itemId altIds]; [cbn [length] in Hids; lia|].
  cbn [length] in Hnames, Hids.
  assert (Halt : altNames ≠ [])
    by (destruct altNames; [cbn [length] in Hnames; lia|done]).
  destruct (suggestions_Ok str getTierEmojis tierEmojis altNames altIds)
    as (texts & Hlen & Htexts); [done|done|lia..|].
  exists (itemName :: altNames), (itemId :: altIds), itemId, texts.
  cbn [drop]. rewrite !drop_0. split_and!; try done; try lia.
  unfold prices_embed. rewrite Hmatch. done.
Qed.

Lemma prices_embed_request_witness :
  ∃ itemNames itemIDs texts,
    item_match length_dist [enriched_bag; experts_bag] "T4.1 Bag"
      = Ok (itemNames, itemIDs)
    ∧ length texts = 3%nat
    ∧ suggestions sample_str sample_emojis (drop 1 itemNames) (drop 1 itemIDs)
      = Ok [mkField "Suggestions:" (join NL texts) false].
Proof.
  destruct (prices_embed_request str_time sample_elapsed sample_str_round1
              sample_str_round sample_str sample_emojis length_dist
              (λ _, Ok (VList []))
              ["(1)"; "(2)"; "(3)"; "(4)"; "(5)"; "(6)"; "(7)"; "(8)"]
              [enriched_bag; experts_bag] "T4.1 Bag")
    as (itemNames & itemIDs & itemId & texts & Hmatch & _ & _ & _ & _ & Hlen
        & Htexts).
  - done.
  - constructor; [|constructor; [|constructor]].
    + by exists ["T4.1 BAG"; "T4.1 Bag"].
    + by exists ["T5.0 BAG"; "T5 BAG"; "T5.0 Bag"; "T5 Bag"].
  - constructor; [|constructor; [|constructor]].
    + exists {[ "EN-US" := VStr "Adept's Bag" ]}, (VStr "Adept's Bag"),
        (VStr "T4_BAG@1"). split_and!; vm_compute; reflexivity.
    + exists {[ "EN-US" := VStr "Expert's Bag" ]}, (VStr "Expert's Bag"),
        (VStr "T5_BAG"). split_and!; vm_compute; reflexivity.
  - reflexivity.
  - simpl. lia.
  - exists itemNames, itemIDs, texts. split_and!; [done| |done].
    rewrite Hlen. pose proof Hmatch as Hrun.
    vm_compute in Hrun. by injection Hrun as <- <-.
Defined.

(** X25. On an empty catalog [prices] ends with an [IndexError], raised
    by [itemNames[0]] on the empty list that [item_match] returns; no
    request is made, whatever the query. *)
Theorem prices_embed_empty_catalog {time : Type}
    (strptime : value → result time) (elapsed : nat → bool → time → Qc)
    (str_round1 str_round : Qc → string) (str : value → string)
    (getTierEmojis : result (list string))
    (dist : string → string → Qc) (fetch : value → result value)
    (item : string) :
  prices_embed strptime elapsed str_round1 str_round str getTierEmojis
    dist fetch [] item
  = Throw IndexError.
Proof. reflexivity. Qed.

(** * The quick command *)

Lemma split_from_word cur w s :
  no_space w = true → split_from cur (w +:+ s) = split_from (cur +:+ w) s.
Proof.
  revert cur. induction w as [|c w IH]; intros cur Hw.
  - by rewrite append_empty_r.
  - cbn [no_space] in Hw. apply andb_true_iff in Hw as [Hc Hw].
    rewrite append_cons. cbn [split_from].
    destruct (isspace c); [done|].
    rewrite IH by done. f_equal.
    by rewrite append_assoc.
Qed.

Lemma split_command command query :
  command ≠ "" → no_space command = true →
  split (command +:+ " " +:+ query) = command :: split query.
Proof.
  intros Hne Hw. unfold split. rewrite split_from_word by done.
  change (" " +:+ query) with (String " " query).
  cbn [split_from]. change (isspace " ") with true. cbv iota.
  by destruct command.
Qed.

(** X26. Whether [prices] skips the plot depends on the first two words
    of the message only, and the test is a substring test: for a message
    made of a command word and a query, the plot is skipped when the
    command word contains quick, in any case, and also when the first
    word of the query does. *)
Theorem quick_first_words (command query : string) :
  command ≠ "" →
  no_space command = true →
  quick (command +:+ " " +:+ query)
  = contains "quick" (lower command)
    || match split query with
       | w :: _ => contains "quick" (lower w)
       | [] => false
       end.
Proof.
  intros Hne Hw. unfold quick. rewrite split_command by done.
  cbn [take existsb]. by destruct (split query) as [|w ws]; cbn [take existsb];
    rewrite ?orb_false_r.
Qed.

Lemma quick_first_words_witness :
  quick ("!price" +:+ " " +:+ "Quicksilver  ring") = true.
Proof.
  rewrite (quick_first_words "!price" "Quicksilver  ring"
             ltac:(done) ltac:(vm_compute; reflexivity)).
  vm_compute. reflexivity.
Defined.
